(** * IA-GENERADOR: the generation orchestrator and the Markdown block parsers

    A shallow embedding of [src/utils.py] and [src/document_generator.py]:
    the content validator, the cached [generate] call with its single retry,
    the translation fallback, the chart pre-pass and the two line-oriented
    block parsers (the flow-document one of [utils.parse_markdown_for_pdf]
    and the word-processing one of
    [DocumentGenerator.parse_markdown_for_docx]).

    Conventions of the embedding:
    - a Python [str] is the list of its Unicode code points ([list N]);
    - a raised exception is the [Raise] branch of [exc];
    - the collaborators the code only calls (the completion provider, the
      translation service, the plotting library, [json.dumps], [sha256]) are
      arguments of the functions that call them. *)

From Stdlib Require Import NArith ZArith Ascii String.
From stdpp Require Import base numbers list strings gmap.

Set Default Proof Using "Type".

(* ===================================================================== *)
(** * Python strings *)
(* ===================================================================== *)

Module Py.

Abbreviation str := (list N).

(** ** Literals: a Rocq string holds the UTF-8 bytes; [u] decodes them. *)

Fixpoint bytes_of (s : string) : list N :=
  match s with
  | EmptyString => []
  | String a s' => Ascii.N_of_ascii a :: bytes_of s'
  end.

Fixpoint utf8_decode (bs : list N) : str :=
  match bs with
  | [] => []
  | b0 :: r0 =>
    if (b0 <? 128)%N then b0 :: utf8_decode r0
    else if (b0 <? 224)%N then
      match r0 with
      | b1 :: r1 => ((b0 - 192) * 64 + (b1 - 128))%N :: utf8_decode r1
      | _ => []
      end
    else if (b0 <? 240)%N then
      match r0 with
      | b1 :: b2 :: r2 =>
        ((b0 - 224) * 4096 + (b1 - 128) * 64 + (b2 - 128))%N :: utf8_decode r2
      | _ => []
      end
    else
      match r0 with
      | b1 :: b2 :: b3 :: r3 =>
        ((b0 - 240) * 262144 + (b1 - 128) * 4096 + (b2 - 128) * 64 + (b3 - 128))%N
          :: utf8_decode r3
      | _ => []
      end
  end.

Definition u (s : string) : str := utf8_decode (bytes_of s).
Arguments u s%_string.

(** The characters the parsers test for. *)
Definition NL : N := 10.       (* '\n' *)
Definition SP : N := 32.       (* ' '  *)
Definition DQUOTE : N := 34.   (* the double quote *)
Definition HASH : N := 35.     (* '#'  *)
Definition STAR : N := 42.     (* '*'  *)
Definition COMMA : N := 44.    (* ','  *)
Definition DASH : N := 45.     (* '-'  *)
Definition COLON : N := 58.    (* ':'  *)
Definition PIPE : N := 124.    (* '|'  *)

(** ** [str.isspace] on one character: the code points [Py_UNICODE_ISSPACE]
    accepts. [str.strip()], [str.split()] and the pattern [\s] all use it. *)
Definition isspace (c : N) : bool :=
  ((9 <=? c) && (c <=? 13) || (28 <=? c) && (c <=? 32) || (c =? 133) || (c =? 160)
   || (c =? 5760) || (8192 <=? c) && (c <=? 8202) || (c =? 8232) || (c =? 8233)
   || (c =? 8239) || (c =? 8287) || (c =? 12288))%N.

(** ** [str.lower]: the simple case mapping of Basic Latin and of the Latin-1
    Supplement (every letter the source's literals use); a code point outside
    these two blocks is left as it is. *)
Definition lower_char (c : N) : N :=
  if ((65 <=? c) && (c <=? 90))%N then (c + 32)%N
  else if ((192 <=? c) && (c <=? 222) && negb (c =? 215))%N then (c + 32)%N
  else c.

Definition lower (s : str) : str := map lower_char s.

(** ** [str.strip()] *)
Fixpoint lstrip (s : str) : str :=
  match s with
  | c :: s' => if isspace c then lstrip s' else s
  | [] => []
  end.

Definition rstrip (s : str) : str := rev (lstrip (rev s)).

Definition strip (s : str) : str := rstrip (lstrip s).

(** ** [s.startswith(p)] *)
Fixpoint startswith (s p : str) : bool :=
  match p, s with
  | [], _ => true
  | c :: p', x :: s' => (x =? c)%N && startswith s' p'
  | _ :: _, [] => false
  end.

(** ** [needle in s] *)
Fixpoint contains (s needle : str) : bool :=
  startswith s needle ||
  match s with
  | _ :: s' => contains s' needle
  | [] => false
  end.

(** ** [s.split(sep)] for a non-empty separator: left to right, without
    overlap. [skip] counts the characters of a separator still to be passed,
    [cur] is the piece being read, reversed. *)
Fixpoint split_go (sep s : str) (skip : nat) (cur : str) : list str :=
  match s with
  | [] => [rev cur]
  | c :: s' =>
    match skip with
    | S k => split_go sep s' k cur
    | O =>
      if startswith s sep
      then rev cur :: split_go sep s' (length sep - 1) []
      else split_go sep s' 0 (c :: cur)
    end
  end.

Definition split (s sep : str) : list str := split_go sep s 0 [].

(** ** [s.split()]: the maximal runs of non-space characters *)
Fixpoint split_ws_go (s cur : str) : list str :=
  match s with
  | [] => match cur with [] => [] | _ => [rev cur] end
  | c :: s' =>
    if isspace c
    then match cur with
         | [] => split_ws_go s' []
         | _ => rev cur :: split_ws_go s' []
         end
    else split_ws_go s' (c :: cur)
  end.

Definition split_ws (s : str) : list str := split_ws_go s [].

(** ** [str(n)] for a non-negative integer *)
Fixpoint str_of_uint (d : Decimal.uint) : str :=
  match d with
  | Decimal.Nil => []
  | Decimal.D0 d => 48%N :: str_of_uint d
  | Decimal.D1 d => 49%N :: str_of_uint d
  | Decimal.D2 d => 50%N :: str_of_uint d
  | Decimal.D3 d => 51%N :: str_of_uint d
  | Decimal.D4 d => 52%N :: str_of_uint d
  | Decimal.D5 d => 53%N :: str_of_uint d
  | Decimal.D6 d => 54%N :: str_of_uint d
  | Decimal.D7 d => 55%N :: str_of_uint d
  | Decimal.D8 d => 56%N :: str_of_uint d
  | Decimal.D9 d => 57%N :: str_of_uint d
  end.

Definition str_of_N (n : N) : str := str_of_uint (N.to_uint n).
Definition str_of_nat (n : nat) : str := str_of_N (N.of_nat n).

(** ** Truthiness of a string or list, and [l[1:-1]] *)
Definition nonempty {A} (s : list A) : bool :=
  match s with [] => false | _ => true end.

Definition inner {A} (l : list A) : list A := removelast (drop 1 l).

End Py.

Import Py.

(* ===================================================================== *)
(** * Regular expressions: the fragment of [re] the source uses *)
(* ===================================================================== *)

Module Re.

(** Patterns. The only repetitions in the source's patterns are over a single
    character class ([.*], [.+], [\n*], [\s*]) or optional ([\??]). *)
Inductive re :=
| Lit (c : N)               (* one literal character *)
| Cls (p : N → bool)        (* one character of a class *)
| Bol                       (* ^ *)
| Eol                       (* $ *)
| Eps
| Seq (a b : re)
| Alt (a b : re)            (* a|b *)
| StarC (p : N → bool)      (* c* for a class c *)
| Opt (a : re).             (* a? *)

Record flags := { MULTILINE : bool; IGNORECASE : bool }.

Definition dot (c : N) : bool := negb (c =? NL)%N.   (* . without DOTALL *)
Definition newline (c : N) : bool := (c =? NL)%N.       (* \n *)

Definition PlusC (p : N → bool) : re := Seq (Cls p) (StarC p).

Fixpoint Str (s : str) : re :=
  match s with
  | [] => Eps
  | c :: s' => Seq (Lit c) (Str s')
  end.

Definition lit_eq (fl : flags) (x c : N) : bool :=
  if IGNORECASE fl then (lower_char x =? lower_char c)%N else (x =? c)%N.

Definition at_bol (fl : flags) (prev : option N) : bool :=
  match prev with
  | None => true
  | Some c => MULTILINE fl && (c =? NL)%N
  end.

Definition at_eol (fl : flags) (s : str) : bool :=
  match s with
  | [] => true
  | [c] => (c =? NL)%N
  | c :: _ => MULTILINE fl && (c =? NL)%N
  end.

(** A backtracking matcher in continuation-passing style: [prev] is the
    character before the current position ([None] at the start of the
    string), [s] what is left, [k] what must match afterwards. A match object
    is only ever tested for truth in the source, so a [bool] is all of it.
    The conjunctions and disjunctions are written with [if], which stops at
    the first answer as the engine does. *)
Fixpoint matches (fl : flags) (r : re) (prev : option N) (s : str)
    (k : option N → str → bool) {struct r} : bool :=
  match r with
  | Lit c =>
    match s with
    | x :: s' => if lit_eq fl x c then k (Some x) s' else false
    | [] => false
    end
  | Cls p =>
    match s with
    | x :: s' => if p x then k (Some x) s' else false
    | [] => false
    end
  | Bol => if at_bol fl prev then k prev s else false
  | Eol => if at_eol fl s then k prev s else false
  | Eps => k prev s
  | Seq a b => matches fl a prev s (λ prev' s', matches fl b prev' s' k)
  | Alt a b => if matches fl a prev s k then true else matches fl b prev s k
  | StarC p =>
    (fix star (prev : option N) (s : str) {struct s} : bool :=
       match s with
       | x :: s' =>
         if (if p x then star (Some x) s' else false) then true else k prev s
       | [] => k prev s
       end) prev s
  | Opt a => if matches fl a prev s k then true else k prev s
  end.

Definition accept : option N → str → bool := λ _ _, true.

(** [re.match(r, s, flags)]: a match starting at position 0. *)
Definition re_match (fl : flags) (r : re) (s : str) : bool :=
  matches fl r None s accept.

(** [re.search(r, s, flags)]: a match starting at some position. *)
Fixpoint search_from (fl : flags) (r : re) (prev : option N) (s : str) : bool :=
  if matches fl r prev s accept then true
  else match s with
       | x :: s' => search_from fl r (Some x) s'
       | [] => false
       end.

Definition re_search (fl : flags) (r : re) (s : str) : bool :=
  search_from fl r None s.

End Re.

(* ===================================================================== *)
(** * config.py *)
(* ===================================================================== *)

Module Config.

(** [VALID_LEVELS]: the three levels [validate_input] lets through. *)
Inductive level := basico | medio | profesional.

Definition level_name (l : level) : str :=
  match l with
  | basico => u "basico"
  | medio => u "medio"
  | profesional => u "profesional"
  end.

End Config.

Export Config.

(* ===================================================================== *)
(** * The prompt classifier and the content validator *)
(* ===================================================================== *)

Module Validator.
Import Re.

(** [conversational_keywords] of [is_conversational_prompt]. *)
Definition ws_star : re := StarC isspace.
Definition anchored (body : re) : re := Seq Bol (Seq ws_star (Seq body (Seq ws_star Eol))).
Definition question : re := Seq ws_star (Opt (Lit 63)).

Definition conversational_keywords : list re :=
  [ anchored (Str (u "hola"));                          (* ^\s*hola\s*$ *)
    anchored (Seq (Str (u "cómo estás")) question);     (* ^\s*cómo estás\s*\??\s*$ *)
    anchored (Str (u "hey"));                           (* ^\s*hey\s*$ *)
    anchored (Str (u "hi"));                            (* ^\s*hi\s*$ *)
    anchored (Seq (Str (u "qué tal")) question);        (* ^\s*qué tal\s*\??\s*$ *)
    anchored (Str (u "hello")) ].                       (* ^\s*hello\s*$ *)

Definition is_conversational_prompt (prompt : str) : bool :=
  let prompt := strip (lower prompt) in
  existsb (λ pattern,
    re_match {| MULTILINE := false; IGNORECASE := true |} pattern prompt)
    conversational_keywords.

(** [max_words] of [validate_generated_text]. *)
Definition max_words (l : level) : nat :=
  match l with
  | basico => 500
  | medio => 1000
  | profesional => 2000
  end.

(** The pattern [r'^.*\n*(# .+|## .+|### .+)'] searched with [re.MULTILINE]. *)
Definition heading_pattern : re :=
  Seq Bol (Seq (StarC dot) (Seq (StarC newline)
    (Alt (Seq (Str (u "# ")) (PlusC dot))
    (Alt (Seq (Str (u "## ")) (PlusC dot))
         (Seq (Str (u "### ")) (PlusC dot)))))).

Definition has_heading (text : str) : bool :=
  re_search {| MULTILINE := true; IGNORECASE := false |} heading_pattern text.

Definition word_count (text : str) : nat := length (split_ws text).

Definition msg_exceeds (l : level) (count : nat) : str :=
  u "El contenido excede el límite de palabras para el nivel " ++ level_name l
  ++ u " (" ++ str_of_nat (max_words l) ++ u " palabras). Tiene "
  ++ str_of_nat count ++ u " palabras.".
Definition msg_too_short : str :=
  u "El contenido es demasiado corto (menos de 50 palabras).".
Definition msg_no_heading : str :=
  u "El documento debe tener al menos un encabezado para niveles medio o profesional.".
Definition msg_valid : str := u "Contenido válido.".

Definition validate_generated_text (text : str) (l : level) (is_conversational : bool)
    : bool * str :=
  let word_count := word_count text in
  if max_words l <? word_count then (false, msg_exceeds l word_count)
  else if (word_count <? 50) && negb is_conversational then (false, msg_too_short)
  else if (match l with medio | profesional => true | basico => false end)
          && negb is_conversational
       then if negb (has_heading text) then (false, msg_no_heading)
            else (true, msg_valid)
  else (true, msg_valid).

End Validator.

(* ===================================================================== *)
(** * Exceptions *)
(* ===================================================================== *)

Module Exc.

(** The exception classes the source raises, catches by name, or meets. *)
Inductive exn_class :=
| Exception_            (* a plain [Exception(...)] *)
| ValueError
| IndexError
| AttributeError
| AuthenticationError
| RateLimitError
| APIConnectionError
| OtherError.           (* any other subclass of Exception, from a library *)

(** An exception: its class and [str(e)]. *)
Record exception := Exn { exn_class_of : exn_class; exn_message : str }.

Inductive exc (A : Type) :=
| Return (a : A)
| Raise (e : exception).
Arguments Return {A} a.
Arguments Raise {A} e.

Definition raises {A} (r : exc A) : bool :=
  match r with Raise _ => true | Return _ => false end.

Definition exc_bind {A B} (m : exc A) (f : A → exc B) : exc B :=
  match m with
  | Return a => f a
  | Raise e => Raise e
  end.

(** [xs[i]] *)
Definition index {A} (l : list A) (i : nat) : exc A :=
  match l !! i with
  | Some a => Return a
  | None => Raise (Exn IndexError (u "list index out of range"))
  end.

End Exc.

Export Exc.

Declare Scope exc_scope.
Delimit Scope exc_scope with exc.
Notation "'let!' x ':=' m 'in' k" := (exc_bind m (λ x, k))
  (at level 10, x name, m at level 100, k at level 200) : exc_scope.

Definition str_eqb (a b : str) : bool := bool_decide (a = b).

(* ===================================================================== *)
(** * utils.py: cache key, history summary, translation, charts *)
(* ===================================================================== *)

Module Utils.

Record message := { role : str; content : str }.

(** [generate_cache_key]. The two serialisations are library calls:
    [json_dumps_fields fields] is [json.dumps(fields, sort_keys=True)] and
    [history_digest history] is
    [sha256(json.dumps(history, sort_keys=True).encode()).hexdigest()]. *)
Definition generate_cache_key
    (json_dumps_fields : list (str * str) → str)
    (history_digest : list message → str)
    (prompt doc_type template : str) (fields : list (str * str)) (l : level)
    (history : list message) : str :=
  prompt ++ [COLON] ++ doc_type ++ [COLON] ++ template ++ [COLON]
  ++ json_dumps_fields fields ++ [COLON] ++ level_name l ++ [COLON]
  ++ history_digest history.

(** [summarize_history] *)
Definition summarize_step (summary : str) (m : message) : str :=
  if str_eqb (role m) (u "user")
  then summary ++ u "- El usuario dijo: " ++ take 100 (content m) ++ u "..." ++ [NL]
  else if str_eqb (role m) (u "assistant")
  then summary ++ u "- La IA respondió: " ++ take 100 (content m) ++ u "..." ++ [NL]
  else summary.

Definition summarize_history (history : list message) : str :=
  match history with
  | [] => []
  | _ => foldl summarize_step (u "Contexto previo de la conversación:" ++ [NL]) history
  end.

(** [translate_text]. [translator text target] is
    [GoogleTranslator(source='es', target=target).translate(text)]: it
    returns a string or [None], or raises. *)
Definition translate_text (translator : str → str → exc (option str))
    (text target_lang : str) : exc str :=
  if str_eqb target_lang (u "es") then Return text
  else
    match translator text target_lang with      (* try: *)
    | Return translated =>
      match translated with
      | None | Some [] => Return text           (* if not translated *)
      | Some t => Return t
      end
    | Raise _ => Return text                    (* except Exception *)
    end.

(** ** [float(s)]

    The value is kept as the decimal the string denotes,
    [(-1)^negative * mantissa * 10^exponent10]; Python then rounds it to the
    nearest binary64, which no property below looks at. Only ASCII digits
    are recognised. *)
Inductive pyfloat :=
| Finite (negative : bool) (mantissa : N) (exponent10 : Z)
| Inf (negative : bool)
| NaN.

Definition digit_val (c : N) : option N :=
  if ((48 <=? c) && (c <=? 57))%N then Some (c - 48)%N else None.

(** digitpart ::= digit (["_"] digit)*; [n] counts the digits read so far. *)
Fixpoint digitpart (s : str) (acc : N) (n : nat) : N * nat * str :=
  match s with
  | c :: s' =>
    match digit_val c with
    | Some d => digitpart s' (10 * acc + d)%N (S n)
    | None =>
      if (c =? 95)%N && (0 <? n)
      then match s' with
           | c' :: s'' =>
             match digit_val c' with
             | Some d => digitpart s'' (10 * acc + d)%N (S n)
             | None => (acc, n, s)
             end
           | [] => (acc, n, s)
           end
      else (acc, n, s)
    end
  | [] => (acc, n, s)
  end.

Definition sign (s : str) : bool * str :=
  match s with
  | 43%N :: r => (false, r)
  | 45%N :: r => (true, r)
  | _ => (false, s)
  end.

(** exponent ::= ("e" | "E") ["+" | "-"] digitpart, then the end. *)
Definition exponent (s : str) : option Z :=
  match s with
  | [] => Some 0%Z
  | c :: r =>
    if (c =? 101)%N || (c =? 69)%N then
      let '(neg, r1) := sign r in
      match digitpart r1 0 0 with
      | (e, S _, []) => Some (if neg then - Z.of_N e else Z.of_N e)%Z
      | _ => None
      end
    else None
  end.

Definition float_of_str (s : str) : exc pyfloat :=
  let bad := Raise (Exn ValueError (u "could not convert string to float")) in
  let '(neg, s1) := sign (strip s) in
  let name := lower s1 in
  if str_eqb name (u "inf") || str_eqb name (u "infinity") then Return (Inf neg)
  else if str_eqb name (u "nan") then Return NaN
  else
    let '(ip, ni, r1) := digitpart s1 0 0 in
    let '(m, nf, r2) :=
      match r1 with
      | 46%N :: r => digitpart r ip 0
      | _ => (ip, 0, r1)
      end in
    match ni + nf, exponent r2 with
    | S _, Some e => Return (Finite neg m (e - Z.of_nat nf))
    | _, _ => bad
    end.

(** ** The chart pre-pass (lines 168-190 of utils.py) *)

Inductive chart_kind := bar | line.

(** A [dict]: keys in insertion order, a later value replaces an earlier one. *)
Fixpoint dict_set {V} (d : list (str * V)) (k : str) (v : V) : list (str * V) :=
  match d with
  | [] => [(k, v)]
  | (k', v') :: d' => if str_eqb k' k then (k', v) :: d' else (k', v') :: dict_set d' k v
  end.

(** The dict comprehension
    [{pair.split(":")[0].strip(): float(pair.split(":")[1].strip()) for pair in data_pairs}] *)
Fixpoint chart_dict (data_pairs : list str) (d : list (str * pyfloat))
    : exc (list (str * pyfloat)) :=
  match data_pairs with
  | [] => Return d
  | pr :: rest =>
    (let! k := index (split pr [COLON]) 0 in
     let! v := index (split pr [COLON]) 1 in
     let! x := float_of_str (strip v) in
     chart_dict rest (dict_set d (strip k) x))%exc
  end.

Record chart_state := {
  chart_type : option chart_kind;
  chart_data : option (list (str * pyfloat))
}.

Definition directive (kind : chart_kind) (ln : str) : exc chart_state :=
  (let! data_str := index (split ln (u "con datos:")) 1 in
   let data_pairs := split (strip data_str) [COMMA] in
   Return {| chart_type := Some kind;
             chart_data := match chart_dict data_pairs [] with   (* try: *)
                           | Return d => Some d
                           | Raise _ => None                     (* except Exception *)
                           end |})%exc.

Definition detect_line (c : chart_state) (ln : str) : exc chart_state :=
  let ln := strip ln in
  if contains (lower ln) (u "gráfico de barras con datos:") then directive bar ln
  else if contains (lower ln) (u "gráfico de líneas con datos:") then directive line ln
  else Return c.

Fixpoint detect_charts (lines : list str) (c : chart_state) : exc chart_state :=
  match lines with
  | [] => Return c
  | ln :: rest => (let! c' := detect_line c ln in detect_charts rest c')%exc
  end.

Definition no_chart : chart_state := {| chart_type := None; chart_data := None |}.

(** [generate_chart]: [savefig kind labels values] is the plotting library
    writing the PNG; whatever goes wrong leaves the buffer empty. *)
Definition generate_chart
    (savefig : option chart_kind → list str → list pyfloat → exc (list N))
    (data : list (str * pyfloat)) (kind : option chart_kind) : list N :=
  match data with
  | [] => []                      (* ValueError, caught below *)
  | _ =>
    match savefig kind (map fst data) (map snd data) with
    | Return png => png
    | Raise _ => []               (* except Exception *)
    end
  end.

(** ** [parse_markdown_for_pdf] *)

Inductive style := Heading1 | Heading2 | Heading3 | BodyText.

Inductive image_source := Logo | ChartPng (png : list N).

(** The flowables of the story, as data. The library parses the text of a
    [Paragraph] as markup when it builds it and raises on markup it cannot
    read (an unclosed tag, say); here the constructor keeps the text as it
    is. What is proved of a story is therefore about the stories the parser
    returns, or about a text without markup. *)
Inductive flowable :=
| Paragraph (text : str) (st : style)
| Spacer (width height : N)
| Table (data : list (list str)) (colWidths : list N)
| Image (src : image_source) (width height : N).

Record pdf_state := {
  story : list flowable;
  toc : list (str * nat * str);       (* (title, position, anchor) *)
  in_list : bool;
  list_level : nat;
  table_data : list (list str)
}.

Definition table_flowable (data : list (list str)) : flowable :=
  Table data (replicate (length (default [] (head data))) 100%N).

Definition anchor (i : nat) : str := u "section_" ++ str_of_nat i.

Definition anchor_paragraph (i : nat) : flowable :=
  Paragraph (u "<a name=" ++ [DQUOTE] ++ anchor i ++ [DQUOTE] ++ u "/>") BodyText.

Definition pdf_heading (i : nat) (title : str) (st : style) (σ : pdf_state) : pdf_state :=
  {| story := story σ ++ [anchor_paragraph i; Paragraph title st];
     toc := toc σ ++ [(title, length (story σ), anchor i)];
     in_list := false;
     list_level := list_level σ;
     table_data := table_data σ |}.

(** One round of the main loop, for line [i]. *)
Definition pdf_line (i : nat) (ln : str) (σ : pdf_state) : pdf_state :=
  let ln := strip ln in
  match ln with
  | [] =>
    {| story := story σ ++ [Spacer 1 12]; toc := toc σ; in_list := in_list σ;
       list_level := list_level σ; table_data := table_data σ |}
  | _ =>
    if startswith ln (u "# ") then pdf_heading i (drop 2 ln) Heading1 σ
    else if startswith ln (u "## ") then pdf_heading i (drop 3 ln) Heading2 σ
    else if startswith ln (u "### ") then pdf_heading i (drop 4 ln) Heading3 σ
    else if startswith ln (u "- ") || startswith ln (u "* ") then
      let indent := concat (replicate (list_level σ) (u "  ")) in
      {| story := story σ ++ [Paragraph (indent ++ u "• " ++ drop 2 ln) BodyText];
         toc := toc σ; in_list := true; list_level := list_level σ;
         table_data := table_data σ |}
    else if startswith ln (u "  - ") || startswith ln (u "  * ") then
      {| story := story σ ++ [Paragraph (u "  ◦ " ++ drop 4 ln) BodyText];
         toc := toc σ; in_list := true; list_level := 1;
         table_data := table_data σ |}
    else if startswith ln [PIPE] then
      let cells := map strip (inner (split ln [PIPE])) in
      {| story := story σ; toc := toc σ; in_list := in_list σ;
         list_level := list_level σ;
         table_data := if nonempty cells && forallb nonempty cells
                       then table_data σ ++ [cells] else table_data σ |}
    else
      let story1 := match table_data σ with
                    | [] => story σ
                    | data => story σ ++ [table_flowable data]
                    end in
      let story2 := if in_list σ then story1 ++ [Spacer 1 12] else story1 in
      {| story := story2 ++ [Paragraph ln BodyText];
         toc := toc σ;
         in_list := false;
         list_level := if in_list σ then 0 else list_level σ;
         table_data := [] |}
  end.

Fixpoint pdf_lines (i : nat) (lines : list str) (σ : pdf_state) : pdf_state :=
  match lines with
  | [] => σ
  | ln :: rest => pdf_lines (S i) rest (pdf_line i ln σ)
  end.

(** [list.insert(i, x)] *)
Definition insert_at {A} (i : nat) (x : A) (l : list A) : list A :=
  take i l ++ x :: drop i l.

Definition toc_link (entry : str * nat * str) : flowable :=
  let '(title, _, anchor) := entry in
  Paragraph (u "<link href=" ++ [DQUOTE] ++ u "#" ++ anchor ++ [DQUOTE]
             ++ u " color=" ++ [DQUOTE] ++ u "blue" ++ [DQUOTE] ++ u ">"
             ++ title ++ u "</link>") BodyText.

(** The story after the main loop and the pending table (lines 192-251). *)
Definition pdf_body (lines : list str) (story0 : list flowable) : pdf_state :=
  let σ := pdf_lines 0 lines
             {| story := story0; toc := []; in_list := false; list_level := 0;
                table_data := [] |} in
  match table_data σ with
  | [] => σ
  | data =>
    {| story := story σ ++ [table_flowable data]; toc := toc σ; in_list := in_list σ;
       list_level := list_level σ; table_data := data |}
  end.

(** [has_logo]: a logo path was given, the file exists and the image loads. *)
Definition parse_markdown_for_pdf
    (translator : str → str → exc (option str))
    (savefig : option chart_kind → list str → list pyfloat → exc (list N))
    (text language : str) (has_logo : bool) : exc (list flowable) :=
  (let lines := split text [NL] in
   let story0 := if has_logo then [Image Logo 100 50; Spacer 1 20] else [] in
   let! chart := detect_charts lines no_chart in
   let σ := pdf_body lines story0 in
   let story1 :=
     match chart_data chart with
     | Some ((_ :: _) as data) =>
       match generate_chart savefig data (chart_type chart) with
       | [] => story σ
       | png => story σ ++ [Image (ChartPng png) 400 300; Spacer 1 20]
       end
     | _ => story σ
     end in
   let! toc_title := translate_text translator (u "Índice") language in
   let story2 := insert_at 0 (Paragraph toc_title Heading1) story1 in
   let story3 := foldl (λ st entry, insert_at 1 (toc_link entry) st) story2 (toc σ) in
   Return (insert_at (length (toc σ) + 1) (Spacer 1 20) story3))%exc.

(** ** The inline emphasis of [utils.parse_markdown_for_docx] (lines 428-439) *)

Record run := { run_text : str; bold : bool; italic : bool }.

(** [.*?] followed by [closer]: the shortest stretch without a newline. *)
Fixpoint lazy_until (closer s acc : str) : option str :=
  if startswith s closer then Some (rev acc)
  else match s with
       | c :: s' => if Re.dot c then lazy_until closer s' (c :: acc) else None
       | [] => None
       end.

(** A match of [\*\*.*?\*\*|\*.*?\*] at the head of [s]. *)
Definition emphasis_at (s : str) : option str :=
  let italic_at :=
    if startswith s [STAR]
    then match lazy_until [STAR] (drop 1 s) [] with
         | Some body => Some ([STAR] ++ body ++ [STAR])
         | None => None
         end
    else None in
  if startswith s [STAR; STAR]
  then match lazy_until [STAR; STAR] (drop 2 s) [] with
       | Some body => Some ([STAR; STAR] ++ body ++ [STAR; STAR])
       | None => italic_at
       end
  else italic_at.

(** [re.split] of the line on that pattern, in a capturing group: the pieces
    between the matches and the matches themselves, in order. *)
Fixpoint emphasis_split (s : str) (skip : nat) (cur : str) : list str :=
  match s with
  | [] => [rev cur]
  | c :: s' =>
    match skip with
    | S k => emphasis_split s' k cur
    | O =>
      match emphasis_at s with
      | Some tok => rev cur :: tok :: emphasis_split s' (length tok - 1) []
      | None => emphasis_split s' 0 (c :: cur)
      end
    end
  end.

Definition endswith (s p : str) : bool := startswith (rev s) (rev p).

Definition emphasis_run (part : str) : run :=
  if startswith part [STAR; STAR] && endswith part [STAR; STAR]
  then {| run_text := take (length part - 4) (drop 2 part); bold := true; italic := false |}
  else if startswith part [STAR] && endswith part [STAR]
  then {| run_text := take (length part - 2) (drop 1 part); bold := false; italic := true |}
  else {| run_text := part; bold := false; italic := false |}.

Definition inline_runs (ln : str) : list run :=
  map emphasis_run (emphasis_split ln 0 []).

End Utils.

(* ===================================================================== *)
(** * document_generator.py: the word-processing backend *)
(* ===================================================================== *)

Module Docx.
Import Utils.

Inductive docx_style :=
| CustomHeading1 | CustomHeading2 | CustomHeading3 | CustomNormal | CustomList.

(** What [parse_markdown_for_docx] adds to the document, in order. A
    paragraph made by [doc.add_paragraph(text, style)] holds one plain run
    with the text (none when the text is empty); [left_indent] is in half
    inches, as the source sets it to [Inches(0.5 * list_level)]. The library
    refuses a text with a character that XML does not allow, and stores a
    carriage return as a line break; here the text is kept as it is, so what
    is proved of a document is about the documents the parser returns, for
    a text without a carriage return where the text of a paragraph is
    read. *)
Inductive element :=
| DocParagraph (runs : list run) (st : docx_style) (left_indent : option nat)
| DocPicture                                   (* the centred logo *)
| DocTable (rows : list (list str)).

Definition plain (text : str) : list run :=
  match text with
  | [] => []
  | _ => [{| run_text := text; bold := false; italic := false |}]
  end.

Definition add_paragraph (text : str) (st : docx_style) : element :=
  DocParagraph (plain text) st None.

(** [_add_table_to_docx]. The loop reaches the header cell (0, 0) first and
    there, at line 469, asks the first [w:tcPr] element of the document (the
    table has just been added, so there is one) for [cloneNode], which an
    element of the library does not have: an AttributeError. The next line,
    which calls the never imported [parse_xml] and [nsdecls], is not
    reached. Only a table whose first row has no cell gets past the header;
    the callers never build one. *)
Definition _add_table_to_docx (doc : list element) (table_data : list (list str))
    : exc (list element) :=
  match table_data with
  | [] => Return doc
  | [] :: _ => Return (doc ++ [DocTable table_data; DocParagraph [] CustomNormal None])
  | (_ :: _) :: _ =>
    Raise (Exn AttributeError (u "'CT_TcPr' object has no attribute 'cloneNode'"))
  end.

Record docx_state := {
  doc : list element;
  section_number : nat;
  subsection_number : nat;
  in_list : bool;
  list_level : nat;
  in_table : bool;
  table_data : list (list str)
}.

(** The flush both the blank-line branch and the paragraph branch perform:
    [if in_table: if table_data: ...]. *)
Definition flush_table (σ : docx_state) : exc docx_state :=
  if in_table σ then
    match table_data σ with
    | [] => Return σ
    | data =>
      (let! doc' := _add_table_to_docx (doc σ) data in
       Return {| doc := doc'; section_number := section_number σ;
                 subsection_number := subsection_number σ; in_list := in_list σ;
                 list_level := list_level σ; in_table := false; table_data := [] |})%exc
    end
  else Return σ.

Definition heading1_text (n : nat) (ln : str) : str :=
  str_of_nat n ++ u ". " ++ strip (drop 2 ln).

Definition heading2_text (n m : nat) (ln : str) : str :=
  str_of_nat n ++ u "." ++ str_of_nat m ++ u " " ++ strip (drop 3 ln).

(** One round of the loop of [parse_markdown_for_docx] (lines 381-445). *)
Definition docx_line (ln : str) (σ : docx_state) : exc docx_state :=
  let ln := strip ln in
  match ln with
  | [] => flush_table σ
  | _ =>
    if startswith ln (u "# ") then
      let n := S (section_number σ) in
      Return {| doc := doc σ ++ [add_paragraph (heading1_text n ln) CustomHeading1];
                section_number := n; subsection_number := 0; in_list := false;
                list_level := list_level σ; in_table := in_table σ;
                table_data := table_data σ |}
    else if startswith ln (u "## ") then
      let m := S (subsection_number σ) in
      Return {| doc := doc σ ++ [add_paragraph (heading2_text (section_number σ) m ln)
                                   CustomHeading2];
                section_number := section_number σ; subsection_number := m;
                in_list := false; list_level := list_level σ;
                in_table := in_table σ; table_data := table_data σ |}
    else if startswith ln (u "### ") then
      Return {| doc := doc σ ++ [add_paragraph (strip (drop 4 ln)) CustomHeading3];
                section_number := section_number σ;
                subsection_number := subsection_number σ; in_list := false;
                list_level := list_level σ; in_table := in_table σ;
                table_data := table_data σ |}
    else if startswith ln (u "- ") || startswith ln (u "* ") then
      let level := if in_list σ then list_level σ else 1 in
      Return {| doc := doc σ ++ [DocParagraph (plain (strip (drop 2 ln))) CustomList
                                   (Some level)];
                section_number := section_number σ;
                subsection_number := subsection_number σ; in_list := true;
                list_level := level; in_table := in_table σ;
                table_data := table_data σ |}
    else if startswith ln (u "  - ") || startswith ln (u "  * ") then
      Return {| doc := doc σ ++ [DocParagraph (plain (strip (drop 4 ln))) CustomList
                                   (Some 2)];
                section_number := section_number σ;
                subsection_number := subsection_number σ; in_list := true;
                list_level := 2; in_table := in_table σ;
                table_data := table_data σ |}
    else
      let σ1 := {| doc := doc σ; section_number := section_number σ;
                   subsection_number := subsection_number σ; in_list := false;
                   list_level := 0; in_table := in_table σ;
                   table_data := table_data σ |} in
      if startswith ln [PIPE] then
        let cells := filter (λ c, nonempty c = true) (map strip (split ln [PIPE])) in
        Return {| doc := doc σ1; section_number := section_number σ1;
                  subsection_number := subsection_number σ1; in_list := false;
                  list_level := 0; in_table := true;
                  table_data := match cells with
                                | [] => table_data σ1
                                | _ => table_data σ1 ++ [cells]
                                end |}
      else
        (let! σ2 := flush_table σ1 in
         Return {| doc := doc σ2 ++ [add_paragraph ln CustomNormal];
                   section_number := section_number σ2;
                   subsection_number := subsection_number σ2;
                   in_list := in_list σ2; list_level := list_level σ2;
                   in_table := in_table σ2; table_data := table_data σ2 |})%exc
  end.

Fixpoint docx_lines (lines : list str) (σ : docx_state) : exc docx_state :=
  match lines with
  | [] => Return σ
  | ln :: rest => (let! σ' := docx_line ln σ in docx_lines rest σ')%exc
  end.

(** [DocumentGenerator.parse_markdown_for_docx]: the document's elements.
    [has_logo]: a logo path was given and the file exists. The paragraph
    styles the function first registers are the [docx_style] names. *)
Definition parse_markdown_for_docx (text : str) (has_logo : bool) : exc (list element) :=
  (let lines := split text [NL] in
   let! σ := docx_lines lines
               {| doc := if has_logo then [DocPicture] else [];
                  section_number := 0; subsection_number := 0; in_list := false;
                  list_level := 0; in_table := false; table_data := [] |} in
   let! σ' := flush_table σ in
   Return (doc σ'))%exc.

End Docx.

(* ===================================================================== *)
(** * document_generator.py: the generation orchestrator *)
(* ===================================================================== *)

Module Generator.
Import Utils Validator.

(** One entry of [self.conversation_context]; [None] is Python's [None]. *)
Record SessionContext := {
  last_document : option str;
  last_prompt : option str;
  last_doc_type : option str;
  last_template : option str;
  last_level : option str;
  last_language : option str
}.

Definition blank_context : SessionContext :=
  {| last_document := None; last_prompt := None; last_doc_type := None;
     last_template := None; last_level := None; last_language := None |}.

(** What a call does that is not a change of the generator's own state: the
    completion requests it sends (both with model gpt-4o and temperature
    0.5) and the runs of the content validator. *)
Inductive event :=
| Completion (messages : list message) (max_tokens : N)
| Validation (text : str) (l : level) (is_conversational : bool).

(** The [DocumentGenerator] object and the trace of the events so far.
    [cache] holds the live entries of the [TTLCache]: expiry and eviction
    only ever remove entries, between two operations. *)
Record generator := {
  cache : gmap str str;
  conversation_context : gmap str SessionContext;
  trace : list event
}.

Definition M (A : Type) : Type := generator → exc A * generator.

Definition ret {A} (a : A) : M A := λ g, (Return a, g).
Definition throw {A} (e : exception) : M A := λ g, (Raise e, g).
Definition bind {A B} (m : M A) (f : A → M B) : M B :=
  λ g, match m g with
       | (Return a, g') => f a g'
       | (Raise e, g') => (Raise e, g')
       end.
(** [try: m except Exception as e: handler e] *)
Definition try_except {A} (m : M A) (handler : exception → M A) : M A :=
  λ g, match m g with
       | (Return a, g') => (Return a, g')
       | (Raise e, g') => handler e g'
       end.

Declare Scope gen_scope.
Delimit Scope gen_scope with gen.
Notation "'let*' x ':=' m 'in' k" := (bind m (λ x, k))
  (at level 10, x name, m at level 100, k at level 200) : gen_scope.
Notation "m ';;' k" := (bind m (λ _, k))
  (at level 100, k at level 200, right associativity) : gen_scope.

Definition emit (e : event) : M unit :=
  λ g, (Return tt, {| cache := cache g; conversation_context := conversation_context g;
                      trace := trace g ++ [e] |}).

(** [if session_id not in self.conversation_context: ... = {all None}] *)
Definition init_context (session_id : str) (cs : gmap str SessionContext)
    : gmap str SessionContext :=
  match cs !! session_id with
  | Some _ => cs
  | None => <[session_id := blank_context]> cs
  end.

Definition init_session (session_id : str) : M unit :=
  λ g, (Return tt, {| cache := cache g;
                      conversation_context := init_context session_id (conversation_context g);
                      trace := trace g |}).

Definition get_context (session_id : str) : M SessionContext :=
  λ g, (Return (default blank_context (conversation_context g !! session_id)), g).

(** [self.conversation_context[session_id].update({...})] *)
Definition update_context (session_id : str) (c : SessionContext) : M unit :=
  λ g, (Return tt, {| cache := cache g;
                      conversation_context := <[session_id := c]> (conversation_context g);
                      trace := trace g |}).

(** The cache, by its live entries. The [TTLCache] of the source holds at
    most 100 entries for an hour each: a store may push another entry out,
    which the map below does not do. Of the cache after a store only the
    entry of the stored key is to be relied on. *)
Definition cache_lookup (key : str) : M (option str) :=
  λ g, (Return (cache g !! key), g).

Definition cache_store (key text : str) : M unit :=
  λ g, (Return tt, {| cache := <[key := text]> (cache g);
                      conversation_context := conversation_context g;
                      trace := trace g |}).

(** [reset_context] *)
Definition reset_context (session_id : str) (g : generator) : generator :=
  {| cache := cache g;
     conversation_context := delete session_id (conversation_context g);
     trace := trace g |}.

(** The fixed instruction texts of [generate] and of config.py, which no
    property below reads: the chat persona (by language), the document rules
    (by language and level, [LEVEL_INSTRUCTIONS] included), the section
    outline of a level, the reminder for the two upper levels, [TEMPLATES]. *)
Record instructions := {
  chat_persona : str → str;
  document_rules : str → level → str;
  level_outline : level → str;
  heading_reminder : str;
  TEMPLATES : gmap str str
}.

Definition show (o : option str) : str := default (u "None") o.

Definition truthy (o : option str) : bool :=
  match o with Some (_ :: _) => true | _ => false end.

Definition context_summary (c : SessionContext) : str :=
  [NL] ++ u "Contexto del documento anterior:" ++ [NL]
  ++ u "- Tipo de documento: " ++ show (last_doc_type c) ++ [NL]
  ++ u "- Plantilla: " ++ show (last_template c) ++ [NL]
  ++ u "- Nivel: " ++ show (last_level c) ++ [NL]
  ++ u "- Idioma: " ++ show (last_language c) ++ [NL]
  ++ u "- Contenido previo (resumen): " ++ take 200 (default [] (last_document c))
  ++ u "..." ++ [NL]
  ++ u "Si el usuario solicita modificaciones (por ejemplo, 'añade una cláusula'), aplica los cambios al documento anterior manteniendo su estructura y estilo.".

Definition system_message (ins : instructions) (is_conversational : bool)
    (language : str) (l : level) (history_summary context_summary template : str) : str :=
  let base :=
    if is_conversational then chat_persona ins language
    else document_rules ins language l ++ history_summary ++ [NL] ++ context_summary
         ++ level_outline ins l
         ++ match l with
            | medio | profesional => heading_reminder ins
            | basico => []
            end in
  match TEMPLATES ins !! template with
  | Some t => if is_conversational then base
              else base ++ u " Usa esta plantilla como base:" ++ [NL] ++ t
  | None => base
  end.

Definition corrective_clause : str :=
  [NL] ++ u "Por favor, asegúrate de incluir al menos un encabezado (#, ##) en el contenido y seguir la estructura solicitada según el nivel.".

(** [messages[-1]["content"] += clause] *)
Definition append_to_last (messages : list message) (clause : str) : list message :=
  match reverse messages with
  | m :: before => reverse before ++ [{| role := role m; content := content m ++ clause |}]
  | [] => []
  end.

Definition max_tokens_for (is_conversational : bool) (l : level) : N :=
  if is_conversational then 200%N
  else match l with
       | basico => 1000
       | medio => 2000
       | profesional => 4000
       end%N.

Section Generate.

(** The collaborators: the two serialisations of the cache key, the
    instruction texts, and the completion provider. [provider attempt
    messages max_tokens] is [response.choices[0].message.content] of the
    request numbered [attempt] in this call, or the exception the request (or
    a missing content) raises. *)
Variable json_dumps_fields : list (str * str) → str.
Variable history_digest : list message → str.
Variable ins : instructions.
Variable provider : nat → list message → N → exc str.

Definition completion (attempt : nat) (messages : list message) (max_tokens : N) : M str :=
  (emit (Completion messages max_tokens) ;;
   match provider attempt messages max_tokens with
   | Return content => ret (strip content)
   | Raise e => throw e
   end)%gen.

Definition validate (text : str) (l : level) (is_conversational : bool) : M (bool * str) :=
  (emit (Validation text l is_conversational) ;;
   ret (validate_generated_text text l is_conversational))%gen.

(** The [except] clauses of [generate]. *)
Definition on_error {A} (e : exception) : M A :=
  match exn_class_of e with
  | AuthenticationError =>
    throw (Exn Exception_ (u "Error de autenticación con la API de OpenAI."))
  | RateLimitError =>
    throw (Exn Exception_ (u "Límite de cuota alcanzado. Intenta de nuevo más tarde."))
  | APIConnectionError =>
    throw (Exn Exception_ (u "No se pudo conectar con la API de OpenAI."))
  | _ =>
    throw (Exn Exception_ (u "Error al generar el texto: " ++ exn_message e))
  end.

Definition invalid_after_retry (message : str) : exception :=
  Exn ValueError (u "Contenido generado no válido tras reintento: " ++ message).

Definition generate (prompt doc_type template : str) (fields : list (str * str))
    (l : level) (language : str) (history : list message) (session_id : str)
    : M (str * bool) :=
  (let is_conversational := is_conversational_prompt prompt in
   let history_summary := if is_conversational then [] else summarize_history history in
   init_session session_id ;;
   let* ctx := get_context session_id in
   let context_summary :=
     if truthy (last_document ctx) && negb is_conversational
     then context_summary ctx else [] in
   let system_message :=
     system_message ins is_conversational language l history_summary context_summary
       template in
   let messages :=
     [{| role := u "system"; content := system_message |}] ++ history
     ++ [{| role := u "user"; content := prompt |}] in
   let cache_key :=
     generate_cache_key json_dumps_fields history_digest prompt doc_type template fields
       l history in
   let max_tokens := max_tokens_for is_conversational l in
   let* cached := cache_lookup cache_key in
   match cached with
   | Some text => ret (text, is_conversational)
   | None =>
     try_except
       (let* generated_text := completion 0 messages max_tokens in
        let* verdict := validate generated_text l is_conversational in
        let* generated_text :=
          if negb (fst verdict) && negb is_conversational then
            let messages := append_to_last messages corrective_clause in
            let* generated_text := completion 1 messages max_tokens in
            let* verdict := validate generated_text l is_conversational in
            if negb (fst verdict) then throw (invalid_after_retry (snd verdict))
            else ret generated_text
          else ret generated_text in
        (if negb is_conversational then
           update_context session_id
             {| last_document := Some generated_text; last_prompt := Some prompt;
                last_doc_type := Some doc_type; last_template := Some template;
                last_level := Some (level_name l); last_language := Some language |}
         else ret tt) ;;
        cache_store cache_key generated_text ;;
        ret (generated_text, is_conversational))
       on_error
   end)%gen.

End Generate.

End Generator.

(* ===================================================================== *)
(** * document_generator.py: render *)
(* ===================================================================== *)

Module Render.
Import Utils Docx.

(** What [render] has built when it returns: the text itself, the HTML of
    the Markdown converter, the story handed to [doc.build], the elements of
    the saved document, or the HTML page. The other components of the tuple
    (file id, MIME type, file name, preview) are not part of the model. *)
Inductive rendered :=
| RText (text : str)
| RMarkdown (html : str)
| RPdf (story : list flowable)
| RDocx (elements : list element)
| RHtml (page : str).

(** [markdown_html nl2br text] is [markdown.markdown] with the table and
    fenced-code extensions, and with nl2br when asked; [html_page file_name
    language fragment] is the page template filled in. *)
Definition render
    (markdown_html : bool → str → str) (html_page : str → str → str → str)
    (translator : str → str → exc (option str))
    (savefig : option chart_kind → list str → list pyfloat → exc (list N))
    (text doc_type language file_name : str) (has_logo : bool) : exc rendered :=
  let body : exc rendered :=
    if str_eqb doc_type (u "texto") then Return (RText text)
    else if str_eqb doc_type (u "markdown") then Return (RMarkdown (markdown_html true text))
    else if str_eqb doc_type (u "pdf") then
      (let! story := parse_markdown_for_pdf translator savefig text language has_logo in
       Return (RPdf story))%exc
    else if str_eqb doc_type (u "docx") then
      (let! elements := parse_markdown_for_docx text has_logo in
       Return (RDocx elements))%exc
    else if str_eqb doc_type (u "html") then
      Return (RHtml (html_page file_name language (markdown_html false text)))
    else Raise (Exn ValueError (u "Tipo de documento no soportado: " ++ doc_type)) in
  match body with                               (* try: *)
  | Return r => Return r
  | Raise e =>                                  (* except Exception as e *)
    Raise (Exn Exception_ (u "No se pudo renderizar el documento: " ++ exn_message e))
  end.

End Render.

(* ===================================================================== *)
(** * The statements of the specification, and what the proofs need *)
(* ===================================================================== *)

Module Spec.
Import Re Validator Utils Docx Generator Render.

(** ** The content validator *)

(** The heading rule as the specification words it: some line of the text
    begins with one of the three markers. *)
Definition line_begins_with_marker (ln : str) : bool :=
  startswith ln (u "# ") || startswith ln (u "## ") || startswith ln (u "### ").

Definition claimed_invalid (text : str) (l : level) (is_conversational : bool) : bool :=
  (max_words l <? word_count text)
  || ((word_count text <? 50) && negb is_conversational)
  || (match l with medio | profesional => true | basico => false end
      && negb is_conversational
      && negb (existsb line_begins_with_marker (split text [NL]))).

(** What the pattern of the source finds: a hash, a space and one more
    character that is not a newline, anywhere in the text. *)
Definition marker_anywhere (text : str) : Prop :=
  ∃ pre c post, text = pre ++ u "# " ++ c :: post ∧ c ≠ NL.

Definition marker_here (s : str) : bool :=
  match s with
  | h :: sp :: c :: _ => (h =? HASH)%N && (sp =? SP)%N && dot c
  | _ => false
  end.

Fixpoint marker_anywhere_b (s : str) : bool :=
  marker_here s || match s with _ :: s' => marker_anywhere_b s' | [] => false end.

(** The pattern's three tails, to unfold the matcher one piece at a time. *)
Definition multiline : flags := {| MULTILINE := true; IGNORECASE := false |}.
Definition markers : re :=
  Alt (Seq (Str (u "# ")) (PlusC dot))
      (Alt (Seq (Str (u "## ")) (PlusC dot)) (Seq (Str (u "### ")) (PlusC dot))).
Definition tailA (prev : option N) (s : str) : bool :=
  matches multiline markers prev s accept.
Definition tailN (prev : option N) (s : str) : bool :=
  matches multiline (Seq (StarC newline) markers) prev s accept.
Definition tailD (prev : option N) (s : str) : bool :=
  matches multiline (Seq (StarC dot) (Seq (StarC newline) markers)) prev s accept.

(** ** Translation *)
Definition translation_failed (r : exc (option str)) : Prop :=
  match r with
  | Return (Some (_ :: _)) => False
  | _ => True
  end.

(** ** Headings *)

(** The numbering as the specification words it: a top-level heading
    increments the section counter and resets the subsection counter, a
    second-level heading increments the subsection counter, every other line
    leaves both as they are. *)
Fixpoint numbered_headings (section subsection : nat) (lines : list str)
    : list (str * docx_style) :=
  match lines with
  | [] => []
  | ln :: rest =>
    let ln := strip ln in
    if startswith ln (u "# ") then
      (str_of_nat (S section) ++ u ". " ++ strip (drop 2 ln), CustomHeading1)
        :: numbered_headings (S section) 0 rest
    else if startswith ln (u "## ") then
      (str_of_nat section ++ u "." ++ str_of_nat (S subsection) ++ u " "
         ++ strip (drop 3 ln), CustomHeading2)
        :: numbered_headings section (S subsection) rest
    else numbered_headings section subsection rest
  end.

Definition paragraph_text (runs : list run) : str := concat (map run_text runs).

(** The numbered headings of a word-processing document. *)
Definition docx_heading_of (e : element) : option (str * docx_style) :=
  match e with
  | DocParagraph runs CustomHeading1 _ => Some (paragraph_text runs, CustomHeading1)
  | DocParagraph runs CustomHeading2 _ => Some (paragraph_text runs, CustomHeading2)
  | _ => None
  end.

Definition docx_headings (d : list element) : list (str * docx_style) :=
  omap docx_heading_of d.

(** The headings of a story, and the headings of the lines without any
    number: the marker dropped, nothing put in its place. *)
Definition pdf_heading_of (f : flowable) : option (str * style) :=
  match f with
  | Paragraph t Heading1 => Some (t, Heading1)
  | Paragraph t Heading2 => Some (t, Heading2)
  | Paragraph t Heading3 => Some (t, Heading3)
  | _ => None
  end.

Definition pdf_headings (st : list flowable) : list (str * style) :=
  omap pdf_heading_of st.

Definition raw_heading (ln : str) : option (str * style) :=
  let ln := strip ln in
  if startswith ln (u "# ") then Some (drop 2 ln, Heading1)
  else if startswith ln (u "## ") then Some (drop 3 ln, Heading2)
  else if startswith ln (u "### ") then Some (drop 4 ln, Heading3)
  else None.

Definition raw_headings (lines : list str) : list (str * style) := omap raw_heading lines.

Definition paragraph_texts (st : list flowable) : list str :=
  omap (λ f, match f with Paragraph t _ => Some t | _ => None end) st.

(** A paragraph without emphasis: at most one run, neither bold nor italic. *)
Definition unstyled (e : element) : bool :=
  match e with
  | DocParagraph runs _ _ =>
    (length runs <=? 1) && forallb (λ r, negb (bold r) && negb (italic r)) runs
  | _ => true
  end.

(** A paragraph line with a bold and an italic stretch. *)
Definition emphasis_example : str := u "Esto es **importante** y *urgente*.".

Definition numbering_example : str :=
  u "# A" ++ [NL] ++ u "## B" ++ [NL] ++ u "texto" ++ [NL] ++ u "- punto" ++ [NL]
  ++ u "## C" ++ [NL] ++ u "# D" ++ [NL] ++ u "## E".

Definition claimed_numbering : list str :=
  [u "1. A"; u "1.1 B"; u "1.2 C"; u "2. D"; u "2.1 E"].

(** Stand-ins for the collaborators where an example needs one. *)
Definition no_translator : str → str → exc (option str) := λ _ _, Return None.
Definition no_savefig : option chart_kind → list str → list pyfloat → exc (list N) :=
  λ _ _ _, Return [].
Definition no_markdown : bool → str → str := λ _ text, text.
Definition no_page : str → str → str → str := λ _ _ fragment, fragment.

(** ** The orchestrator *)

(** The session's context as [generate] reads it: blank when absent. *)
Definition context_of (session_id : str) (cs : gmap str SessionContext) : SessionContext :=
  default blank_context (cs !! session_id).

(** The first request of a call, and its user turn with the clause. *)
Definition system_turn (ins : instructions) (prompt template : str) (l : level)
    (language : str) (history : list message) (ctx : SessionContext) : message :=
  let conv := is_conversational_prompt prompt in
  {| role := u "system";
     content := system_message ins conv language l
                  (if conv then [] else summarize_history history)
                  (if truthy (last_document ctx) && negb conv
                   then context_summary ctx else [])
                  template |}.

Definition first_request (ins : instructions) (prompt template : str) (l : level)
    (language : str) (history : list message) (ctx : SessionContext) : list message :=
  [system_turn ins prompt template l language history ctx] ++ history
  ++ [{| role := u "user"; content := prompt |}].

Definition retry_request (ins : instructions) (prompt template : str) (l : level)
    (language : str) (history : list message) (ctx : SessionContext) : list message :=
  [system_turn ins prompt template l language history ctx] ++ history
  ++ [{| role := u "user"; content := prompt ++ corrective_clause |}].

Definition updated_context (text prompt doc_type template : str) (l : level)
    (language : str) : SessionContext :=
  {| last_document := Some text; last_prompt := Some prompt;
     last_doc_type := Some doc_type; last_template := Some template;
     last_level := Some (level_name l); last_language := Some language |}.

(** The exception [generate] raises for an exception caught in its [try]. *)
Definition surfaced (e : exception) : exception :=
  match exn_class_of e with
  | AuthenticationError => Exn Exception_ (u "Error de autenticación con la API de OpenAI.")
  | RateLimitError =>
    Exn Exception_ (u "Límite de cuota alcanzado. Intenta de nuevo más tarde.")
  | APIConnectionError => Exn Exception_ (u "No se pudo conectar con la API de OpenAI.")
  | _ => Exn Exception_ (u "Error al generar el texto: " ++ exn_message e)
  end.

(** The generator after a call: the cache and the contexts it is left with,
    and the events the call has added to the trace. *)
Definition then_ (g : generator) (c : gmap str str) (cs : gmap str SessionContext)
    (events : list event) : generator :=
  {| cache := c; conversation_context := cs; trace := trace g ++ events |}.

(** Stand-ins for the collaborators of [generate], and sample inputs. *)
Definition no_json : list (str * str) → str := λ _, u "{}".
Definition no_digest : list message → str := λ _, [].
Definition no_instructions : instructions :=
  {| chat_persona := λ _, []; document_rules := λ _ _, []; level_outline := λ _, [];
     heading_reminder := []; TEMPLATES := ∅ |}.
Definition scripted (replies : list (exc str)) : nat → list message → N → exc str :=
  λ attempt _ _, default (Raise (Exn OtherError [])) (replies !! attempt).
Definition new_generator : generator :=
  {| cache := ∅; conversation_context := ∅; trace := [] |}.
Definition sixty_words : str := concat (replicate 60 (u "palabra ")).
Definition long_reply : str := concat (replicate 501 (u "ja ")).

(** Two replies that are too short, to a request for a document. *)
Definition twice_too_short : exc (str * bool) * generator :=
  generate no_json no_digest no_instructions
    (scripted [Return (u "demasiado corto"); Return (u "otra vez corto")])
    (u "Redacta un informe") (u "texto") [] [] basico (u "es") [] (u "s1") new_generator.

(** A reply of 501 words to a greeting. *)
Definition long_greeting_reply : exc (str * bool) * generator :=
  generate no_json no_digest no_instructions (scripted [Return long_reply])
    (u "hola") (u "texto") [] [] basico (u "es") [] (u "s1") new_generator.

(** Sample texts. *)
Definition inline_hash_text : str := concat (replicate 50 (u "C# x ")).
Definition forty_words : str := concat (replicate 40 (u "palabra ")).

End Spec.

(* ===================================================================== *)
(** * Further statements: what a pattern matches *)
(* ===================================================================== *)

Module ReSem.
Import Re.

(** The character before the position reached after [consumed]. *)
Definition after (prev : option N) (consumed : str) : option N :=
  match last consumed with
  | Some x => Some x
  | None => prev
  end.

(** [den fl r prev s1 s2]: the pattern [r] can consume exactly [s1] when
    [prev] is the character before it and [s2] is what follows. *)
Fixpoint den (fl : flags) (r : re) (prev : option N) (s1 s2 : str) : Prop :=
  match r with
  | Lit c => ∃ x, s1 = [x] ∧ lit_eq fl x c = true
  | Cls p => ∃ x, s1 = [x] ∧ p x = true
  | Bol => s1 = [] ∧ at_bol fl prev = true
  | Eol => s1 = [] ∧ at_eol fl s2 = true
  | Eps => s1 = []
  | Seq a b =>
    ∃ x y, s1 = x ++ y ∧ den fl a prev x (y ++ s2) ∧ den fl b (after prev x) y s2
  | Alt a b => den fl a prev s1 s2 ∨ den fl b prev s1 s2
  | StarC p => forallb p s1 = true
  | Opt a => s1 = [] ∨ den fl a prev s1 s2
  end.

End ReSem.

(* ===================================================================== *)
(** * Further statements *)
(* ===================================================================== *)

Module More.
Import Re Validator Utils Docx Generator Render Spec.

(** ** The orchestrator *)

Definition is_completion (e : event) : bool :=
  match e with Completion _ _ => true | Validation _ _ _ => false end.

Definition is_validation (e : event) : bool :=
  match e with Validation _ _ _ => true | Completion _ _ => false end.

(** The requests and the validator runs among some events. *)
Definition completions (events : list event) : nat :=
  length (List.filter is_completion events).

Definition validations (events : list event) : nat :=
  length (List.filter is_validation events).

(** A provider that fails at once with a given exception. *)
Definition failing (e : exception) : nat → list message → N → exc str :=
  λ _ _ _, Raise e.

(** A document of sixty words under a heading. *)
Definition sixty_word_document : str := u "# Informe" ++ [NL] ++ sixty_words.

(** Sample calls. *)
Definition rate_limited : exc (str * bool) * generator :=
  generate no_json no_digest no_instructions (failing (Exn RateLimitError (u "429")))
    (u "Redacta un informe") (u "texto") [] [] basico (u "es") [] (u "s1") new_generator.

Definition report_generated : exc (str * bool) * generator :=
  generate no_json no_digest no_instructions (scripted [Return sixty_word_document])
    (u "Redacta un informe") (u "texto") [] [] medio (u "es") [] (u "s1") new_generator.

End More.

(* ===================================================================== *)
(** * Further statements: the two document backends and [render] *)
(* ===================================================================== *)

Module MoreRender.
Import Re Validator Utils Docx Generator Render Spec.

(** A table row with something in it: the stripped line begins with the bar
    and holds a character that is neither a bar nor white space. *)
Definition is_content_row (ln : str) : bool :=
  startswith (strip ln) [PIPE]
  && existsb (λ c, negb (c =? PIPE)%N && negb (isspace c)) (strip ln).

(** The cells the word-processing parser reads off a stripped table row. *)
Definition docx_cells (ln : str) : list str :=
  filter (λ c, nonempty c = true) (map strip (split ln [PIPE])).

(** What the word-processing parser has pending: every row has a cell, and
    rows are only held while [in_table] is set. *)
Definition rows_pending (σ : docx_state) : Prop :=
  Forall (λ row, row ≠ []) (Docx.table_data σ)
  ∧ (Docx.table_data σ ≠ [] → Docx.in_table σ = true).

(** The message of every exception that leaves [render]. *)
Definition render_error (message : str) : exception :=
  Exn Exception_ (u "No se pudo renderizar el documento: " ++ message).

(** A chart directive that the scan finds, in whatever case, on a line that
    does not hold [con datos:] as written. *)
Definition is_miscased_directive (ln : str) : bool :=
  (contains (lower (strip ln)) (u "gráfico de barras con datos:")
   || contains (lower (strip ln)) (u "gráfico de líneas con datos:"))
  && negb (contains (strip ln) (u "con datos:")).

(** The headings of the lines, each with its style and the index of its
    line counted from [i]. *)
Fixpoint headings_from (i : nat) (lines : list str) : list (str * style * nat) :=
  match lines with
  | [] => []
  | ln :: rest =>
    match raw_heading ln with
    | Some (title, st) => (title, st, i) :: headings_from (S i) rest
    | None => headings_from (S i) rest
    end
  end.

(** The link of the table of contents to the heading of line [i]. *)
Definition toc_line (h : str * style * nat) : flowable :=
  let '(title, _, i) := h in toc_link (title, 0, anchor i).

(** The two flowables of a heading: its anchor, then its paragraph. *)
Definition heading_flowables (h : str * style * nat) : list flowable :=
  let '(title, st, i) := h in [anchor_paragraph i; Paragraph title st].

(** A line on which the scan finds a chart directive. *)
Definition is_directive (ln : str) : bool :=
  contains (lower (strip ln)) (u "gráfico de barras con datos:")
  || contains (lower (strip ln)) (u "gráfico de líneas con datos:").

(** The last line with a directive. *)
Fixpoint last_directive (lines : list str) : option str :=
  match lines with
  | [] => None
  | ln :: rest =>
    match last_directive rest with
    | Some d => Some d
    | None => if is_directive ln then Some ln else None
    end
  end.

Definition is_chart (f : flowable) : bool :=
  match f with Image (ChartPng _) _ _ => true | _ => false end.

(** A stand-in for the plotting library: it writes one byte. *)
Definition one_byte_savefig : option chart_kind → list str → list pyfloat → exc (list N) :=
  λ _ _ _, Return [137%N].

(** A line the word-processing parser turns into a paragraph: not blank, not
    a table row. *)
Definition docx_visible (ln : str) : bool :=
  nonempty (strip ln) && negb (startswith (strip ln) [PIPE]).

(** The paragraph of such a line: a first or second level heading with a
    number in front and its own style, a third level heading, a bullet at
    the first level of indentation, or a plain paragraph with the stripped
    line; each with the text that is left once the marker is taken away and
    the rest stripped. *)
Definition paragraph_of (e : element) (ln : str) : Prop :=
  let ln := strip ln in
  if startswith ln (u "# ") then
    ∃ n, e = DocParagraph (plain (str_of_nat n ++ u ". " ++ strip (drop 2 ln)))
               CustomHeading1 None
  else if startswith ln (u "## ") then
    ∃ n m, e = DocParagraph (plain (str_of_nat n ++ u "." ++ str_of_nat m ++ u " "
                                    ++ strip (drop 3 ln)))
                 CustomHeading2 None
  else if startswith ln (u "### ") then
    e = DocParagraph (plain (strip (drop 4 ln))) CustomHeading3 None
  else if startswith ln (u "- ") || startswith ln (u "* ") then
    e = DocParagraph (plain (strip (drop 2 ln))) CustomList (Some 1)
  else e = DocParagraph (plain ln) CustomNormal None.

(** While the parser is in a list, the list is at its first level. *)
Definition first_level (σ : docx_state) : Prop :=
  Docx.in_list σ = true → Docx.list_level σ = 1.

(** The cells the flow-document parser keeps of a line: those of a table row
    all of whose cells, between the outer bars, hold something. *)
Definition pdf_row (ln : str) : option (list str) :=
  let ln := strip ln in
  if startswith ln [PIPE] then
    let cells := map strip (inner (split ln [PIPE])) in
    if nonempty cells && forallb nonempty cells then Some cells else None
  else None.

(** The rows of a flowable: those of a table, none otherwise. *)
Definition table_rows (f : flowable) : list (list str) :=
  match f with
  | Table data _ => data
  | _ => []
  end.

End MoreRender.

(* ===================================================================== *)
(** * Further statements: the prompt classifier *)
(* ===================================================================== *)

Module MoreValidator.
Import Re Validator.

(** The greetings of [is_conversational_prompt], read off its patterns: four
    words, and two phrases that may be followed by a question mark, with
    white space before it or not. *)
Definition plain_greetings : list str := [u "hola"; u "hey"; u "hi"; u "hello"].
Definition question_greetings : list str := [u "cómo estás"; u "qué tal"].

Definition is_greeting (q : str) : Prop :=
  In q plain_greetings
  ∨ ∃ kw ws, In kw question_greetings ∧ forallb isspace ws = true
             ∧ (q = kw ∨ q = kw ++ ws ++ [63%N]).

(** A string of Latin-1 characters, the range on which [lower] and the
    case-insensitive comparison of the matcher are those of Python. *)
Definition latin1 (s : str) : Prop := Forall (λ c, (c < 256)%N) s.

(** The flags of the classifier's [re.match]. *)
Definition ignorecase : flags := {| MULTILINE := false; IGNORECASE := true |}.

(** Neither end is white space. *)
Definition stripped (q : str) : Prop :=
  (∀ x r, q = x :: r → isspace x = false) ∧ (∀ x r, q = r ++ [x] → isspace x = false).

(** Every character is its own lower case. *)
Definition lowered (q : str) : Prop := Forall (λ x, lower_char x = x) q.

End MoreValidator.

(* ===================================================================== *)
(** * ia.py: the validation of a request; utils.py: the fields and the
      file name *)
(* ===================================================================== *)

Module Ia.
Import Config.

(** [html.escape(s)] with [quote=True]: the ampersand first, then the two
    angle brackets and the two quotes. *)
Definition escape_char (c : N) : str :=
  match c with
  | 38%N => u "&amp;"
  | 60%N => u "&lt;"
  | 62%N => u "&gt;"
  | 34%N => u "&quot;"
  | 39%N => u "&#x27;"
  | _ => [c]
  end.

Definition escape (s : str) : str := concat (map escape_char s).

(** [sanitize_fields]: the same keys, every value escaped. A field value is
    modelled by its [str()]. *)
Definition sanitize_fields (fields : list (str * str)) : list (str * str) :=
  map (λ '(key, value), (key, escape value)) fields.

(** config.py. The first three are sets in the source: only membership is
    read off them here; [VALID_TEMPLATES] holds the empty name. *)
Definition VALID_DOC_TYPES : list str :=
  [u "texto"; u "markdown"; u "pdf"; u "docx"; u "html"].
Definition VALID_TEMPLATES : list str :=
  [[]; u "carta_formal"; u "contrato"; u "informe"; u "factura"].
Definition VALID_LEVELS : list str := [u "basico"; u "medio"; u "profesional"].
Definition VALID_LANGUAGES : list str := [u "es"; u "en"; u "fr"; u "de"; u "it"].
Definition MAX_PROMPT_LENGTH : nat := 1500.
Definition MAX_FIELD_LENGTH : nat := 500.

Definition member (s : str) (set : list str) : bool := existsb (str_eqb s) set.

(** The JSON object of a request, as [validate_input] reads it: the value of
    each key, [None] for a key that is absent. *)
Record request := {
  data_prompt : option str;
  data_doc_type : option str;
  data_template : option str;
  data_fields : option (list (str * str));
  data_level : option str;
  data_language : option str;
  data_file_name : option str;
  data_logo_path : option str
}.

(** The tuple [validate_input] returns. *)
Record validated := {
  v_prompt : str;
  v_doc_type : str;
  v_template : str;
  v_fields : list (str * str);
  v_level : str;
  v_language : str;
  v_custom_file_name : str;
  v_logo_path : option str
}.

(** The loop over the fields: the first value over the limit raises. *)
Fixpoint check_fields (fields : list (str * str)) : exc unit :=
  match fields with
  | [] => Return tt
  | (key, value) :: rest =>
    if MAX_FIELD_LENGTH <? length value
    then Raise (Exn ValueError
                  (u "El campo " ++ key ++ u " excede el límite de "
                   ++ str_of_nat MAX_FIELD_LENGTH ++ u " caracteres."))
    else check_fields rest
  end.

(** [validate_input]. [joined set] is [", ".join(set)], whose order is that
    of the set's iteration. *)
Definition validate_input (joined : list str → str) (data : request) : exc validated :=
  let prompt := strip (default [] (data_prompt data)) in
  let doc_type := lower (default (u "texto") (data_doc_type data)) in
  let template := lower (default [] (data_template data)) in
  let fields := sanitize_fields (default [] (data_fields data)) in
  let level := lower (default (u "basico") (data_level data)) in
  let language := lower (default (u "es") (data_language data)) in
  let custom_file_name := strip (default [] (data_file_name data)) in
  let logo_path := data_logo_path data in
  if negb (nonempty prompt) then Raise (Exn ValueError (u "El prompt está vacío."))
  else if MAX_PROMPT_LENGTH <? length prompt then
    Raise (Exn ValueError (u "El prompt excede el límite de "
                           ++ str_of_nat MAX_PROMPT_LENGTH ++ u " caracteres."))
  else if negb (member doc_type VALID_DOC_TYPES) then
    Raise (Exn ValueError (u "Tipo de documento inválido: " ++ joined VALID_DOC_TYPES))
  else if nonempty template && negb (member template VALID_TEMPLATES) then
    Raise (Exn ValueError (u "Plantilla inválida: " ++ joined VALID_TEMPLATES))
  else if negb (member level VALID_LEVELS) then
    Raise (Exn ValueError (u "Nivel inválido: " ++ joined VALID_LEVELS))
  else if negb (member language VALID_LANGUAGES) then
    Raise (Exn ValueError (u "Idioma inválido: " ++ joined VALID_LANGUAGES))
  else
    (let! _ := check_fields fields in
     Return {| v_prompt := prompt; v_doc_type := doc_type; v_template := template;
               v_fields := fields; v_level := level; v_language := language;
               v_custom_file_name := custom_file_name; v_logo_path := logo_path |})%exc.

(** ** [generate_file_name] *)

(** [re.findall(r'\b\w+\b', s)]: the maximal runs of word characters.
    [isword] is the class [\w]; [cur] is the run being read, reversed. *)
Fixpoint findall_words (isword : N → bool) (s cur : str) : list str :=
  match s with
  | [] => match cur with [] => [] | _ => [rev cur] end
  | c :: s' =>
    if isword c then findall_words isword s' (c :: cur)
    else match cur with
         | [] => findall_words isword s' []
         | _ => rev cur :: findall_words isword s' []
         end
  end.

(** ['_'.join(words)] *)
Fixpoint join (sep : str) (words : list str) : str :=
  match words with
  | [] => []
  | [w] => w
  | w :: rest => w ++ sep ++ join sep rest
  end.

Definition base_name (isword : N → bool) (prompt : str) : str :=
  let words :=
    take 3 (filter (λ w, 3 < length w) (findall_words isword (lower prompt) [])) in
  match words with
  | [] => u "documento"
  | _ => join (u "_") words
  end.

(** [timestamp] is [datetime.now().strftime('%Y%m%d_%H%M%S')]. *)
Definition generate_file_name (isword : N → bool) (timestamp : str)
    (prompt template doc_type level : str) : str :=
  base_name isword prompt ++ u "_"
  ++ (if nonempty template then template else doc_type) ++ u "_"
  ++ level ++ u "_" ++ timestamp.

(** ** What the statements below speak of *)

(** The characters with which markup or an attribute value can be opened or
    closed. *)
Definition is_markup (c : N) : bool :=
  ((c =? 60) || (c =? 62) || (c =? 34) || (c =? 39))%N.

(** The word characters of ASCII. *)
Definition ascii_word (c : N) : bool :=
  ((48 <=? c) && (c <=? 57) || (65 <=? c) && (c <=? 90) || (97 <=? c) && (c <=? 122)
   || (c =? 95))%N.

(** A request with a prompt and one field, everything else left out. *)
Definition sample_request : request :=
  {| data_prompt := Some (u "  Redacta un contrato  ");
     data_doc_type := Some (u "PDF");
     data_template := None;
     data_fields := Some [(u "parte_a", u "<b>Ana</b> & Cía")];
     data_level := Some (u "Medio");
     data_language := None;
     data_file_name := None;
     data_logo_path := None |}.

Definition no_join : list str → str := λ _, [].

End Ia.

(* ===================================================================== *)
(** * document_generator.py: the preview of a word-processing document *)
(* ===================================================================== *)

Module Preview.
Import Utils Docx Ia.

(** [para.style.name] of the paragraphs [parse_markdown_for_docx] adds. *)
Definition style_name (st : docx_style) : str :=
  match st with
  | CustomHeading1 => u "CustomHeading1"
  | CustomHeading2 => u "CustomHeading2"
  | CustomHeading3 => u "CustomHeading3"
  | CustomNormal => u "CustomNormal"
  | CustomList => u "CustomList"
  end.

(** [para.text]: the texts of the runs, one after the other. *)
Definition para_text (runs : list run) : str := concat (map run_text runs).

(** One round of the loop over [doc.paragraphs]: the lines so far and the
    two counters. The paragraph of the logo holds a picture and no text; a
    table is not a paragraph. *)
Definition extract_paragraph (acc : list str * nat * nat) (e : element)
    : list str * nat * nat :=
  let '(text, section_number, subsection_number) := acc in
  match e with
  | DocParagraph runs st left_indent =>
    match strip (para_text runs) with
    | [] => acc
    | formatted_text =>
      let name := lower (style_name st) in
      if contains name (u "heading 1") then
        (text ++ [[NL; NL] ++ str_of_nat (S section_number) ++ u ". " ++ formatted_text
                  ++ [NL]],
         S section_number, 0)
      else if contains name (u "heading 2") then
        (text ++ [[NL] ++ str_of_nat section_number ++ u "."
                  ++ str_of_nat (S subsection_number) ++ u " " ++ formatted_text ++ [NL]],
         section_number, S subsection_number)
      else if contains name (u "heading 3") then
        (text ++ [formatted_text ++ [NL]], section_number, subsection_number)
      else if contains name (u "list bullet") || contains name (u "list number") then
        let indent := concat (replicate (default 0 left_indent) (u "  ")) in
        (text ++ [indent ++ u "- " ++ formatted_text], section_number, subsection_number)
      else (text ++ [formatted_text], section_number, subsection_number)
    end
  | DocPicture => acc
  | DocTable _ => acc
  end.

(** One round of the loop over [doc.tables]. *)
Definition extract_table (text : list str) (e : element) : list str :=
  match e with
  | DocTable rows =>
    foldl (λ text row,
             match filter (λ c, nonempty c = true) (map strip row) with
             | [] => text
             | row_text => text ++ [join (u " | ") row_text]
             end)
          (text ++ [[NL] ++ u "[Tabla]" ++ [NL]]) rows
    ++ [[NL]]
  | _ => text
  end.

Definition extract_docx_content (doc : list element) : str :=
  let '(text, _, _) := foldl extract_paragraph ([], 0, 0) doc in
  strip (join [NL] (foldl extract_table text doc)).

(** The stripped text of a paragraph, when something is left of it. *)
Definition shown (e : element) : option str :=
  match e with
  | DocParagraph runs _ _ =>
    match strip (para_text runs) with
    | [] => None
    | t => Some t
    end
  | _ => None
  end.

End Preview.

Import Re Validator Utils Docx Generator Render Spec.

(* ===================================================================== *)
(** * Properties *)
(* ===================================================================== *)

(** Literals to their code points, for the proofs that compute on them. *)
Ltac lits :=
  change (u "# ") with [35; 32]%N in *;
  change (u "## ") with [35; 35; 32]%N in *;
  change (u "### ") with [35; 35; 35; 32]%N in *;
  change (u "- ") with [45; 32]%N in *;
  change (u "* ") with [42; 32]%N in *;
  change (u "  - ") with [32; 32; 45; 32]%N in *;
  change (u "  * ") with [32; 32; 42; 32]%N in *;
  change (u "es") with [101; 115]%N in *.

(** ** The heading pattern of the validator *)

Lemma tailN_cons prev x s :
  tailN prev (x :: s) = newline x && tailN (Some x) s || tailA prev (x :: s).
Proof. reflexivity. Qed.

Lemma tailN_nil prev : tailN prev [] = tailA prev [].
Proof. reflexivity. Qed.

Lemma tailD_cons prev x s :
  tailD prev (x :: s) = dot x && tailD (Some x) s || tailN prev (x :: s).
Proof. reflexivity. Qed.

Lemma tailD_nil prev : tailD prev [] = tailN prev [].
Proof. reflexivity. Qed.

Lemma search_cons prev x s :
  search_from multiline heading_pattern prev (x :: s)
  = at_bol multiline prev && tailD prev (x :: s)
    || search_from multiline heading_pattern (Some x) s.
Proof. reflexivity. Qed.

Lemma search_nil prev :
  search_from multiline heading_pattern prev []
  = at_bol multiline prev && tailD prev [] || false.
Proof. reflexivity. Qed.

Lemma marker_anywhere_b_cons x s :
  marker_anywhere_b (x :: s) = marker_here (x :: s) || marker_anywhere_b s.
Proof. reflexivity. Qed.

Lemma marker_anywhere_b_tail x s :
  marker_anywhere_b s = true → marker_anywhere_b (x :: s) = true.
Proof. intros H. rewrite marker_anywhere_b_cons, H. apply orb_true_r. Qed.

Lemma if_true_true (b : bool) : (if b then true else true) = true.
Proof. by destruct b. Qed.

Lemma tailA_sound prev s : tailA prev s = true → marker_anywhere_b s = true.
Proof.
  unfold tailA, markers. lits.
  destruct s as [|x [|y [|z [|w [|v r]]]]]; cbn -[N.eqb dot]; unfold HASH, SP;
    try done;
    repeat match goal with |- context [(?a =? ?b)%N] => destruct (a =? b)%N end;
    cbn -[N.eqb dot];
    repeat match goal with |- context [dot ?a] => destruct (dot a) end; cbn; try done.
Qed.

Lemma tailA_complete prev s : marker_here s = true → tailA prev s = true.
Proof.
  unfold tailA, markers. lits.
  destruct s as [|x [|y [|z r]]]; cbn -[N.eqb]; try done.
  unfold HASH, SP.
  destruct (x =? 35)%N, (y =? 32)%N, (dot z); cbn -[N.eqb]; try done.
  intros _. destruct r as [|c r]; cbn; try done. unfold accept.
  by rewrite if_true_true.
Qed.

Lemma tailN_sound s : ∀ prev, tailN prev s = true → marker_anywhere_b s = true.
Proof.
  induction s as [|x s IH]; intros prev.
  - rewrite tailN_nil. apply tailA_sound.
  - rewrite tailN_cons. intros [[_ H]%andb_true_iff | H]%orb_true_iff.
    + apply marker_anywhere_b_tail, (IH _ H).
    + by apply tailA_sound in H.
Qed.

Lemma tailD_sound s : ∀ prev, tailD prev s = true → marker_anywhere_b s = true.
Proof.
  induction s as [|x s IH]; intros prev.
  - rewrite tailD_nil. apply tailN_sound.
  - rewrite tailD_cons. intros [[_ H]%andb_true_iff | H]%orb_true_iff.
    + apply marker_anywhere_b_tail, (IH _ H).
    + by apply tailN_sound in H.
Qed.

Lemma search_sound s :
  ∀ prev, search_from multiline heading_pattern prev s = true →
    marker_anywhere_b s = true.
Proof.
  induction s as [|x s IH]; intros prev.
  - rewrite search_nil, orb_false_r. intros [_ H]%andb_true_iff.
    by apply tailD_sound in H.
  - rewrite search_cons. intros [[_ H]%andb_true_iff | H]%orb_true_iff.
    + by apply tailD_sound in H.
    + apply marker_anywhere_b_tail, (IH _ H).
Qed.

Lemma tailD_of_marker prev s : marker_here s = true → tailD prev s = true.
Proof.
  intros H. destruct s as [|x s]; [done|].
  rewrite tailD_cons, tailN_cons, (tailA_complete _ _ H). by rewrite !orb_true_r.
Qed.

(** A marker further on is found either from here, the dots of [.*] leading
    up to it, or from the start of a later line. *)
Lemma search_complete s :
  ∀ prev, marker_anywhere_b s = true →
    (∀ p, tailD p s = true) ∨ search_from multiline heading_pattern prev s = true.
Proof.
  induction s as [|x s IH]; intros prev; [done|].
  rewrite marker_anywhere_b_cons. intros [H | H]%orb_true_iff.
  - left. intros p. by apply tailD_of_marker.
  - destruct (IH (Some x) H) as [HD | HS].
    + destruct (dot x) eqn:Hx.
      * left. intros p. by rewrite tailD_cons, Hx, HD.
      * right. rewrite search_cons.
        assert (at_bol multiline (Some x) = true) as Hb.
        { unfold dot in Hx. apply negb_false_iff in Hx. cbn. exact Hx. }
        destruct s as [|y s].
        -- rewrite search_nil, Hb, HD. apply orb_true_r.
        -- rewrite search_cons, Hb, HD. apply orb_true_r.
    + right. rewrite search_cons, HS. apply orb_true_r.
Qed.

Lemma has_heading_marker text : has_heading text = marker_anywhere_b text.
Proof.
  apply eq_true_iff_eq. split.
  - apply search_sound.
  - intros H. destruct (search_complete text None H) as [HD | HS]; [|exact HS].
    unfold has_heading, re_search. destruct text as [|x s].
    + by rewrite search_nil, HD.
    + by rewrite search_cons, HD.
Qed.

Lemma marker_anywhere_b_spec text : marker_anywhere_b text = true ↔ marker_anywhere text.
Proof.
  unfold marker_anywhere. lits. split.
  - induction text as [|x s IH]; [done|].
    rewrite marker_anywhere_b_cons. intros [H | H]%orb_true_iff.
    + destruct s as [|y [|z r]]; try done. cbn in H.
      apply andb_true_iff in H as [[Hx Hy]%andb_true_iff Hz].
      apply N.eqb_eq in Hx, Hy. subst. exists [], z, r. split; [done|].
      unfold dot in Hz. by apply negb_true_iff, N.eqb_neq in Hz.
    + destruct (IH H) as (pre & c & post & -> & Hc). by exists (x :: pre), c, post.
  - intros (pre & c & post & -> & Hc). induction pre as [|x pre IH].
    + cbn. unfold dot. apply N.eqb_neq in Hc. by rewrite Hc.
    + by apply marker_anywhere_b_tail.
Qed.

(** ** The content validator (C3) *)

Example conversational_greeting : is_conversational_prompt (u "  Hola ") = true.
Proof. reflexivity. Qed.

Example conversational_question : is_conversational_prompt (u "Cómo Estás ?") = true.
Proof. reflexivity. Qed.

Example not_conversational : is_conversational_prompt (u "hola mundo") = false.
Proof. reflexivity. Qed.

(** C3, as stated, fails: a medium-level text of 100 words in which no line
    begins with a marker, but with a hash and a space inside its one line,
    is invalid by the claim's third condition and valid for the validator. *)
Lemma validator_inline_marker_counterexample :
  word_count inline_hash_text = 100
  ∧ existsb line_begins_with_marker (split inline_hash_text [NL]) = false
  ∧ claimed_invalid inline_hash_text medio false = true
  ∧ validate_generated_text inline_hash_text medio false = (true, msg_valid).
Proof. vm_compute. done. Qed.

(** C3, amended: the validator returns invalid exactly when the word count
    exceeds the ceiling of the level, or it is below 50 and the flag is not
    conversational, or the level is medium or professional, the flag is not
    conversational and the text nowhere holds a hash, a space and a further
    character other than a newline. A 40-word text at the basic level is too
    short when not conversational and valid when conversational. *)
Theorem validate_generated_text_invalid_iff (text : str) (l : level) (conv : bool) :
  (fst (validate_generated_text text l conv) = false ↔
     max_words l < word_count text
     ∨ (word_count text < 50 ∧ conv = false)
     ∨ (l ≠ basico ∧ conv = false ∧ ¬ marker_anywhere text))
  ∧ (word_count text = 40 →
       validate_generated_text text basico false = (false, msg_too_short)
       ∧ validate_generated_text text basico true = (true, msg_valid)).
Proof.
  split.
  - unfold validate_generated_text.
    rewrite has_heading_marker.
    destruct (Nat.ltb_spec (max_words l) (word_count text)) as [Hmax | Hmax];
    destruct (Nat.ltb_spec (word_count text) 50) as [Hmin | Hmin];
    destruct conv, l; destruct (marker_anywhere_b text) eqn:Hm;
    cbn [fst andb negb];
    (split;
     [ intros ?;
       first [ done
             | left; lia
             | right; left; split; [lia | done]
             | right; right; split_and!;
               [done | done | intros ?%marker_anywhere_b_spec; congruence] ]
     | intros [? | [[? ?] | (? & ? & Hn)]];
       first [ done | lia | exfalso; apply Hn, marker_anywhere_b_spec; done ] ]).
  - intros H. unfold validate_generated_text. rewrite H. done.
Qed.

Lemma validate_generated_text_invalid_iff_witness :
  word_count forty_words = 40
  ∧ validate_generated_text forty_words basico false = (false, msg_too_short)
  ∧ validate_generated_text forty_words basico true = (true, msg_valid).
Proof.
  split; [vm_compute; reflexivity|].
  apply (validate_generated_text_invalid_iff forty_words basico false).
  vm_compute; reflexivity.
Defined.

(** ** Translation (C9) *)

Lemma str_eqb_eq (a b : str) : str_eqb a b = true ↔ a = b.
Proof. unfold str_eqb. apply bool_decide_eq_true. Qed.

Lemma translate_text_returns
    (translator : str → str → exc (option str)) (text target_lang : str) :
  ∃ s, translate_text translator text target_lang = Return s.
Proof.
  unfold translate_text. destruct (str_eqb _ _); [by eexists|].
  destruct (translator text target_lang) as [[[|c t]|]|e]; by eexists.
Qed.

(** C9: [translate_text] always returns. It returns the input itself when the
    target language is the source language, and also when the translation
    call raises or yields [None] or the empty string; so a non-empty input
    never gives an empty result. *)
Theorem translate_text_never_raises
    (translator : str → str → exc (option str)) (text target_lang : str) :
  ∃ s, translate_text translator text target_lang = Return s
     ∧ (target_lang = u "es" → s = text)
     ∧ (translation_failed (translator text target_lang) → s = text)
     ∧ (text ≠ [] → s ≠ []).
Proof.
  unfold translate_text.
  destruct (str_eqb target_lang (u "es")) eqn:He.
  - exists text. by split_and!.
  - assert (target_lang ≠ u "es") as Hne.
    { intros ?%str_eqb_eq. congruence. }
    destruct (translator text target_lang) as [[[|c t]|]|e]; cbn.
    + exists text. by split_and!.
    + exists (c :: t). split_and!; done.
    + exists text. by split_and!.
    + exists text. by split_and!.
Qed.

Lemma translate_text_never_raises_witness :
  ∃ s, translate_text (λ _ _, Raise (Exn OtherError [])) (u "Índice") (u "en") = Return s
     ∧ s = u "Índice" ∧ s ≠ [].
Proof.
  destruct (translate_text_never_raises (λ _ _, Raise (Exn OtherError [])) (u "Índice") (u "en"))
    as (s & Hs & _ & Hfail & Hne).
  exists s. split; [exact Hs|]. split; [apply Hfail; exact I | apply Hne; vm_compute; discriminate].
Defined.

(** ** strip *)

Lemma lstrip_snoc s a : isspace a = false → lstrip (s ++ [a]) = lstrip s ++ [a].
Proof.
  intros Ha. induction s as [|c s IH]; cbn.
  - by rewrite Ha.
  - destruct (isspace c); [exact IH | done].
Qed.

Lemma lstrip_head s : match lstrip s with c :: _ => isspace c = false | [] => True end.
Proof.
  induction s as [|c s IH]; cbn; [done|].
  destruct (isspace c) eqn:Hc; [exact IH | exact Hc].
Qed.

Lemma strip_head s : match strip s with c :: _ => isspace c = false | [] => True end.
Proof.
  unfold strip, rstrip. pose proof (lstrip_head s) as H.
  destruct (lstrip s) as [|a t]; [done|].
  cbn [rev]. rewrite (lstrip_snoc _ _ H), rev_app_distr. exact H.
Qed.

Lemma strip_no_leading_space s p : startswith (strip s) (SP :: p) = false.
Proof.
  pose proof (strip_head s) as H. destruct (strip s) as [|c r]; [done|].
  cbn. destruct (N.eqb_spec c SP) as [->|]; [done | done].
Qed.

Lemma strip_indented ln : strip ([SP; SP] ++ ln) = strip ln.
Proof. reflexivity. Qed.

(** ** The flow-document parser *)

Lemma pdf_headings_app a b : pdf_headings (a ++ b) = pdf_headings a ++ pdf_headings b.
Proof. apply omap_app. Qed.

Lemma pdf_line_headings i ln σ :
  pdf_headings (story (pdf_line i ln σ))
  = pdf_headings (story σ) ++ option_list (raw_heading ln).
Proof.
  unfold pdf_line, raw_heading, pdf_heading. lits.
  destruct (strip ln) as [|c r] eqn:Hs.
  { cbn [story startswith]. by rewrite pdf_headings_app. }
  repeat match goal with
         | |- context [if ?b then _ else _] => destruct b; cbn [story]
         end;
  rewrite ?pdf_headings_app; try reflexivity.
  - symmetry. apply app_nil_r.
  - destruct (Utils.table_data σ); rewrite ?pdf_headings_app; cbn; by rewrite ?app_nil_r.
  - destruct (Utils.table_data σ); rewrite ?pdf_headings_app; cbn; by rewrite ?app_nil_r.
Qed.

Lemma pdf_lines_headings lines : ∀ i σ,
  pdf_headings (story (pdf_lines i lines σ))
  = pdf_headings (story σ) ++ raw_headings lines.
Proof.
  induction lines as [|ln rest IH]; intros i σ; cbn [pdf_lines].
  - symmetry. apply app_nil_r.
  - rewrite IH, pdf_line_headings, <- app_assoc. f_equal.
    unfold raw_headings. cbn [omap list_omap]. by destruct (raw_heading ln).
Qed.

Lemma pdf_body_headings lines story0 :
  pdf_headings (story (pdf_body lines story0)) = pdf_headings story0 ++ raw_headings lines.
Proof.
  unfold pdf_body.
  pose proof (pdf_lines_headings lines 0
    {| story := story0; toc := []; Utils.in_list := false; Utils.list_level := 0;
       Utils.table_data := [] |}) as H.
  cbn [story] in H. rewrite <- H.
  destruct (Utils.table_data _); cbn [story]; [done|].
  rewrite pdf_headings_app. cbn. by rewrite app_nil_r.
Qed.

(** The table of contents goes in front: the title, the links (the last
    heading first, each link being inserted at index 1), a spacer. *)
Lemma insert_links (toc : list (str * nat * str)) : ∀ x rest,
  foldl (λ st entry, insert_at 1 (toc_link entry) st) (x :: rest) toc
  = x :: rev (map toc_link toc) ++ rest.
Proof.
  induction toc as [|e toc IH]; intros x rest; cbn [foldl]; [done|].
  unfold insert_at at 2. cbn [take drop app]. rewrite IH. cbn [map rev].
  by rewrite <- app_assoc.
Qed.

Lemma insert_after_links {A} (x y : A) (links rest : list A) n :
  n = length links →
  insert_at (n + 1) y (x :: links ++ rest) = x :: links ++ y :: rest.
Proof.
  intros ->. unfold insert_at. rewrite Nat.add_1_r. cbn [take drop].
  by rewrite take_app_length, drop_app_length.
Qed.

Lemma parse_markdown_for_pdf_shape translator savefig text language has_logo st :
  parse_markdown_for_pdf translator savefig text language has_logo = Return st →
  ∃ title chart,
    let σ := pdf_body (split text [NL])
               (if has_logo then [Image Logo 100 50; Spacer 1 20] else []) in
    st = Paragraph title Heading1 :: rev (map toc_link (toc σ))
         ++ Spacer 1 20 :: story σ ++ chart
    ∧ pdf_headings chart = [].
Proof.
  unfold parse_markdown_for_pdf.
  destruct (detect_charts _ _) as [chart|e]; cbn [exc_bind]; [|done].
  destruct (translate_text_returns translator (u "Índice") language) as (title & ->).
  cbn [exc_bind]. intros [= <-].
  set (σ := pdf_body _ _).
  set (story1 := match chart_data chart with Some _ => _ | None => _ end).
  assert (∃ ch, story1 = story σ ++ ch ∧ pdf_headings ch = []) as (ch & -> & Hch).
  { subst story1. destruct (chart_data chart) as [[|p d]|].
    - exists []. by rewrite app_nil_r.
    - destruct (generate_chart _ _ _); [exists []; by rewrite app_nil_r|].
      by eexists.
    - exists []. by rewrite app_nil_r. }
  exists title, ch. split; [|done].
  change (insert_at 0 (Paragraph title Heading1) (story σ ++ ch))
    with (Paragraph title Heading1 :: (story σ ++ ch)).
  rewrite insert_links.
  apply insert_after_links. by rewrite length_rev, length_map.
Qed.

Lemma pdf_headings_links (toc : list (str * nat * str)) :
  pdf_headings (rev (map toc_link toc)) = [].
Proof.
  induction toc as [|[[t p] a] toc IH]; [done|].
  cbn [map rev]. by rewrite pdf_headings_app, IH.
Qed.

Lemma parse_markdown_for_pdf_headings translator savefig text language has_logo st :
  parse_markdown_for_pdf translator savefig text language has_logo = Return st →
  ∃ title, pdf_headings st = (title, Heading1) :: raw_headings (split text [NL]).
Proof.
  intros (title & chart & -> & Hch)%parse_markdown_for_pdf_shape.
  exists title. change (Paragraph title Heading1 :: ?l) with ([Paragraph title Heading1] ++ l).
  rewrite !pdf_headings_app, pdf_headings_links.
  change (Spacer 1 20 :: ?l) with ([Spacer 1 20] ++ l).
  rewrite !pdf_headings_app, Hch, pdf_body_headings, app_nil_r.
  by destruct has_logo.
Qed.

(** ** The word-processing parser *)

Lemma docx_headings_app a b : docx_headings (a ++ b) = docx_headings a ++ docx_headings b.
Proof. apply omap_app. Qed.

Lemma paragraph_text_plain t : paragraph_text (plain t) = t.
Proof. destruct t; [done|]. unfold paragraph_text. cbn. by rewrite app_nil_r. Qed.

Lemma _add_table_to_docx_headings d data d' :
  _add_table_to_docx d data = Return d' → docx_headings d' = docx_headings d.
Proof.
  intros H. destruct data as [|[|c cs] rows];
    [injection H as <-; done | injection H as <- | discriminate H].
  rewrite docx_headings_app. cbn. by rewrite app_nil_r.
Qed.

Lemma flush_table_frame σ σ' :
  flush_table σ = Return σ' →
  docx_headings (doc σ') = docx_headings (doc σ)
  ∧ section_number σ' = section_number σ
  ∧ subsection_number σ' = subsection_number σ.
Proof.
  unfold flush_table. destruct (in_table σ); [|by intros [= <-]].
  destruct (table_data σ) as [|row rows]; [by intros [= <-]|].
  destruct (_add_table_to_docx _ _) as [d'|e] eqn:Hd; cbn; [|done].
  intros [= <-]. cbn. split; [|done]. by eapply _add_table_to_docx_headings.
Qed.

(** One line: the headings grow by what the numbering says for that line,
    and the counters move as it says. *)
Lemma docx_line_headings ln σ σ' :
  docx_line ln σ = Return σ' →
  ∀ rest,
    docx_headings (doc σ') ++ numbered_headings (section_number σ') (subsection_number σ') rest
    = docx_headings (doc σ)
      ++ numbered_headings (section_number σ) (subsection_number σ) (ln :: rest).
Proof.
  unfold docx_line. cbn [numbered_headings]. lits.
  destruct (strip ln) as [|c r] eqn:Hs.
  { cbn [startswith]. intros (-> & -> & ->)%flush_table_frame. done. }
  destruct (startswith (c :: r) [35; 32]%N) eqn:H1.
  { intros [= <-] rest. cbn [doc section_number subsection_number].
    rewrite docx_headings_app, <- app_assoc. f_equal. cbn.
    by rewrite paragraph_text_plain. }
  destruct (startswith (c :: r) [35; 35; 32]%N) eqn:H2.
  { intros [= <-] rest. cbn [doc section_number subsection_number].
    rewrite docx_headings_app, <- app_assoc. f_equal. cbn.
    by rewrite paragraph_text_plain. }
  destruct (startswith (c :: r) [35; 35; 35; 32]%N).
  { intros [= <-] rest. cbn [doc section_number subsection_number].
    rewrite docx_headings_app. cbn. by rewrite app_nil_r. }
  destruct (_ || _).
  { intros [= <-] rest. cbn [doc section_number subsection_number].
    rewrite docx_headings_app. cbn. by rewrite app_nil_r. }
  destruct (_ || _).
  { intros [= <-] rest. cbn [doc section_number subsection_number].
    rewrite docx_headings_app. cbn. by rewrite app_nil_r. }
  destruct (startswith (c :: r) [PIPE]).
  { by intros [= <-] rest. }
  destruct (flush_table _) as [σ2|e] eqn:Hf; cbn [exc_bind]; [|done].
  apply flush_table_frame in Hf as (Hd & Hn & Hm). cbn in Hd, Hn, Hm.
  intros [= <-] rest. cbn [doc section_number subsection_number].
  rewrite docx_headings_app, Hd, Hn, Hm. cbn. by rewrite app_nil_r.
Qed.

Lemma docx_lines_headings lines : ∀ σ σ',
  docx_lines lines σ = Return σ' →
  docx_headings (doc σ')
  = docx_headings (doc σ)
    ++ numbered_headings (section_number σ) (subsection_number σ) lines.
Proof.
  induction lines as [|ln rest IH]; intros σ σ'; cbn [docx_lines].
  - intros [= <-]. cbn. by rewrite app_nil_r.
  - destruct (docx_line ln σ) as [σ1|e] eqn:H1; cbn [exc_bind]; [|done].
    intros H. rewrite (IH _ _ H). by apply docx_line_headings.
Qed.

Lemma parse_markdown_for_docx_headings text has_logo d :
  parse_markdown_for_docx text has_logo = Return d →
  docx_headings d = numbered_headings 0 0 (split text [NL]).
Proof.
  unfold parse_markdown_for_docx.
  destruct (docx_lines _ _) as [σ|e] eqn:Hl; cbn [exc_bind]; [|done].
  destruct (flush_table σ) as [σ'|e] eqn:Hf; cbn [exc_bind]; [|done].
  intros [= <-]. apply flush_table_frame in Hf as (-> & _).
  rewrite (docx_lines_headings _ _ _ Hl). cbn. by destruct has_logo.
Qed.

(** ** Heading numbering (C1) *)

(** C1, as stated, fails for the flow-document backend: on the five heading
    lines of the example (a paragraph and a bullet in between) its story
    holds the headings without any number, and none of the five numbered
    texts. *)
Lemma pdf_headings_unnumbered_counterexample :
  ∃ st, parse_markdown_for_pdf no_translator no_savefig numbering_example (u "es") false
        = Return st
      ∧ pdf_headings st
        = [(u "Índice", Heading1); (u "A", Heading1); (u "B", Heading2);
           (u "C", Heading2); (u "D", Heading1); (u "E", Heading2)]
      ∧ forallb (λ t, negb (bool_decide (t ∈ paragraph_texts st))) claimed_numbering = true.
Proof.
  eexists. split; [vm_compute; reflexivity|]. split; vm_compute; reflexivity.
Qed.

(** C1, amended: whenever the word-processing parser returns a document
    (it raises on every text with a table row that holds a cell), that
    document numbers the headings as the claim says: a top-level heading
    increments the section counter and resets the subsection counter, a
    second-level heading increments the subsection counter, the texts carry
    the two prefixes, the counters persist across the other lines. This is
    for a text without a carriage return, which the library would store as a
    line break inside the heading. Whenever the flow-document parser
    returns, its story holds every heading with its marker dropped and no
    number. On the example the former yields 1. A, 1.1 B, 1.2 C, 2. D,
    2.1 E. *)
Theorem heading_numbering (text : str) (has_logo : bool) :
  (Forall (λ c, c ≠ 13%N) text →
   ∀ d, parse_markdown_for_docx text has_logo = Return d →
        docx_headings d = numbered_headings 0 0 (split text [NL]))
  ∧ (∀ translator savefig language st,
       parse_markdown_for_pdf translator savefig text language has_logo = Return st →
       ∃ title, pdf_headings st = (title, Heading1) :: raw_headings (split text [NL]))
  ∧ (∃ d, parse_markdown_for_docx numbering_example has_logo = Return d
        ∧ docx_headings d
          = [(u "1. A", CustomHeading1); (u "1.1 B", CustomHeading2);
             (u "1.2 C", CustomHeading2); (u "2. D", CustomHeading1);
             (u "2.1 E", CustomHeading2)]).
Proof.
  split_and!.
  - intros _. apply parse_markdown_for_docx_headings.
  - intros translator savefig language st. apply parse_markdown_for_pdf_headings.
  - destruct has_logo; eexists; (split; [vm_compute; reflexivity | vm_compute; reflexivity]).
Qed.

Lemma heading_numbering_witness :
  ∃ d, parse_markdown_for_docx numbering_example false = Return d
     ∧ docx_headings d = numbered_headings 0 0 (split numbering_example [NL])
     ∧ ∃ st title,
         parse_markdown_for_pdf no_translator no_savefig numbering_example (u "es") false
         = Return st
         ∧ pdf_headings st = (title, Heading1) :: raw_headings (split numbering_example [NL]).
Proof.
  destruct (heading_numbering numbering_example false) as (Hd & Hpdf & _).
  eexists. split; [vm_compute; reflexivity|]. split.
  - apply Hd; [|vm_compute; reflexivity].
    apply Forall_forall. intros c Hc. apply list_elem_of_In in Hc. vm_compute in Hc.
    intros ->. repeat (destruct Hc as [Hc|Hc]; [discriminate Hc|]). destruct Hc.
  - eexists.
    destruct (Hpdf no_translator no_savefig (u "es") _ ltac:(vm_compute; reflexivity))
      as [title Ht].
    exists title. split; [vm_compute; reflexivity | exact Ht].
Defined.

(** ** Blank lines and pending tables (C5) *)

(** The flow-document parser on a blank line: a spacer, and the rows stay
    where they are. *)
Lemma pdf_blank_line_keeps_table i ln σ :
  strip ln = [] →
  pdf_line i ln σ
  = {| story := story σ ++ [Spacer 1 12]; toc := toc σ; Utils.in_list := Utils.in_list σ;
       Utils.list_level := Utils.list_level σ; Utils.table_data := Utils.table_data σ |}.
Proof. intros H. unfold pdf_line. by rewrite H. Qed.

(** The word-processing parser cannot flush a table that has a cell. *)
Lemma flush_table_raises σ c cs rows :
  in_table σ = true → table_data σ = (c :: cs) :: rows → raises (flush_table σ) = true.
Proof. intros Hin Hd. unfold flush_table. by rewrite Hin, Hd. Qed.

Lemma docx_blank_line_raises ln σ c cs rows :
  strip ln = [] → in_table σ = true → table_data σ = (c :: cs) :: rows →
  raises (docx_line ln σ) = true.
Proof.
  intros Hs Hin Hd. unfold docx_line. rewrite Hs. by eapply flush_table_raises.
Qed.

(** C5: on a blank line the flow-document backend appends a spacer and keeps
    the rows it has accumulated. At the text of a one-row table, a blank line
    and a paragraph it emits the spacer of the blank line before the
    table, which it flushes only at the paragraph; the word-processing
    backend raises at the flush, and so does [render]. *)
Theorem blank_line_does_not_flush_table :
  (∀ i σ, story (pdf_line i [] σ) = story σ ++ [Spacer 1 12]
          ∧ Utils.table_data (pdf_line i [] σ) = Utils.table_data σ)
  ∧ parse_markdown_for_pdf no_translator no_savefig
    (u "|a|b|" ++ [NL] ++ [NL] ++ u "foo") (u "es") false
  = Return [Paragraph (u "Índice") Heading1; Spacer 1 20;
            Spacer 1 12;
            Table [[u "a"; u "b"]] [100; 100]%N;
            Paragraph (u "foo") BodyText]
  ∧ raises (parse_markdown_for_docx (u "|a|b|" ++ [NL] ++ [NL] ++ u "foo") false) = true
  ∧ render no_markdown no_page no_translator no_savefig
      (u "|a|b|" ++ [NL] ++ [NL] ++ u "foo") (u "docx") (u "es") (u "tabla") false
    = Raise (Exn Exception_
               (u "No se pudo renderizar el documento: 'CT_TcPr' object has no attribute 'cloneNode'")).
Proof.
  split_and!; [|vm_compute; reflexivity ..].
  intros i σ. by rewrite (pdf_blank_line_keeps_table i [] σ eq_refl).
Qed.

(** ** Indented bullets (C6) *)

(** The test for the indented marker comes after [strip], which has taken
    the indentation away: that branch is dead in both parsers. *)
Lemma indented_marker_never_matches ln :
  startswith (strip ln) (u "  - ") = false ∧ startswith (strip ln) (u "  * ") = false.
Proof. lits. split; apply strip_no_leading_space. Qed.

Lemma pdf_line_indented i ln σ : pdf_line i ([SP; SP] ++ ln) σ = pdf_line i ln σ.
Proof. unfold pdf_line. by rewrite strip_indented. Qed.

Lemma docx_line_indented ln σ : docx_line ([SP; SP] ++ ln) σ = docx_line ln σ.
Proof. unfold docx_line. by rewrite strip_indented. Qed.

(** C6: two leading spaces change nothing in either parser, whatever the
    line. At the two lines [  - item] and [- item] each parser emits for the
    indented one exactly what it emits for the other, a first-level item. *)
Theorem indented_bullet_is_first_level :
  (∀ i ln σ, pdf_line i ([SP; SP] ++ ln) σ = pdf_line i ln σ)
  ∧ (∀ ln σ, docx_line ([SP; SP] ++ ln) σ = docx_line ln σ)
  ∧ parse_markdown_for_pdf no_translator no_savefig (u "  - item") (u "es") false
  = parse_markdown_for_pdf no_translator no_savefig (u "- item") (u "es") false
  ∧ parse_markdown_for_pdf no_translator no_savefig (u "  - item") (u "es") false
    = Return [Paragraph (u "Índice") Heading1; Spacer 1 20;
              Paragraph (u "• item") BodyText]
  ∧ parse_markdown_for_docx (u "  - item") false = parse_markdown_for_docx (u "- item") false
  ∧ parse_markdown_for_docx (u "  - item") false
    = Return [DocParagraph [{| run_text := u "item"; bold := false; italic := false |}]
                CustomList (Some 1)].
Proof.
  split_and!; [apply pdf_line_indented | apply docx_line_indented
              | vm_compute; reflexivity ..].
Qed.

(** ** Paragraph lines (C7) *)

Lemma forallb_unstyled_app a b :
  forallb unstyled (a ++ b) = forallb unstyled a && forallb unstyled b.
Proof. apply forallb_app. Qed.

Lemma unstyled_add_paragraph t st : unstyled (add_paragraph t st) = true.
Proof. by destruct t. Qed.

Lemma flush_table_unstyled σ σ' :
  flush_table σ = Return σ' → forallb unstyled (doc σ) = true →
  forallb unstyled (doc σ') = true.
Proof.
  unfold flush_table. destruct (in_table σ); [|by intros [= <-]].
  destruct (table_data σ) as [|[|c cs] rows]; [by intros [= <-] | | discriminate].
  cbn [_add_table_to_docx exc_bind]. intros [= <-] Hd. cbn [doc].
  rewrite forallb_unstyled_app, Hd. reflexivity.
Qed.

(** Whatever the line, the word-processing parser adds no run that is bold
    or italic, and never two runs to a paragraph. *)
Lemma docx_line_unstyled ln σ σ' :
  docx_line ln σ = Return σ' → forallb unstyled (doc σ) = true →
  forallb unstyled (doc σ') = true.
Proof.
  unfold docx_line. destruct (strip ln) as [|c r]; [apply flush_table_unstyled|].
  assert (∀ t st indent,
            forallb unstyled (doc σ) = true →
            forallb unstyled (doc σ ++ [DocParagraph (plain t) st indent]) = true)
    as Hadd.
  { intros t st indent Hd. rewrite forallb_unstyled_app, Hd. by destruct t. }
  destruct (startswith (c :: r) (u "# ")); [intros [= <-]; apply Hadd|].
  destruct (startswith (c :: r) (u "## ")); [intros [= <-]; apply Hadd|].
  destruct (startswith (c :: r) (u "### ")); [intros [= <-]; apply Hadd|].
  destruct (_ || _); [intros [= <-]; apply Hadd|].
  destruct (_ || _); [intros [= <-]; apply Hadd|].
  destruct (startswith (c :: r) [PIPE]); [by intros [= <-]|].
  destruct (flush_table _) as [σ2|e] eqn:Hf; cbn [exc_bind]; [|discriminate].
  intros [= <-] Hd. cbn [doc].
  apply flush_table_unstyled in Hf; [|exact Hd].
  rewrite forallb_unstyled_app, Hf. apply andb_true_r.
Qed.

Lemma docx_lines_unstyled lines : ∀ σ σ',
  docx_lines lines σ = Return σ' → forallb unstyled (doc σ) = true →
  forallb unstyled (doc σ') = true.
Proof.
  induction lines as [|ln rest IH]; intros σ σ'; cbn [docx_lines].
  - by intros [= <-].
  - destruct (docx_line ln σ) as [σ1|e] eqn:H1; cbn [exc_bind]; [|discriminate].
    intros H Hd. apply (IH _ _ H). by eapply docx_line_unstyled.
Qed.

(** C7: the word-processing backend that [render] calls does not split a
    paragraph line on its emphasis. At the line
    [Esto es **importante** y *urgente*.] the parser, and [render] for the
    type [docx], give one CustomNormal paragraph with a single plain run
    that holds the line, markers and all, where the splitter that utils.py
    has for that very purpose (and that nothing calls) gives five runs, the
    second bold and the fourth italic. It is so for every text: no document
    the parser returns holds a bold or an italic run, or a paragraph of two
    runs. The flow-document backend does at this line what the claim says:
    one BodyText paragraph with the line as it is. *)
Theorem paragraph_line_emphasis_not_split :
  parse_markdown_for_docx emphasis_example false
  = Return [DocParagraph
              [{| run_text := u "Esto es **importante** y *urgente*.";
                  bold := false; italic := false |}]
              CustomNormal None]
  ∧ render no_markdown no_page no_translator no_savefig
      emphasis_example (u "docx") (u "es") (u "nota") false
    = Return (RDocx [DocParagraph
                       [{| run_text := u "Esto es **importante** y *urgente*.";
                           bold := false; italic := false |}]
                       CustomNormal None])
  ∧ inline_runs emphasis_example
    = [{| run_text := u "Esto es "; bold := false; italic := false |};
       {| run_text := u "importante"; bold := true; italic := false |};
       {| run_text := u " y "; bold := false; italic := false |};
       {| run_text := u "urgente"; bold := false; italic := true |};
       {| run_text := u "."; bold := false; italic := false |}]
  ∧ (∀ text has_logo,
       match parse_markdown_for_docx text has_logo with
       | Return d => forallb unstyled d = true
       | Raise _ => True
       end)
  ∧ parse_markdown_for_pdf no_translator no_savefig emphasis_example (u "es") false
    = Return [Paragraph (u "Índice") Heading1; Spacer 1 20;
              Paragraph (u "Esto es **importante** y *urgente*.") BodyText].
Proof.
  split_and!; [vm_compute; reflexivity | vm_compute; reflexivity | vm_compute; reflexivity
              | | vm_compute; reflexivity].
  intros text has_logo. unfold parse_markdown_for_docx.
  destruct (docx_lines _ _) as [σ|e] eqn:Hl; cbn [exc_bind]; [|done].
  destruct (flush_table σ) as [σ'|e] eqn:Hf; cbn [exc_bind]; [|done].
  apply (flush_table_unstyled _ _ Hf).
  apply (docx_lines_unstyled _ _ _ Hl). cbn [doc]. by destruct has_logo.
Qed.

(** ** The chart pre-pass (C8) *)

Lemma split_go_nonempty sep s : ∀ skip cur, split_go sep s skip cur ≠ [].
Proof.
  induction s as [|c s IH]; intros skip cur; cbn [split_go]; [done|].
  destruct skip; [|apply IH]. destruct (startswith _ _); [done | apply IH].
Qed.

(** A second piece exists exactly when the separator occurs. *)
Lemma split_second_piece sep s : ∀ cur,
  sep ≠ [] → (split_go sep s 0 cur !! 1 = None ↔ contains s sep = false).
Proof.
  intros cur Hsep. revert cur. induction s as [|c s IH]; intros cur.
  - cbn. destruct sep; [done|]. done.
  - cbn [split_go contains]. destruct (startswith (c :: s) sep) eqn:Hst.
    + cbn [orb]. pose proof (split_go_nonempty sep s (length sep - 1) []) as Hne.
      destruct (split_go sep s (length sep - 1) []); [done|]. split; done.
    + cbn [orb]. apply IH.
Qed.

Lemma index_raises {A} (l : list A) i : raises (index l i) = true ↔ l !! i = None.
Proof. unfold index. destruct (l !! i); split; done. Qed.

(** The pre-pass raises on a line exactly when one of the two directives is
    found in the lowered line while [con datos:] does not occur in the line
    as written. *)
Lemma detect_line_raises c ln :
  raises (detect_line c ln) = true ↔
    (contains (lower (strip ln)) (u "gráfico de barras con datos:")
     || contains (lower (strip ln)) (u "gráfico de líneas con datos:")) = true
    ∧ contains (strip ln) (u "con datos:") = false.
Proof.
  assert (∀ kind, raises (directive kind (strip ln)) = true
                  ↔ contains (strip ln) (u "con datos:") = false) as Hdir.
  { intros kind. unfold directive. rewrite <- (split_second_piece _ _ []); [|by vm_compute].
    fold (split (strip ln) (u "con datos:")).
    rewrite <- index_raises. by destruct (index _ 1). }
  unfold detect_line.
  destruct (contains _ (u "gráfico de barras con datos:")); cbn [orb].
  { rewrite Hdir. split; [done | by intros []]. }
  destruct (contains _ (u "gráfico de líneas con datos:")).
  { rewrite Hdir. split; [done | by intros []]. }
  cbn. split; [done | by intros []].
Qed.

Example chart_directive_example :
  detect_charts
    (split (u "Aquí un gráfico de barras con datos: Enero:10, Febrero:20") [NL]) no_chart
  = Return {| chart_type := Some bar;
              chart_data := Some [(u "Enero", Finite false 10 0);
                                  (u "Febrero", Finite false 20 0)] |}.
Proof. vm_compute. reflexivity. Qed.

Example chart_malformed_pair :
  detect_charts (split (u "gráfico de barras con datos: Enero:abc") [NL]) no_chart
  = Return {| chart_type := Some bar; chart_data := None |}.
Proof. vm_compute. reflexivity. Qed.

Example chart_last_directive_wins :
  detect_charts
    (split (u "gráfico de barras con datos: a:1" ++ [NL]
            ++ u "GRÁFICO DE LÍNEAS con datos: b:2") [NL]) no_chart
  = Return {| chart_type := Some line; chart_data := Some [(u "b", Finite false 2 0)] |}.
Proof. vm_compute. reflexivity. Qed.

(** C8 at a directive whose [Con datos:] is capitalised: the scan finds it in
    the lowered line, the split on the line as written does not, and the
    IndexError leaves the parser (so [render] fails), whatever the
    collaborators. *)
Theorem chart_directive_case_mismatch_raises
    (translator : str → str → exc (option str))
    (savefig : option chart_kind → list str → list pyfloat → exc (list N))
    (language : str) (has_logo : bool) :
  parse_markdown_for_pdf translator savefig
    (u "Gráfico de barras Con datos: Enero:10") language has_logo
  = Raise (Exn IndexError (u "list index out of range"))
  ∧ ∀ markdown_html html_page file_name,
      render markdown_html html_page translator savefig
        (u "Gráfico de barras Con datos: Enero:10") (u "pdf") language file_name has_logo
      = Raise (Exn Exception_
                 (u "No se pudo renderizar el documento: list index out of range")).
Proof.
  assert (parse_markdown_for_pdf translator savefig
            (u "Gráfico de barras Con datos: Enero:10") language has_logo
          = Raise (Exn IndexError (u "list index out of range"))) as Hparse.
  { unfold parse_markdown_for_pdf.
    replace (detect_charts _ no_chart)
      with (@Raise chart_state (Exn IndexError (u "list index out of range")))
      by (vm_compute; reflexivity).
    reflexivity. }
  split; [exact Hparse|].
  intros markdown_html html_page file_name. unfold render.
  change (str_eqb (u "pdf") (u "texto")) with false.
  change (str_eqb (u "pdf") (u "markdown")) with false.
  change (str_eqb (u "pdf") (u "pdf")) with true.
  cbv iota. rewrite Hparse. vm_compute. reflexivity.
Qed.

(** ** The generation orchestrator *)

Section GenerateProps.
Context (jd : list (str * str) → str) (hd : list message → str) (ins : instructions)
        (provider : nat → list message → N → exc str).
Context (prompt doc_type template : str) (fields : list (str * str)) (l : level)
        (language : str) (history : list message) (session_id : str).

Let key := generate_cache_key jd hd prompt doc_type template fields l history.
Let conv := is_conversational_prompt prompt.
Let run := generate jd hd ins provider prompt doc_type template fields l language history
             session_id.

Lemma init_context_lookup (cs : gmap str SessionContext) :
  init_context session_id cs !! session_id = Some (context_of session_id cs).
Proof.
  unfold init_context, context_of. destruct (cs !! session_id) eqn:H; cbn.
  - by rewrite H.
  - by rewrite lookup_insert_eq.
Qed.

Lemma generate_hit g text :
  cache g !! key = Some text →
  run g = (Return (text, conv),
           {| cache := cache g;
              conversation_context := init_context session_id (conversation_context g);
              trace := trace g |}).
Proof.
  intros H. subst run.
  unfold generate, bind, init_session, get_context, cache_lookup, ret.
  cbn [cache conversation_context trace]. fold key. by rewrite H.
Qed.

Lemma on_error_surfaced {A} e g : @on_error A e g = (Raise (surfaced e), g).
Proof. unfold on_error, surfaced. by destruct (exn_class_of e). Qed.

Lemma append_to_last_snoc (ms : list message) m clause :
  append_to_last (ms ++ [m]) clause
  = ms ++ [{| role := role m; content := content m ++ clause |}].
Proof. unfold append_to_last. by rewrite reverse_snoc, reverse_involutive. Qed.

Lemma retry_request_eq ctx :
  append_to_last (first_request ins prompt template l language history ctx) corrective_clause
  = retry_request ins prompt template l language history ctx.
Proof.
  unfold first_request, retry_request. rewrite !app_assoc. apply append_to_last_snoc.
Qed.

(** A call that misses the cache, spelled out. *)
Lemma generate_miss g :
  cache g !! key = None →
  let cs := init_context session_id (conversation_context g) in
  let ctx := context_of session_id (conversation_context g) in
  let mt := max_tokens_for conv l in
  let first := Completion (first_request ins prompt template l language history ctx) mt in
  let retry := Completion (retry_request ins prompt template l language history ctx) mt in
  let success text events :=
    (Return (text, conv),
     then_ g (<[key := text]> (cache g))
       (if conv then cs
        else <[session_id := updated_context text prompt doc_type template l language]> cs)
       events) in
  run g =
  match provider 0 (first_request ins prompt template l language history ctx) mt with
  | Raise e => (Raise (surfaced e), then_ g (cache g) cs [first])
  | Return c0 =>
    let t0 := strip c0 in
    let v0 := validate_generated_text t0 l conv in
    if negb (fst v0) && negb conv then
      match provider 1 (retry_request ins prompt template l language history ctx) mt with
      | Raise e =>
        (Raise (surfaced e), then_ g (cache g) cs [first; Validation t0 l conv; retry])
      | Return c1 =>
        let t1 := strip c1 in
        let v1 := validate_generated_text t1 l conv in
        if negb (fst v1) then
          (Raise (surfaced (invalid_after_retry (snd v1))),
           then_ g (cache g) cs
             [first; Validation t0 l conv; retry; Validation t1 l conv])
        else success t1 [first; Validation t0 l conv; retry; Validation t1 l conv]
      end
    else success t0 [first; Validation t0 l conv]
  end.
Proof.
  intros H cs ctx mt first retry success. subst run.
  unfold generate, bind at 1 2 3, init_session, get_context, cache_lookup.
  cbn [cache conversation_context trace]. fold key conv. rewrite H.
  rewrite init_context_lookup. cbn [default]. fold ctx cs mt.
  change ([{| role := u "system"; content := _ |}] ++ history ++ [_])
    with (first_request ins prompt template l language history ctx).
  rewrite retry_request_eq. subst success first retry. unfold then_.
  unfold try_except, bind, completion, validate, emit, ret, throw, bind.
  cbn [cache conversation_context trace].
  destruct (provider 0 _ mt) as [c0|e0]; cbn [cache conversation_context trace].
  2: { by rewrite on_error_surfaced. }
  destruct (validate_generated_text (strip c0) l conv) as [ok0 msg0] eqn:Hv0.
  cbn [fst snd]. destruct ok0, conv; cbn [negb andb];
    unfold update_context, cache_store, ret, throw;
    cbn [cache conversation_context trace]; rewrite <- ?app_assoc; cbn [app];
    try reflexivity.
  destruct (provider 1 _ mt) as [c1|e1]; cbn [cache conversation_context trace].
  2: { rewrite on_error_surfaced. by rewrite <- ?app_assoc. }
  destruct (validate_generated_text (strip c1) l false) as [ok1 msg1] eqn:Hv1.
  cbn [fst snd]. destruct ok1; cbn [negb];
    cbn [cache conversation_context trace]; rewrite ?on_error_surfaced;
    rewrite <- ?app_assoc; cbn [app]; reflexivity.
Qed.

(** A call that returns leaves its text in the cache under the key. *)
Lemma generate_returns_cached g g' text c :
  run g = (Return (text, c), g') → cache g' !! key = Some text ∧ c = conv.
Proof.
  destruct (cache g !! key) as [t|] eqn:Hk.
  - rewrite (generate_hit g t Hk). intros [= <- <- <-].
    split; [exact Hk | reflexivity].
  - rewrite (generate_miss g Hk). cbv zeta.
    destruct (provider 0 _ _) as [c0|e0]; [|discriminate].
    destruct (negb _ && negb conv).
    + destruct (provider 1 _ _) as [c1|e1]; [|discriminate].
      destruct (negb _); [discriminate|]. intros [= <- <- <-].
      split; [apply lookup_insert_eq | reflexivity].
    + intros [= <- <- <-]. split; [apply lookup_insert_eq | reflexivity].
Qed.

End GenerateProps.

Lemma init_context_keeps (session_id : str) (cs : gmap str SessionContext) (s : str) c :
  cs !! s = Some c → init_context session_id cs !! s = Some c.
Proof.
  intros H. unfold init_context. destruct (cs !! session_id) eqn:Hs; [done|].
  rewrite lookup_insert_ne; [done|]. intros <-. congruence.
Qed.

Lemma context_of_init (session_id : str) (cs : gmap str SessionContext) (s : str) :
  context_of s (init_context session_id cs) = context_of s cs.
Proof.
  unfold context_of, init_context. destruct (cs !! session_id) eqn:Hs; [done|].
  destruct (decide (session_id = s)) as [<-|Hne].
  - by rewrite lookup_insert_eq, Hs.
  - by rewrite lookup_insert_ne.
Qed.


(** ** The cache short-circuit (C2) *)

(** C2: after a call that returned a text, a second call with the same
    prompt, document type, template, fields, level and history, made while
    the entry the first call left is in the cache, returns that text with the
    same flag and does nothing else: the trace is as it was (no completion
    request, no run of the validator), the cache is as it was, and no field
    of any session context changes, whatever the contexts have become in
    between: the only trace the call leaves is the blank context it creates
    for a session that has none. The language, the session and the provider
    of the second call are free. *)
Theorem generate_cache_hit_short_circuit
    (jd : list (str * str) → str) (hd : list message → str)
    (ins1 ins2 : instructions) (provider1 provider2 : nat → list message → N → exc str)
    (prompt doc_type template : str) (fields : list (str * str)) (l : level)
    (language1 language2 : str) (history : list message) (session1 session2 : str)
    (g0 g1 g2 : generator) (text : str) (conv : bool) :
  let key := generate_cache_key jd hd prompt doc_type template fields l history in
  generate jd hd ins1 provider1 prompt doc_type template fields l language1 history
    session1 g0 = (Return (text, conv), g1) →
  cache g2 !! key = cache g1 !! key →
  generate jd hd ins2 provider2 prompt doc_type template fields l language2 history
    session2 g2
  = (Return (text, conv),
     {| cache := cache g2;
        conversation_context := init_context session2 (conversation_context g2);
        trace := trace g2 |})
  ∧ (∀ s c, conversation_context g2 !! s = Some c →
            init_context session2 (conversation_context g2) !! s = Some c)
  ∧ (∀ s, context_of s (init_context session2 (conversation_context g2))
          = context_of s (conversation_context g2)).
Proof.
  intros key Hfirst Hlive.
  apply generate_returns_cached in Hfirst as [Hc ->]. fold key in Hc.
  rewrite Hc in Hlive. split_and!.
  - by apply generate_hit.
  - intros s c. apply init_context_keeps.
  - intros s. apply context_of_init.
Qed.

Lemma generate_cache_hit_short_circuit_witness :
  ∃ g1,
    generate no_json no_digest no_instructions (scripted [Return sixty_words])
      (u "Redacta un informe") (u "texto") [] [] basico (u "es") [] (u "s1") new_generator
    = (Return (strip sixty_words, false), g1)
    ∧ generate no_json no_digest no_instructions (scripted [])
        (u "Redacta un informe") (u "texto") [] [] basico (u "en") [] (u "s2")
        (reset_context (u "s1") g1)
      = (Return (strip sixty_words, false),
         {| cache := cache g1;
            conversation_context := init_context (u "s2") (delete (u "s1") (conversation_context g1));
            trace := trace g1 |}).
Proof.
  eexists. split; [vm_compute; reflexivity|].
  eapply (generate_cache_hit_short_circuit no_json no_digest no_instructions no_instructions
            (scripted [Return sixty_words]) (scripted [])
            (u "Redacta un informe") (u "texto") [] [] basico (u "es") (u "en") []
            (u "s1") (u "s2") new_generator).
  - vm_compute; reflexivity.
  - reflexivity.
Defined.

(** ** The single retry (C4) *)

Lemma init_context_known (session_id : str) (cs : gmap str SessionContext) :
  is_Some (cs !! session_id) → init_context session_id cs = cs.
Proof. intros [c Hc]. unfold init_context. by rewrite Hc. Qed.

(** C4: a call for a prompt that is not conversational, which misses the
    cache and whose first text fails validation, sends exactly one more
    request: the messages of the first request with one clause, the
    sentence that asks for a heading, appended to the user turn (so the
    retry is not the first request again), and the same token budget. If the
    second text fails as well, the call raises, the cache is as it was and no
    field of any session context has changed: the contexts are literally as
    they were when the session had one, and otherwise differ only by the
    blank context the call has created for the new session. If the second
    text passes, it is returned, cached and recorded as the session's last
    document. *)
Theorem generate_retries_once
    (jd : list (str * str) → str) (hd : list message → str) (ins : instructions)
    (provider : nat → list message → N → exc str)
    (prompt doc_type template : str) (fields : list (str * str)) (l : level)
    (language : str) (history : list message) (session_id : str)
    (g : generator) (c0 : str) :
  let key := generate_cache_key jd hd prompt doc_type template fields l history in
  let ctx := context_of session_id (conversation_context g) in
  let first := first_request ins prompt template l language history ctx in
  let retry := retry_request ins prompt template l language history ctx in
  let mt := max_tokens_for false l in
  let out := generate jd hd ins provider prompt doc_type template fields l language
               history session_id g in
  is_conversational_prompt prompt = false →
  cache g !! key = None →
  provider 0 first mt = Return c0 →
  fst (validate_generated_text (strip c0) l false) = false →
  first = [system_turn ins prompt template l language history ctx] ++ history
          ++ [{| role := u "user"; content := prompt |}]
  ∧ retry = [system_turn ins prompt template l language history ctx] ++ history
            ++ [{| role := u "user";
                   content := prompt ++ [NL]
                              ++ u "Por favor, asegúrate de incluir al menos un encabezado (#, ##) en el contenido y seguir la estructura solicitada según el nivel." |}]
  ∧ retry ≠ first
  ∧ (∃ rest, trace (snd out)
             = trace g ++ [Completion first mt; Validation (strip c0) l false;
                           Completion retry mt] ++ rest
           ∧ (rest = [] ∨ ∃ t1, rest = [Validation t1 l false]))
  ∧ (∀ c1, provider 1 retry mt = Return c1 →
           fst (validate_generated_text (strip c1) l false) = false →
           fst out = Raise (surfaced (invalid_after_retry
                                        (snd (validate_generated_text (strip c1) l false))))
           ∧ cache (snd out) = cache g
           ∧ conversation_context (snd out)
             = init_context session_id (conversation_context g)
           ∧ (is_Some (conversation_context g !! session_id) →
              conversation_context (snd out) = conversation_context g)
           ∧ ∀ s, context_of s (conversation_context (snd out))
                  = context_of s (conversation_context g))
  ∧ (∀ c1, provider 1 retry mt = Return c1 →
           fst (validate_generated_text (strip c1) l false) = true →
           fst out = Return (strip c1, false)
           ∧ cache (snd out) !! key = Some (strip c1)
           ∧ context_of session_id (conversation_context (snd out))
             = updated_context (strip c1) prompt doc_type template l language).
Proof.
  intros key ctx first retry mt out Hconv Hmiss Hp0 Hv0.
  split; [reflexivity|]. split; [reflexivity|]. split.
  { unfold retry, first, retry_request, first_request. intros H.
    do 2 apply app_inv_head in H. injection H as H.
    apply (f_equal (@length N)) in H. unfold corrective_clause in H.
    rewrite !length_app in H. cbn [length] in H. lia. }
  subst out.
  rewrite (generate_miss jd hd ins provider prompt doc_type template fields l language
             history session_id g Hmiss). cbv zeta.
  rewrite Hconv. fold ctx first retry mt. rewrite Hp0, Hv0. cbn [negb andb].
  split_and!.
  - destruct (provider 1 retry mt) as [c1|e1]; cbn [snd then_ trace].
    + destruct (negb _); cbn [snd then_ trace]; eexists; (split; [reflexivity|]); right;
        by eexists.
    + exists []. split; [reflexivity | by left].
  - intros c1 -> ->. cbn [negb fst snd then_ cache conversation_context].
    split_and!; try reflexivity.
    + apply init_context_known.
    + intros s. apply context_of_init.
  - intros c1 -> ->. cbn [negb fst snd then_ cache conversation_context].
    split_and!; [reflexivity | apply lookup_insert_eq |].
    unfold context_of. by rewrite lookup_insert_eq.
Qed.

Lemma generate_retries_once_witness :
  fst twice_too_short = Raise (Exn Exception_
                     (u "Error al generar el texto: Contenido generado no válido tras reintento: El contenido es demasiado corto (menos de 50 palabras)."))
  ∧ cache (snd twice_too_short) = ∅
  ∧ trace (snd twice_too_short)
    = [Completion [{| role := u "system"; content := [NL] |};
                   {| role := u "user"; content := u "Redacta un informe" |}] 1000;
       Validation (u "demasiado corto") basico false;
       Completion [{| role := u "system"; content := [NL] |};
                   {| role := u "user";
                      content := u "Redacta un informe" ++ [NL]
                                 ++ u "Por favor, asegúrate de incluir al menos un encabezado (#, ##) en el contenido y seguir la estructura solicitada según el nivel." |}]
         1000;
       Validation (u "otra vez corto") basico false].
Proof.
  unfold twice_too_short.
  destruct (generate_retries_once no_json no_digest no_instructions
              (scripted [Return (u "demasiado corto"); Return (u "otra vez corto")])
              (u "Redacta un informe") (u "texto") [] [] basico (u "es") [] (u "s1")
              new_generator (u "demasiado corto")) as (_ & _ & _ & _ & Hfail & _);
    [vm_compute; reflexivity .. |].
  destruct (Hfail (u "otra vez corto")) as (Hr & Hc & _); [vm_compute; reflexivity ..|].
  split_and!.
  - rewrite Hr. vm_compute. reflexivity.
  - exact Hc.
  - vm_compute. reflexivity.
Defined.

(** ** Conversational requests (C10) *)

(** C10: for a conversational prompt, a call that finds its key in the cache
    returns the cached text; otherwise it sends one request, with a budget of
    200 tokens, and whatever the validator says of the reply (it runs once,
    its verdict is not read) the stripped reply is returned and is then in
    the cache under the key, and no session context is updated; the call
    raises only when the request does, with the error of the request, and
    then stores nothing. No second request is ever sent. Of the cache after
    the store only the entry of the key is stated: the cache of the source
    is bounded, and storing may push another entry out. *)
Theorem conversational_generate_skips_validation_errors
    (jd : list (str * str) → str) (hd : list message → str) (ins : instructions)
    (provider : nat → list message → N → exc str)
    (prompt doc_type template : str) (fields : list (str * str)) (l : level)
    (language : str) (history : list message) (session_id : str) (g : generator) :
  let key := generate_cache_key jd hd prompt doc_type template fields l history in
  let cs := init_context session_id (conversation_context g) in
  let first :=
    first_request ins prompt template l language history
      (context_of session_id (conversation_context g)) in
  let out := generate jd hd ins provider prompt doc_type template fields l language
               history session_id g in
  is_conversational_prompt prompt = true →
  match cache g !! key with
  | Some text => out = (Return (text, true), then_ g (cache g) cs [])
  | None =>
    match provider 0 first 200%N with
    | Return reply =>
      fst out = Return (strip reply, true)
      ∧ cache (snd out) !! key = Some (strip reply)
      ∧ conversation_context (snd out) = cs
      ∧ trace (snd out) = trace g ++ [Completion first 200; Validation (strip reply) l true]
    | Raise e => out = (Raise (surfaced e), then_ g (cache g) cs [Completion first 200])
    end
  end
  ∧ ∀ s, context_of s cs = context_of s (conversation_context g).
Proof.
  intros key cs first out Hconv. subst out. split; [|intros s; apply context_of_init].
  destruct (cache g !! key) as [text|] eqn:Hk.
  - rewrite (generate_hit jd hd ins provider prompt doc_type template fields l language
               history session_id g text Hk).
    rewrite Hconv. unfold then_. by rewrite app_nil_r.
  - rewrite (generate_miss jd hd ins provider prompt doc_type template fields l language
               history session_id g Hk). cbv zeta.
    rewrite Hconv. cbn [max_tokens_for]. fold first cs key.
    destruct (provider 0 first 200%N); [|reflexivity].
    rewrite andb_false_r. cbn [fst snd then_ cache conversation_context trace].
    split_and!; [reflexivity | apply lookup_insert_eq | reflexivity | reflexivity].
Qed.

Lemma conversational_generate_skips_validation_errors_witness :
  fst (validate_generated_text (strip long_reply) basico true) = false
  ∧ fst long_greeting_reply = Return (strip long_reply, true)
  ∧ cache (snd long_greeting_reply) !! (u "hola:texto::{}:basico:")
    = Some (strip long_reply)
  ∧ conversation_context (snd long_greeting_reply) = {[ u "s1" := blank_context ]}.
Proof.
  split; [vm_compute; reflexivity|].
  pose proof (conversational_generate_skips_validation_errors no_json no_digest
                no_instructions (scripted [Return long_reply])
                (u "hola") (u "texto") [] [] basico (u "es") [] (u "s1") new_generator
                ltac:(vm_compute; reflexivity)) as [H _].
  change (cache new_generator !! _) with (@None str) in H.
  change (scripted [Return long_reply] 0 _ 200%N) with (Return long_reply) in H.
  fold long_greeting_reply in H. destruct H as (Hr & Hc & Hcs & _).
  split_and!; [exact Hr | exact Hc | rewrite Hcs; reflexivity].
Defined.

Import More.

(* ===================================================================== *)
(** * Further properties *)
(* ===================================================================== *)

(** ** The orchestrator: errors, requests, sessions *)

Lemma surfaced_class e : exn_class_of (surfaced e) = Exception_.
Proof. unfold surfaced. by destruct (exn_class_of e). Qed.

Section GenerateMore.
Context (jd : list (str * str) → str) (hd : list message → str) (ins : instructions)
        (provider : nat → list message → N → exc str).
Context (prompt doc_type template : str) (fields : list (str * str)) (l : level)
        (language : str) (history : list message) (session_id : str).

Let key := generate_cache_key jd hd prompt doc_type template fields l history.
Let conv := is_conversational_prompt prompt.
Let run := generate jd hd ins provider prompt doc_type template fields l language history
             session_id.

(** Every outcome of a call, in one case analysis: a hit, an error, or a
    text that has been generated; each with the cache, the contexts and the
    events it leaves. *)
Lemma generate_outcome g :
  let cs := init_context session_id (conversation_context g) in
  (∃ text, cache g !! key = Some text
         ∧ run g = (Return (text, conv), then_ g (cache g) cs []))
  ∨ (∃ e events,
       cache g !! key = None
       ∧ run g = (Raise (surfaced e), then_ g (cache g) cs events)
       ∧ 0 < completions events ≤ 2
       ∧ validations events ≤ completions events
       ∧ (conv = true → completions events = 1))
  ∨ (∃ text events,
       cache g !! key = None
       ∧ run g = (Return (text, conv),
                  then_ g (<[key := text]> (cache g))
                    (if conv then cs
                     else <[session_id := updated_context text prompt doc_type template l
                                            language]> cs)
                    events)
       ∧ 0 < completions events ≤ 2
       ∧ validations events = completions events
       ∧ (conv = true → completions events = 1)
       ∧ (conv = false → fst (validate_generated_text text l false) = true)).
Proof.
  intros cs. destruct (cache g !! key) as [text|] eqn:Hk.
  - left. exists text. split; [done|]. subst run.
    rewrite (generate_hit jd hd ins provider prompt doc_type template fields l
               language history session_id g text Hk).
    unfold then_. by rewrite app_nil_r.
  - right. subst run.
    rewrite (generate_miss jd hd ins provider prompt doc_type template fields l
               language history session_id g Hk). cbv zeta. fold key conv cs.
    destruct (provider 0 _ _) as [c0|e0].
    2: { left. eexists _, _. split_and!; [done | reflexivity | | | | ];
           cbn [completions validations List.filter is_completion is_validation length];
           (lia || done). }
    destruct (validate_generated_text (strip c0) l conv) as [ok0 m0] eqn:Hv0. cbn [fst].
    destruct conv eqn:Hconv.
    { rewrite andb_false_r. right. eexists _, _.
      split_and!; [done | reflexivity | | | | | ];
        cbn [completions validations List.filter is_completion is_validation length];
        (lia || done). }
    destruct ok0; cbn [negb andb].
    { right. eexists _, _.
      split_and!; [done | reflexivity | | | | | ];
        cbn [completions validations List.filter is_completion is_validation length];
        try (lia || done). intros _. by rewrite Hv0. }
    destruct (provider 1 _ _) as [c1|e1].
    2: { left. eexists _, _. split_and!; [done | reflexivity | | | | ];
           cbn [completions validations List.filter is_completion is_validation length];
           (lia || done). }
    destruct (validate_generated_text (strip c1) l false) as [ok1 m1] eqn:Hv1.
    cbn [fst snd]. destruct ok1; cbn [negb].
    + right. eexists _, _.
      split_and!; [done | reflexivity | | | | | ];
        cbn [completions validations List.filter is_completion is_validation length];
        try (lia || done). intros _. by rewrite Hv1.
    + left. eexists _, _. split_and!; [done | reflexivity | | | | ];
        cbn [completions validations List.filter is_completion is_validation length];
        (lia || done).
Qed.

End GenerateMore.

(** X1: whatever makes [generate] raise (the provider on either request, or
    a second invalid text), the exception is a plain [Exception], never the
    provider's class nor the ValueError of the validation; nothing has been
    written to the cache and no session context has been updated (the
    session's blank context apart). *)
Theorem generate_error_leaves_state
    (jd : list (str * str) → str) (hd : list message → str) (ins : instructions)
    (provider : nat → list message → N → exc str)
    (prompt doc_type template : str) (fields : list (str * str)) (l : level)
    (language : str) (history : list message) (session_id : str)
    (g : generator) (e : exception) :
  let out := generate jd hd ins provider prompt doc_type template fields l language
               history session_id g in
  fst out = Raise e →
  exn_class_of e = Exception_
  ∧ cache (snd out) = cache g
  ∧ conversation_context (snd out) = init_context session_id (conversation_context g)
  ∧ ∀ s, context_of s (conversation_context (snd out))
         = context_of s (conversation_context g).
Proof.
  intros out. subst out.
  destruct (generate_outcome jd hd ins provider prompt doc_type template fields l language
              history session_id g)
    as [(text & _ & Hr) | [(e' & events & _ & Hr & _) | (text & events & _ & Hr & _)]];
    rewrite Hr; cbn [fst snd]; intros [= <-].
  split_and!; [apply surfaced_class | reflexivity | reflexivity |].
  intros s. apply context_of_init.
Qed.

(** X2: a call sends at most two completion requests, and none exactly when
    its key is in the cache; the validator runs at most once per request;
    a conversational call sends at most one request. *)
Theorem generate_request_bound
    (jd : list (str * str) → str) (hd : list message → str) (ins : instructions)
    (provider : nat → list message → N → exc str)
    (prompt doc_type template : str) (fields : list (str * str)) (l : level)
    (language : str) (history : list message) (session_id : str) (g : generator) :
  ∃ events,
    trace (snd (generate jd hd ins provider prompt doc_type template fields l language
                  history session_id g))
    = trace g ++ events
    ∧ completions events ≤ 2
    ∧ validations events ≤ completions events
    ∧ (completions events = 0
       ↔ is_Some (cache g
                    !! generate_cache_key jd hd prompt doc_type template fields l history))
    ∧ (is_conversational_prompt prompt = true → completions events ≤ 1).
Proof.
  destruct (generate_outcome jd hd ins provider prompt doc_type template fields l language
              history session_id g)
    as [(text & Hk & Hr)
       | [(e' & events & Hk & Hr & Hc & Hv & Hconv)
         | (text & events & Hk & Hr & Hc & Hv & Hconv & _)]];
    rewrite Hr; cbn [snd then_ trace]; eexists;
    (split; [reflexivity|]); rewrite Hk.
  - split_and!; [cbn; lia | cbn; lia | done | cbn; lia].
  - split_and!; [lia | lia | | intros ?%Hconv; lia].
    split; [lia | by intros [? [=]]].
  - split_and!; [lia | lia | | intros ?%Hconv; lia].
    split; [lia | by intros [? [=]]].
Qed.

(** X3: a call never touches the context of another session. *)
Theorem generate_other_sessions_untouched
    (jd : list (str * str) → str) (hd : list message → str) (ins : instructions)
    (provider : nat → list message → N → exc str)
    (prompt doc_type template : str) (fields : list (str * str)) (l : level)
    (language : str) (history : list message) (session_id : str)
    (g : generator) (s : str) :
  s ≠ session_id →
  conversation_context
    (snd (generate jd hd ins provider prompt doc_type template fields l language history
            session_id g)) !! s
  = conversation_context g !! s.
Proof.
  intros Hs.
  assert (init_context session_id (conversation_context g) !! s
          = conversation_context g !! s) as Hinit.
  { unfold init_context. destruct (conversation_context g !! session_id); [done|].
    by rewrite lookup_insert_ne. }
  destruct (generate_outcome jd hd ins provider prompt doc_type template fields l language
              history session_id g)
    as [(text & _ & Hr) | [(e' & events & _ & Hr & _) | (text & events & _ & Hr & _)]];
    rewrite Hr; cbn [snd then_ conversation_context]; try exact Hinit.
  destruct (is_conversational_prompt prompt); [exact Hinit|]. by rewrite lookup_insert_ne.
Qed.

(** X4: a document that a call generates (the prompt not conversational,
    the key not in the cache) has passed the validator: it has between 50
    words and the ceiling of its level; it is then in the cache and it is the
    session's last document, with the prompt, type, template, level and
    language of the call. *)
Theorem generate_returns_valid_document
    (jd : list (str * str) → str) (hd : list message → str) (ins : instructions)
    (provider : nat → list message → N → exc str)
    (prompt doc_type template : str) (fields : list (str * str)) (l : level)
    (language : str) (history : list message) (session_id : str)
    (g : generator) (text : str) (c : bool) :
  let key := generate_cache_key jd hd prompt doc_type template fields l history in
  let out := generate jd hd ins provider prompt doc_type template fields l language
               history session_id g in
  is_conversational_prompt prompt = false →
  cache g !! key = None →
  fst out = Return (text, c) →
  c = false
  ∧ fst (validate_generated_text text l false) = true
  ∧ 50 ≤ word_count text ≤ max_words l
  ∧ cache (snd out) !! key = Some text
  ∧ conversation_context (snd out) !! session_id
    = Some (updated_context text prompt doc_type template l language).
Proof.
  intros key out Hconv Hmiss. subst key out.
  destruct (generate_outcome jd hd ins provider prompt doc_type template fields l language
              history session_id g)
    as [(t & Hk & _) | [(e' & events & _ & Hr & _)
                       | (t & events & _ & Hr & _ & _ & _ & Hvalid)]].
  - congruence.
  - rewrite Hr. cbn [fst]. discriminate.
  - rewrite Hr, Hconv.
    cbn [fst snd then_ cache conversation_context].
    intros [= <- <-]. specialize (Hvalid Hconv).
    split_and!; [done | done | | | apply lookup_insert_eq | apply lookup_insert_eq].
    + unfold validate_generated_text in Hvalid.
      destruct (Nat.ltb_spec (max_words l) (word_count t)); [done|].
      destruct (Nat.ltb_spec (word_count t) 50); [done | lia].
    + unfold validate_generated_text in Hvalid.
      destruct (Nat.ltb_spec (max_words l) (word_count t)); [done | lia].
Qed.

(** X5: a failure of the first request is not retried: one request has been
    sent, with the budget of the level (200 tokens for a conversational
    prompt), and the call raises the message of the failure's class. *)
Theorem generate_provider_failure_not_retried
    (jd : list (str * str) → str) (hd : list message → str) (ins : instructions)
    (provider : nat → list message → N → exc str)
    (prompt doc_type template : str) (fields : list (str * str)) (l : level)
    (language : str) (history : list message) (session_id : str)
    (g : generator) (e : exception) :
  let key := generate_cache_key jd hd prompt doc_type template fields l history in
  let conv := is_conversational_prompt prompt in
  let first := first_request ins prompt template l language history
                 (context_of session_id (conversation_context g)) in
  cache g !! key = None →
  provider 0 first (max_tokens_for conv l) = Raise e →
  generate jd hd ins provider prompt doc_type template fields l language history
    session_id g
  = (Raise (surfaced e),
     then_ g (cache g) (init_context session_id (conversation_context g))
       [Completion first (max_tokens_for conv l)])
  ∧ exn_message (surfaced e)
    = match exn_class_of e with
      | AuthenticationError => u "Error de autenticación con la API de OpenAI."
      | RateLimitError => u "Límite de cuota alcanzado. Intenta de nuevo más tarde."
      | APIConnectionError => u "No se pudo conectar con la API de OpenAI."
      | _ => u "Error al generar el texto: " ++ exn_message e
      end.
Proof.
  intros key conv first Hmiss Hp. split.
  - rewrite (generate_miss jd hd ins provider prompt doc_type template fields l
               language history session_id g Hmiss). cbv zeta.
    fold key conv first. by rewrite Hp.
  - unfold surfaced. by destruct (exn_class_of e).
Qed.

Lemma generate_error_leaves_state_witness :
  fst rate_limited
  = Raise (Exn Exception_ (u "Límite de cuota alcanzado. Intenta de nuevo más tarde."))
  ∧ cache (snd rate_limited) = ∅.
Proof.
  split; [vm_compute; reflexivity|].
  eapply (generate_error_leaves_state no_json no_digest no_instructions
            (failing (Exn RateLimitError (u "429")))
            (u "Redacta un informe") (u "texto") [] [] basico (u "es") [] (u "s1")
            new_generator).
  vm_compute. reflexivity.
Defined.

Lemma generate_other_sessions_untouched_witness :
  conversation_context (snd report_generated) !! (u "s2") = None.
Proof.
  unfold report_generated.
  rewrite (generate_other_sessions_untouched no_json no_digest no_instructions
             (scripted [Return sixty_word_document])
             (u "Redacta un informe") (u "texto") [] [] medio (u "es") [] (u "s1")
             new_generator (u "s2")); [reflexivity | vm_compute; discriminate].
Defined.

Lemma generate_returns_valid_document_witness :
  fst report_generated = Return (strip sixty_word_document, false)
  ∧ 50 ≤ word_count (strip sixty_word_document) ≤ 1000
  ∧ conversation_context (snd report_generated) !! (u "s1")
    = Some (updated_context (strip sixty_word_document) (u "Redacta un informe") (u "texto") []
              medio (u "es")).
Proof.
  assert (fst report_generated = Return (strip sixty_word_document, false)) as Hr
    by (vm_compute; reflexivity).
  destruct (generate_returns_valid_document no_json no_digest no_instructions
              (scripted [Return sixty_word_document])
              (u "Redacta un informe") (u "texto") [] [] medio (u "es") [] (u "s1")
              new_generator (strip sixty_word_document) false)
    as (_ & _ & Hwc & _ & Hctx);
    [vm_compute; reflexivity | reflexivity | exact Hr |].
  split; [exact Hr | split; [exact Hwc | exact Hctx]].
Defined.

Lemma generate_provider_failure_not_retried_witness :
  trace (snd rate_limited)
  = [Completion [{| role := u "system"; content := [NL] |};
                 {| role := u "user"; content := u "Redacta un informe" |}] 1000].
Proof.
  destruct (generate_provider_failure_not_retried no_json no_digest no_instructions
              (failing (Exn RateLimitError (u "429")))
              (u "Redacta un informe") (u "texto") [] [] basico (u "es") [] (u "s1")
              new_generator (Exn RateLimitError (u "429"))) as [Hr _];
    [reflexivity | reflexivity |].
  unfold rate_limited. rewrite Hr. vm_compute. reflexivity.
Defined.


(** A call that misses the cache starts by sending the request built from
    the session's context. *)
Lemma generate_miss_first_event
    (jd : list (str * str) → str) (hd : list message → str) (ins : instructions)
    (provider : nat → list message → N → exc str)
    (prompt doc_type template : str) (fields : list (str * str)) (l : level)
    (language : str) (history : list message) (session_id : str) (g : generator) :
  cache g !! generate_cache_key jd hd prompt doc_type template fields l history = None →
  ∃ rest,
    trace (snd (generate jd hd ins provider prompt doc_type template fields l language
                  history session_id g))
    = trace g
      ++ Completion (first_request ins prompt template l language history
                       (context_of session_id (conversation_context g)))
           (max_tokens_for (is_conversational_prompt prompt) l) :: rest.
Proof.
  intros Hmiss.
  rewrite (generate_miss jd hd ins provider prompt doc_type template fields l language
             history session_id g Hmiss). cbv zeta.
  destruct (provider 0 _ _); [|by eexists].
  destruct (negb _ && negb _); [|by eexists].
  destruct (provider 1 _ _); [|by eexists].
  destruct (negb _); by eexists.
Qed.

(** X6: [reset_context] forgets the session's last document and nothing else:
    the cache and the other sessions are as they were, and the next call of
    the session that misses the cache sends the request of a session without
    a previous document, whose system message has no context block. *)
Theorem reset_context_forgets_document
    (jd : list (str * str) → str) (hd : list message → str) (ins : instructions)
    (provider : nat → list message → N → exc str)
    (prompt doc_type template : str) (fields : list (str * str)) (l : level)
    (language : str) (history : list message) (session_id : str) (g : generator) :
  let conv := is_conversational_prompt prompt in
  cache g !! generate_cache_key jd hd prompt doc_type template fields l history = None →
  cache (reset_context session_id g) = cache g
  ∧ (∀ s, s ≠ session_id →
          conversation_context (reset_context session_id g) !! s
          = conversation_context g !! s)
  ∧ (∃ rest,
       trace (snd (generate jd hd ins provider prompt doc_type template fields l language
                     history session_id (reset_context session_id g)))
       = trace g
         ++ Completion (first_request ins prompt template l language history blank_context)
              (max_tokens_for conv l) :: rest)
  ∧ content (system_turn ins prompt template l language history blank_context)
    = system_message ins conv language l
        (if conv then [] else summarize_history history) [] template.
Proof.
  intros conv Hmiss. split_and!.
  - reflexivity.
  - intros s Hs. cbn [reset_context conversation_context].
    apply lookup_delete_ne. congruence.
  - destruct (generate_miss_first_event jd hd ins provider prompt doc_type template fields
                l language history session_id (reset_context session_id g) Hmiss)
      as [rest Hrest].
    exists rest. rewrite Hrest. cbn [reset_context conversation_context trace].
    unfold context_of. rewrite lookup_delete_eq. reflexivity.
  - unfold system_turn. cbn [content blank_context last_document truthy andb].
    reflexivity.
Qed.

(** X7: the next document request of a session is grounded on the document
    the session has just been given. When a call has generated a text for a
    prompt that is not conversational, a further such call of the session
    that misses the cache sends, as its first request, a system turn, the
    history and the prompt as user turn; and the content of the system turn
    holds the context block spelled out below: the heading line, the
    document type, the template, the level and the language of the first
    call, the first 200 characters of its text followed by three dots, and
    the sentence on modifications. *)
Theorem generate_follow_up_carries_context
    (jd : list (str * str) → str) (hd : list message → str) (ins : instructions)
    (provider1 provider2 : nat → list message → N → exc str)
    (prompt1 doc_type1 template1 : str) (fields1 : list (str * str)) (l1 : level)
    (language1 : str) (history1 : list message)
    (prompt2 doc_type2 template2 : str) (fields2 : list (str * str)) (l2 : level)
    (language2 : str) (history2 : list message)
    (session_id : str) (g0 g1 : generator) (text : str) (c : bool) :
  let block :=
    [NL] ++ u "Contexto del documento anterior:" ++ [NL]
    ++ u "- Tipo de documento: " ++ doc_type1 ++ [NL]
    ++ u "- Plantilla: " ++ template1 ++ [NL]
    ++ u "- Nivel: " ++ level_name l1 ++ [NL]
    ++ u "- Idioma: " ++ language1 ++ [NL]
    ++ u "- Contenido previo (resumen): " ++ take 200 text ++ u "..." ++ [NL]
    ++ u "Si el usuario solicita modificaciones (por ejemplo, 'añade una cláusula'), aplica los cambios al documento anterior manteniendo su estructura y estilo." in
  is_conversational_prompt prompt1 = false →
  is_conversational_prompt prompt2 = false →
  cache g0 !! generate_cache_key jd hd prompt1 doc_type1 template1 fields1 l1 history1
  = None →
  generate jd hd ins provider1 prompt1 doc_type1 template1 fields1 l1 language1 history1
    session_id g0 = (Return (text, c), g1) →
  cache g1 !! generate_cache_key jd hd prompt2 doc_type2 template2 fields2 l2 history2
  = None →
  ∃ system rest,
    trace (snd (generate jd hd ins provider2 prompt2 doc_type2 template2 fields2 l2
                  language2 history2 session_id g1))
    = trace g1
      ++ Completion ([system] ++ history2 ++ [{| role := u "user"; content := prompt2 |}])
           (max_tokens_for false l2) :: rest
    ∧ role system = u "system"
    ∧ content system
      = system_message ins false language2 l2 (summarize_history history2) block template2
    ∧ ∃ before after, content system = before ++ block ++ after.
Proof.
  intros block Hc1 Hc2 Hmiss1 Hrun Hmiss2.
  destruct (generate_outcome jd hd ins provider1 prompt1 doc_type1 template1 fields1 l1
              language1 history1 session_id g0)
    as [(t & Hk & _) | [(e' & events & _ & Hr & _)
                       | (t & events & _ & Hr & _ & _ & _ & Hvalid)]].
  - congruence.
  - rewrite Hrun in Hr. discriminate Hr.
  - rewrite Hrun, Hc1 in Hr. injection Hr as -> _ ->.
    specialize (Hvalid Hc1).
    assert (truthy (Some t) = true) as Ht.
    { destruct t; [|reflexivity]. vm_compute in Hvalid. discriminate Hvalid. }
    destruct (generate_miss_first_event jd hd ins provider2 prompt2 doc_type2 template2
                fields2 l2 language2 history2 session_id _ Hmiss2) as [rest Hrest].
    rewrite Hc2 in Hrest. cbn [then_ conversation_context] in Hrest.
    unfold context_of in Hrest. rewrite lookup_insert_eq in Hrest.
    cbn [default] in Hrest. unfold first_request in Hrest.
    exists (system_turn ins prompt2 template2 l2 language2 history2
              (updated_context t prompt1 doc_type1 template1 l1 language1)), rest.
    split; [exact Hrest|]. split; [reflexivity|].
    assert (content (system_turn ins prompt2 template2 l2 language2 history2
                       (updated_context t prompt1 doc_type1 template1 l1 language1))
            = system_message ins false language2 l2 (summarize_history history2) block
                template2) as Hcontent.
    { unfold system_turn. cbn [content]. rewrite Hc2.
      cbn [updated_context last_document]. rewrite Ht. reflexivity. }
    split; [exact Hcontent|]. rewrite Hcontent. unfold system_message.
    destruct (TEMPLATES ins !! template2) as [tpl|].
    + eexists (document_rules ins language2 l2 ++ summarize_history history2 ++ [NL]), _.
      rewrite <- !app_assoc. reflexivity.
    + eexists (document_rules ins language2 l2 ++ summarize_history history2 ++ [NL]), _.
      rewrite <- !app_assoc. reflexivity.
Qed.

Lemma reset_context_forgets_document_witness :
  cache (snd report_generated)
    !! generate_cache_key no_json no_digest (u "Otro informe") (u "texto") [] [] medio []
  = None
  ∧ ∃ rest,
      trace (snd (generate no_json no_digest no_instructions (scripted [])
                    (u "Otro informe") (u "texto") [] [] medio (u "es") [] (u "s1")
                    (reset_context (u "s1") (snd report_generated))))
      = trace (snd report_generated)
        ++ Completion
             (first_request no_instructions (u "Otro informe") [] medio (u "es") []
                blank_context)
             2000 :: rest.
Proof.
  split; [vm_compute; reflexivity|].
  destruct (reset_context_forgets_document no_json no_digest no_instructions (scripted [])
              (u "Otro informe") (u "texto") [] [] medio (u "es") [] (u "s1")
              (snd report_generated)) as (_ & _ & Ht & _); [vm_compute; reflexivity|].
  exact Ht.
Defined.

Lemma generate_follow_up_carries_context_witness :
  ∃ system rest before after,
    trace (snd (generate no_json no_digest no_instructions (scripted [])
                  (u "Añade una sección") (u "texto") [] [] medio (u "es") [] (u "s1")
                  (snd report_generated)))
    = trace (snd report_generated)
      ++ Completion [system; {| role := u "user"; content := u "Añade una sección" |}] 2000
         :: rest
    ∧ content system
      = before
        ++ ([NL] ++ u "Contexto del documento anterior:" ++ [NL]
            ++ u "- Tipo de documento: texto" ++ [NL]
            ++ u "- Plantilla: " ++ [NL]
            ++ u "- Nivel: medio" ++ [NL]
            ++ u "- Idioma: es" ++ [NL]
            ++ u "- Contenido previo (resumen): " ++ take 200 (strip sixty_word_document)
            ++ u "..." ++ [NL]
            ++ u "Si el usuario solicita modificaciones (por ejemplo, 'añade una cláusula'), aplica los cambios al documento anterior manteniendo su estructura y estilo.")
        ++ after.
Proof.
  destruct (generate_follow_up_carries_context no_json no_digest no_instructions
              (scripted [Return sixty_word_document]) (scripted [])
              (u "Redacta un informe") (u "texto") [] [] medio (u "es") []
              (u "Añade una sección") (u "texto") [] [] medio (u "es") []
              (u "s1") new_generator (snd report_generated) (strip sixty_word_document)
              false)
    as (system & rest & Htrace & _ & _ & before & after & Hblock);
    [vm_compute; reflexivity ..|].
  exists system, rest, before, after. split; [exact Htrace | exact Hblock].
Defined.

Import MoreRender.

(** ** The word-processing backend and tables *)

Lemma lstrip_keeps c s : In c s → isspace c = false → In c (lstrip s).
Proof.
  intros Hin Hc. induction s as [|x s IH]; [done|]. cbn [lstrip].
  destruct (isspace x) eqn:Hx; [|done].
  destruct Hin as [->|Hin]; [congruence | by apply IH].
Qed.

Lemma strip_keeps c s : In c s → isspace c = false → In c (strip s).
Proof.
  intros Hin Hc. unfold strip, rstrip. rewrite <- in_rev. apply lstrip_keeps; [|done].
  rewrite <- in_rev. by apply lstrip_keeps.
Qed.

Lemma startswith_nil s : startswith s [] = true.
Proof. by destruct s. Qed.

(** A character that is not the separator is in one of the pieces. *)
Lemma split_go_piece c s : ∀ cur,
  c ≠ PIPE → In c cur ∨ In c s → ∃ p, In p (split_go [PIPE] s 0 cur) ∧ In c p.
Proof.
  induction s as [|x s IH]; intros cur Hc Hin.
  - destruct Hin as [Hin|[]].
    exists (rev cur). split; [by left | by apply in_rev in Hin].
  - cbn [split_go startswith length Nat.sub]. rewrite startswith_nil, andb_true_r.
    destruct (N.eqb_spec x PIPE) as [->|Hx].
    + destruct Hin as [Hin|[Heq|Hin]]; [|congruence|].
      * exists (rev cur). split; [by left | by apply in_rev in Hin].
      * destruct (IH [] Hc (or_intror Hin)) as (p & Hp & Hcp).
        exists p. split; [by right | done].
    + apply IH; [done|]. destruct Hin as [Hin|[->|Hin]].
      * left. by right.
      * left. by left.
      * by right.
Qed.

Lemma docx_cells_content ln :
  existsb (λ c, negb (c =? PIPE)%N && negb (isspace c)) ln = true → docx_cells ln ≠ [].
Proof.
  intros (c & Hin & Hc)%existsb_exists.
  apply andb_true_iff in Hc as [Hp Hs].
  apply negb_true_iff in Hp, Hs. apply N.eqb_neq in Hp.
  destruct (split_go_piece c ln [] Hp (or_intror Hin)) as (p & Hp' & Hcp).
  assert (strip p ∈ docx_cells ln) as Hcell.
  { unfold docx_cells. apply list_elem_of_filter. split.
    - pose proof (strip_keeps c p Hcp Hs) as Hk. by destruct (strip p).
    - apply list_elem_of_fmap. exists p. split; [done | by apply list_elem_of_In]. }
  intros Hnil. rewrite Hnil in Hcell. by apply elem_of_nil in Hcell.
Qed.

(** A flush that returns had nothing to flush. *)
Lemma flush_table_pending σ σ' :
  rows_pending σ → flush_table σ = Return σ' → σ' = σ ∧ Docx.table_data σ = [].
Proof.
  intros [Hrows Hin]. unfold flush_table.
  destruct (Docx.in_table σ) eqn:Ht.
  - destruct (Docx.table_data σ) as [|row rows] eqn:Hd.
    + intros H. injection H as <-. by split.
    + apply Forall_cons in Hrows as [Hrow _].
      destruct row as [|c cs]; [done|]. cbn [_add_table_to_docx exc_bind]. discriminate.
  - intros H. injection H as <-. split; [done|].
    destruct (Docx.table_data σ); [done|]. by discriminate Hin.
Qed.

Lemma is_content_row_cells ln :
  is_content_row ln = true →
  ∃ r, strip ln = PIPE :: r ∧ docx_cells (strip ln) ≠ [].
Proof.
  unfold is_content_row. intros [Hp Hc]%andb_true_iff.
  apply docx_cells_content in Hc.
  destruct (strip ln) as [|c r]; [done|]. cbn [startswith] in Hp.
  apply andb_true_iff in Hp as [->%N.eqb_eq _]. by exists r.
Qed.

(** One line keeps the invariant, keeps the rows it had, and a row with
    something in it leaves rows pending. *)
Lemma docx_line_pending ln σ σ' :
  rows_pending σ → docx_line ln σ = Return σ' →
  rows_pending σ'
  ∧ (Docx.table_data σ ≠ [] ∨ is_content_row ln = true → Docx.table_data σ' ≠ []).
Proof.
  intros Hpend. pose proof Hpend as [Hrows Hin].
  destruct (is_content_row ln) eqn:Hrow.
  { apply is_content_row_cells in Hrow as (r & Hs & Hcells).
    rewrite Hs in Hcells.
    unfold docx_line. rewrite Hs. fold (docx_cells (PIPE :: r)).
    replace (startswith (PIPE :: r) (u "# ")) with false by (by vm_compute).
    replace (startswith (PIPE :: r) (u "## ")) with false by (by vm_compute).
    replace (startswith (PIPE :: r) (u "### ")) with false by (by vm_compute).
    replace (startswith (PIPE :: r) (u "- ")) with false by (by vm_compute).
    replace (startswith (PIPE :: r) (u "* ")) with false by (by vm_compute).
    replace (startswith (PIPE :: r) (u "  - ")) with false by (by vm_compute).
    replace (startswith (PIPE :: r) (u "  * ")) with false by (by vm_compute).
    replace (startswith (PIPE :: r) [PIPE]) with true
      by (cbn [startswith]; by rewrite N.eqb_refl, startswith_nil).
    cbn [orb Docx.doc Docx.table_data Docx.in_table].
    destruct (docx_cells (PIPE :: r)) as [|cell cells] eqn:Hc; [done|].
    intros H. injection H as <-. cbn [Docx.table_data Docx.in_table]. split.
    - split; [|done]. apply Forall_app. split; [done|]. by apply Forall_singleton.
    - intros _. by destruct (Docx.table_data σ). }
  unfold docx_line. lits.
  destruct (strip ln) as [|c r] eqn:Hs.
  { intros [-> Hd]%flush_table_pending; [|done]. split; [done|].
    intros [Hne|Hf]; [done | discriminate Hf]. }
  assert (∀ σ1 : docx_state,
            Docx.table_data σ1 = Docx.table_data σ → Docx.in_table σ1 = Docx.in_table σ →
            rows_pending σ1
            ∧ (Docx.table_data σ ≠ [] ∨ false = true → Docx.table_data σ1 ≠ [])) as Hsame.
  { intros σ1 Hd Ht. split.
    - split; [by rewrite Hd | by rewrite Hd, Ht].
    - intros [Hne|Hf]; [by rewrite Hd | discriminate Hf]. }
  destruct (startswith (c :: r) [35; 32]%N).
  { intros H. injection H as <-. by apply Hsame. }
  destruct (startswith (c :: r) [35; 35; 32]%N).
  { intros H. injection H as <-. by apply Hsame. }
  destruct (startswith (c :: r) [35; 35; 35; 32]%N).
  { intros H. injection H as <-. by apply Hsame. }
  destruct (_ || _).
  { intros H. injection H as <-. by apply Hsame. }
  destruct (_ || _).
  { intros H. injection H as <-. by apply Hsame. }
  destruct (startswith (c :: r) [PIPE]).
  { intros H. injection H as <-. cbn [Docx.table_data Docx.in_table Docx.doc]. split.
    - split; [|done].
      destruct (filter _ _) as [|cell cells]; [done|].
      apply Forall_app. split; [done|]. by apply Forall_singleton.
    - intros [Hne|Hf]; [|discriminate Hf].
      destruct (filter _ _); [done|]. by destruct (Docx.table_data σ). }
  destruct (flush_table _) as [σ2|e] eqn:Hf; cbn [exc_bind]; [|discriminate].
  apply flush_table_pending in Hf as [-> Hd]; [|by split].
  cbn [Docx.table_data] in Hd.
  intros H. injection H as <-. cbn [Docx.table_data Docx.in_table Docx.doc]. split.
  - split; [by rewrite Hd | by rewrite Hd].
  - intros [Hne|Hf]; [done | discriminate Hf].
Qed.

Lemma docx_lines_pending lines : ∀ σ σ',
  rows_pending σ → docx_lines lines σ = Return σ' →
  rows_pending σ'
  ∧ (Docx.table_data σ ≠ [] ∨ existsb is_content_row lines = true
     → Docx.table_data σ' ≠ []).
Proof.
  induction lines as [|ln rest IH]; intros σ σ' Hpend; cbn [docx_lines existsb].
  - intros H. injection H as <-. split; [done|]. intros [Hne|Hf]; [done | discriminate Hf].
  - destruct (docx_line ln σ) as [σ1|e] eqn:H1; cbn [exc_bind]; [|discriminate].
    destruct (docx_line_pending ln σ σ1 Hpend H1) as [Hpend1 Hrows1].
    intros H. destruct (IH σ1 σ' Hpend1 H) as [Hpend' Hrows']. split; [done|].
    intros [Hne|Hex]; apply Hrows'.
    + left. apply Hrows1. by left.
    + apply orb_true_iff in Hex as [Hrow|Hex]; [left; apply Hrows1; by right | by right].
Qed.

(** X8: the word-processing backend cannot produce a table. Whenever some
    line of the text is a table row with something in it (the stripped line
    begins with the bar and holds a character that is neither a bar nor white
    space), [parse_markdown_for_docx] raises and [render] for the type
    [docx] fails with its rendering error, whatever else the text holds. *)
Theorem docx_table_row_fails
    (markdown_html : bool → str → str) (html_page : str → str → str → str)
    (translator : str → str → exc (option str))
    (savefig : option chart_kind → list str → list pyfloat → exc (list N))
    (text language file_name : str) (has_logo : bool) :
  existsb is_content_row (split text [NL]) = true →
  raises (parse_markdown_for_docx text has_logo) = true
  ∧ ∃ message,
      render markdown_html html_page translator savefig text (u "docx") language
        file_name has_logo
      = Raise (render_error message).
Proof.
  intros Hrow.
  assert (raises (parse_markdown_for_docx text has_logo) = true) as Hraise.
  { unfold parse_markdown_for_docx.
    destruct (docx_lines _ _) as [σ|e] eqn:Hl; cbn [exc_bind]; [|reflexivity].
    apply docx_lines_pending in Hl as [[Hrows Hin] Hne].
    - specialize (Hne (or_intror Hrow)).
      destruct (Docx.table_data σ) as [|[|c cs] rows] eqn:Hd; [done| |].
      + apply Forall_cons in Hrows as [Hr _]. done.
      + pose proof (flush_table_raises σ c cs rows (Hin Hne) Hd) as Hf.
        destruct (flush_table σ); [discriminate Hf | reflexivity].
    - split; [by apply Forall_nil | done]. }
  split; [exact Hraise|].
  unfold render.
  change (str_eqb (u "docx") (u "texto")) with false.
  change (str_eqb (u "docx") (u "markdown")) with false.
  change (str_eqb (u "docx") (u "pdf")) with false.
  change (str_eqb (u "docx") (u "docx")) with true.
  cbv iota.
  destruct (parse_markdown_for_docx text has_logo) as [d|e]; [discriminate Hraise|].
  cbn [exc_bind]. by eexists.
Qed.

Lemma docx_table_row_fails_witness :
  ∃ message,
    render no_markdown no_page no_translator no_savefig
      (u "# Ventas" ++ [NL] ++ u "| Mes | Total |") (u "docx") (u "es") (u "ventas") false
    = Raise (render_error message).
Proof.
  apply (docx_table_row_fails no_markdown no_page no_translator no_savefig
           (u "# Ventas" ++ [NL] ++ u "| Mes | Total |") (u "es") (u "ventas") false).
  vm_compute. reflexivity.
Defined.


(** ** The flow-document backend and the chart directive *)

Lemma detect_line_outcome c ln :
  match detect_line c ln with
  | Return _ => is_miscased_directive ln = false
  | Raise e => is_miscased_directive ln = true
               ∧ e = Exn IndexError (u "list index out of range")
  end.
Proof.
  pose proof (detect_line_raises c ln) as Hr. unfold is_miscased_directive.
  destruct (detect_line c ln) as [c'|e] eqn:Hd.
  - destruct (_ || _) eqn:Ha; [|reflexivity]. cbn [andb].
    destruct (contains (strip ln) _) eqn:Hb; [reflexivity|].
    cbn [raises] in Hr. discriminate (proj2 Hr (conj eq_refl eq_refl)).
  - cbn [raises] in Hr. destruct (proj1 Hr eq_refl) as [-> ->]. split; [reflexivity|].
    unfold detect_line, directive, index in Hd.
    repeat match type of Hd with
           | context [if ?b then _ else _] => destruct b
           | context [match ?o with Some _ => _ | None => _ end] => destruct o
           end; cbn [exc_bind] in Hd; congruence.
Qed.

Lemma detect_charts_miscased lines : ∀ c,
  existsb is_miscased_directive lines = true →
  detect_charts lines c = Raise (Exn IndexError (u "list index out of range")).
Proof.
  induction lines as [|ln rest IH]; intros c Hex; [discriminate Hex|].
  cbn [detect_charts existsb] in *. pose proof (detect_line_outcome c ln) as Hl.
  destruct (detect_line c ln) as [c'|e]; cbn [exc_bind].
  - rewrite Hl in Hex. by apply IH.
  - by destruct Hl as [_ ->].
Qed.

(** X9: the flow-document backend fails on a miscased chart directive. If on
    some line the scan finds one of the two directives in the lowered line
    while [con datos:] does not occur in the line as it is written (for
    instance [Con datos:] or [CON DATOS:]), the parser raises an IndexError
    before it builds anything, and [render] for the type [pdf] fails with
    [list index out of range] in its message, whatever the collaborators. *)
Theorem pdf_miscased_directive_fails
    (markdown_html : bool → str → str) (html_page : str → str → str → str)
    (translator : str → str → exc (option str))
    (savefig : option chart_kind → list str → list pyfloat → exc (list N))
    (text language file_name : str) (has_logo : bool) :
  existsb is_miscased_directive (split text [NL]) = true →
  parse_markdown_for_pdf translator savefig text language has_logo
  = Raise (Exn IndexError (u "list index out of range"))
  ∧ render markdown_html html_page translator savefig text (u "pdf") language file_name
      has_logo
    = Raise (render_error (u "list index out of range")).
Proof.
  intros Hex.
  assert (parse_markdown_for_pdf translator savefig text language has_logo
          = Raise (Exn IndexError (u "list index out of range"))) as Hparse.
  { unfold parse_markdown_for_pdf. by rewrite (detect_charts_miscased _ _ Hex). }
  split; [exact Hparse|].
  unfold render.
  change (str_eqb (u "pdf") (u "texto")) with false.
  change (str_eqb (u "pdf") (u "markdown")) with false.
  change (str_eqb (u "pdf") (u "pdf")) with true.
  cbv iota. rewrite Hparse. reflexivity.
Qed.

Lemma pdf_miscased_directive_fails_witness :
  render no_markdown no_page no_translator no_savefig
    (u "# Ventas" ++ [NL] ++ u "GRÁFICO DE LÍNEAS CON DATOS: a:1") (u "pdf") (u "es")
    (u "ventas") false
  = Raise (render_error (u "list index out of range")).
Proof.
  apply (pdf_miscased_directive_fails no_markdown no_page no_translator no_savefig
           (u "# Ventas" ++ [NL] ++ u "GRÁFICO DE LÍNEAS CON DATOS: a:1") (u "es")
           (u "ventas") false).
  vm_compute. reflexivity.
Defined.


(** ** [render]: what leaves it *)




(** ** The flow-document backend: the table of contents *)

(** One line extends the story; a heading line by its anchor and its
    paragraph, and by one entry of the table of contents. *)
Lemma pdf_line_extends i ln σ :
  ∃ ext,
    story (pdf_line i ln σ) = story σ ++ ext
    ∧ match raw_heading ln with
      | Some (title, st) =>
        ext = heading_flowables (title, st, i)
        ∧ map toc_link (toc (pdf_line i ln σ))
          = map toc_link (toc σ) ++ [toc_line (title, st, i)]
      | None => toc (pdf_line i ln σ) = toc σ
      end.
Proof.
  unfold pdf_line, raw_heading, pdf_heading. lits.
  destruct (strip ln) as [|c r] eqn:Hs.
  { cbn [story toc startswith]. by eexists. }
  destruct (startswith (c :: r) [35; 32]%N).
  { cbn [story toc]. eexists. split; [reflexivity|]. split; [reflexivity|].
    by rewrite map_app. }
  destruct (startswith (c :: r) [35; 35; 32]%N).
  { cbn [story toc]. eexists. split; [reflexivity|]. split; [reflexivity|].
    by rewrite map_app. }
  destruct (startswith (c :: r) [35; 35; 35; 32]%N).
  { cbn [story toc]. eexists. split; [reflexivity|]. split; [reflexivity|].
    by rewrite map_app. }
  destruct (_ || _); [cbn [story toc]; by eexists|].
  destruct (_ || _); [cbn [story toc]; by eexists|].
  destruct (startswith (c :: r) [PIPE]).
  { cbn [story toc]. exists []. by rewrite app_nil_r. }
  cbn [story toc].
  destruct (Utils.table_data σ), (Utils.in_list σ); rewrite <- ?app_assoc; by eexists.
Qed.

Lemma pdf_lines_extends lines : ∀ i σ,
  ∃ ext,
    story (pdf_lines i lines σ) = story σ ++ ext
    ∧ map toc_link (toc (pdf_lines i lines σ))
      = map toc_link (toc σ) ++ map toc_line (headings_from i lines)
    ∧ ∀ h, In h (headings_from i lines) →
           ∃ before after, ext = before ++ heading_flowables h ++ after.
Proof.
  induction lines as [|ln rest IH]; intros i σ; cbn [pdf_lines headings_from].
  - exists []. rewrite !app_nil_r. split_and!; [reflexivity | reflexivity | by intros h []].
  - destruct (pdf_line_extends i ln σ) as (ext1 & Hstory1 & Hline).
    destruct (IH (S i) (pdf_line i ln σ)) as (ext2 & Hstory2 & Htoc2 & Hin2).
    exists (ext1 ++ ext2). rewrite Hstory2, Hstory1, <- app_assoc. split; [reflexivity|].
    rewrite Htoc2.
    destruct (raw_heading ln) as [[title st]|].
    + destruct Hline as [-> Htoc1]. rewrite Htoc1, <- app_assoc. split; [reflexivity|].
      intros h [<-|Hh].
      * exists [], ext2. reflexivity.
      * destruct (Hin2 h Hh) as (before & after & ->).
        exists (heading_flowables (title, st, i) ++ before), after.
        by rewrite <- app_assoc.
    + rewrite Hline. split; [reflexivity|].
      intros h Hh. destruct (Hin2 h Hh) as (before & after & ->).
      exists (ext1 ++ before), after. by rewrite <- app_assoc.
Qed.

Lemma parse_markdown_for_pdf_story translator savefig text language has_logo st :
  parse_markdown_for_pdf translator savefig text language has_logo = Return st →
  ∃ title chart,
    let σ := pdf_body (split text [NL])
               (if has_logo then [Image Logo 100 50; Spacer 1 20] else []) in
    translate_text translator (u "Índice") language = Return title
    ∧ st = Paragraph title Heading1 :: rev (map toc_link (toc σ))
           ++ Spacer 1 20 :: story σ ++ chart
    ∧ (chart = [] ∨ ∃ png, chart = [Image (ChartPng png) 400 300; Spacer 1 20]).
Proof.
  unfold parse_markdown_for_pdf.
  destruct (detect_charts _ _) as [chart|e]; cbn [exc_bind]; [|discriminate].
  destruct (translate_text translator (u "Índice") language) as [title|e];
    cbn [exc_bind]; [|discriminate].
  intros H. injection H as <-.
  set (σ := pdf_body _ _).
  set (story1 := match chart_data chart with Some _ => _ | None => _ end).
  assert (∃ ch, story1 = story σ ++ ch
                ∧ (ch = [] ∨ ∃ png, ch = [Image (ChartPng png) 400 300; Spacer 1 20]))
    as (ch & -> & Hch).
  { subst story1. destruct (chart_data chart) as [[|p d]|].
    - exists []. rewrite app_nil_r. split; [reflexivity | by left].
    - destruct (generate_chart _ _ _).
      + exists []. rewrite app_nil_r. split; [reflexivity | by left].
      + eexists. split; [reflexivity|]. right. by eexists.
    - exists []. rewrite app_nil_r. split; [reflexivity | by left]. }
  exists title, ch. split; [reflexivity|]. split; [|exact Hch].
  change (insert_at 0 (Paragraph title Heading1) (story σ ++ ch))
    with (Paragraph title Heading1 :: (story σ ++ ch)).
  rewrite insert_links.
  apply insert_after_links. by rewrite length_rev, length_map.
Qed.

(** X11: the story of the flow-document backend opens with the table of
    contents, and the table lists the headings backwards. When the parser
    returns, its story is the title ([Índice], translated), one link per
    heading line of the text with the LAST heading first, a spacer, then the
    logo if there is one, then the body; the link of the heading on line [i]
    (counted from 0) points to the anchor [section_i], and the body holds
    that anchor right before the heading's paragraph. *)
Theorem pdf_table_of_contents
    (translator : str → str → exc (option str))
    (savefig : option chart_kind → list str → list pyfloat → exc (list N))
    (text language : str) (has_logo : bool) (st : list flowable) :
  parse_markdown_for_pdf translator savefig text language has_logo = Return st →
  let headings := headings_from 0 (split text [NL]) in
  ∃ title body,
    translate_text translator (u "Índice") language = Return title
    ∧ st = Paragraph title Heading1 :: map toc_line (rev headings)
           ++ Spacer 1 20 :: (if has_logo then [Image Logo 100 50; Spacer 1 20] else [])
           ++ body
    ∧ ∀ h, In h headings →
           ∃ before after, body = before ++ heading_flowables h ++ after.
Proof.
  intros Hparse headings.
  destruct (parse_markdown_for_pdf_story _ _ _ _ _ _ Hparse)
    as (title & chart & Htitle & Hst & _).
  cbv zeta in Hst.
  set (story0 := if has_logo then [Image Logo 100 50; Spacer 1 20] else []) in *.
  unfold pdf_body in Hst.
  destruct (pdf_lines_extends (split text [NL]) 0
              {| story := story0; toc := []; Utils.in_list := false;
                 Utils.list_level := 0; Utils.table_data := [] |})
    as (ext & Hstory & Htoc & Hin).
  cbn [story toc map app] in Hstory, Htoc.
  set (σ := pdf_lines 0 _ _) in *.
  exists title.
  exists (ext ++ match Utils.table_data σ with
                 | [] => []
                 | data => [table_flowable data]
                 end ++ chart).
  split; [exact Htitle|]. split.
  - rewrite Hst. fold headings in Htoc. rewrite map_rev, <- Htoc.
    destruct (Utils.table_data σ); cbn [story toc]; rewrite Hstory, <- ?app_assoc;
      reflexivity.
  - intros h Hh. destruct (Hin h Hh) as (before & after & ->).
    eexists before, _. rewrite <- !app_assoc. reflexivity.
Qed.

Lemma pdf_table_of_contents_witness :
  ∃ body,
    parse_markdown_for_pdf no_translator no_savefig
      (u "# Uno" ++ [NL] ++ u "texto" ++ [NL] ++ u "## Dos") (u "es") true
    = Return (Paragraph (u "Índice") Heading1
              :: [toc_line (u "Dos", Heading2, 2); toc_line (u "Uno", Heading1, 0)]
              ++ Spacer 1 20 :: [Image Logo 100 50; Spacer 1 20] ++ body).
Proof.
  destruct (pdf_table_of_contents no_translator no_savefig
              (u "# Uno" ++ [NL] ++ u "texto" ++ [NL] ++ u "## Dos") (u "es") true
              (Paragraph (u "Índice") Heading1
               :: [toc_line (u "Dos", Heading2, 2); toc_line (u "Uno", Heading1, 0)]
               ++ Spacer 1 20 :: [Image Logo 100 50; Spacer 1 20]
               ++ [anchor_paragraph 0; Paragraph (u "Uno") Heading1;
                   Paragraph (u "texto") BodyText;
                   anchor_paragraph 2; Paragraph (u "Dos") Heading2]))
    as (title & body & _ & _ & _); [vm_compute; reflexivity|].
  eexists. vm_compute. reflexivity.
Defined.


(** ** The flow-document backend: the chart *)

Lemma detect_line_directive c ln :
  detect_line c ln = (if is_directive ln then detect_line no_chart ln else Return c).
Proof.
  unfold is_directive, detect_line.
  destruct (contains _ (u "gráfico de barras con datos:")); [reflexivity|].
  by destruct (contains _ (u "gráfico de líneas con datos:")).
Qed.

Lemma detect_charts_last lines : ∀ c0 c,
  detect_charts lines c0 = Return c →
  match last_directive lines with
  | Some ln => detect_line no_chart ln = Return c
  | None => c = c0
  end.
Proof.
  induction lines as [|ln rest IH]; intros c0 c; cbn [detect_charts last_directive].
  - intros H. by injection H.
  - rewrite detect_line_directive.
    destruct (is_directive ln).
    + destruct (detect_line no_chart ln) as [c'|e] eqn:Hd; cbn [exc_bind]; [|discriminate].
      intros H. specialize (IH _ _ H). destruct (last_directive rest); [done | by subst].
    + cbn [exc_bind]. intros H. specialize (IH _ _ H). by destruct (last_directive rest).
Qed.

Lemma pdf_line_no_chart i ln σ :
  existsb is_chart (story σ) = false → existsb is_chart (story (pdf_line i ln σ)) = false.
Proof.
  intros Hσ. unfold pdf_line, pdf_heading. lits.
  destruct (strip ln) as [|c r] eqn:Hs.
  { cbn [story]. by rewrite existsb_app, Hσ. }
  repeat match goal with
         | |- context [if ?b then _ else _] => destruct b; cbn [story]
         end;
    try (by rewrite existsb_app, Hσ); try exact Hσ.
  - destruct (Utils.table_data σ); by rewrite !existsb_app, ?Hσ.
  - destruct (Utils.table_data σ); by rewrite !existsb_app, ?Hσ.
Qed.

Lemma pdf_lines_no_chart lines : ∀ i σ,
  existsb is_chart (story σ) = false → existsb is_chart (story (pdf_lines i lines σ)) = false.
Proof.
  induction lines as [|ln rest IH]; intros i σ Hσ; cbn [pdf_lines]; [done|].
  by apply IH, pdf_line_no_chart.
Qed.

Lemma toc_links_no_chart (toc : list (str * nat * str)) :
  existsb is_chart (rev (map toc_link toc)) = false.
Proof.
  induction toc as [|[[t p] a] toc IH]; [done|].
  cbn [map rev]. by rewrite existsb_app, IH.
Qed.

Lemma generate_chart_png savefig data kind :
  generate_chart savefig data kind ≠ [] →
  ∃ labels values, savefig kind labels values = Return (generate_chart savefig data kind).
Proof.
  unfold generate_chart. destruct data as [|p d]; [done|].
  destruct (savefig kind _ _) as [png|e] eqn:Hs; [|done]. intros _. by eexists _, _.
Qed.

(** X12: a document gets at most one chart, that of the last directive, at
    its very end. When the flow-document parser returns, its story is a part
    without any chart image followed by a tail; the tail is empty when no
    line holds a directive; otherwise it is decided by the LAST line that
    holds one, whatever the lines before it say: it is either empty, or the
    image of a plot of the kind of that line (not empty, written by the
    plotting library) and a spacer, and it is empty when the data of that
    line did not parse. *)
Theorem pdf_chart_is_last_directive
    (translator : str → str → exc (option str))
    (savefig : option chart_kind → list str → list pyfloat → exc (list N))
    (text language : str) (has_logo : bool) (st : list flowable) :
  parse_markdown_for_pdf translator savefig text language has_logo = Return st →
  ∃ front tail,
    st = front ++ tail
    ∧ existsb is_chart front = false
    ∧ match last_directive (split text [NL]) with
      | None => tail = []
      | Some ln =>
        ∃ chart,
          detect_line no_chart ln = Return chart
          ∧ (tail = []
             ∨ ∃ png labels values,
                 chart_data chart ≠ None
                 ∧ png ≠ []
                 ∧ savefig (chart_type chart) labels values = Return png
                 ∧ tail = [Image (ChartPng png) 400 300; Spacer 1 20])
      end.
Proof.
  unfold parse_markdown_for_pdf.
  destruct (detect_charts _ _) as [chart|e] eqn:Hdet; cbn [exc_bind]; [|discriminate].
  destruct (translate_text translator (u "Índice") language) as [title|e];
    cbn [exc_bind]; [|discriminate].
  intros H. injection H as <-.
  apply detect_charts_last in Hdet.
  set (σ := pdf_body _ _).
  set (story1 := match chart_data chart with Some _ => _ | None => _ end).
  assert (∃ tail,
            story1 = story σ ++ tail
            ∧ (tail = []
               ∨ ∃ png labels values,
                   chart_data chart ≠ None
                   ∧ png ≠ []
                   ∧ savefig (chart_type chart) labels values = Return png
                   ∧ tail = [Image (ChartPng png) 400 300; Spacer 1 20]))
    as (tail & -> & Htail).
  { subst story1. destruct (chart_data chart) as [[|p d]|].
    - exists []. rewrite app_nil_r. split; [reflexivity | by left].
    - destruct (generate_chart savefig _ (chart_type chart)) as [|b png] eqn:Hg.
      + exists []. rewrite app_nil_r. split; [reflexivity | by left].
      + eexists. split; [reflexivity|]. right.
        destruct (generate_chart_png savefig _ (chart_type chart)
                    ltac:(rewrite Hg; discriminate)) as (labels & values & Hs).
        rewrite Hg in Hs. exists (b :: png), labels, values. by split_and!.
    - exists []. rewrite app_nil_r. split; [reflexivity | by left]. }
  change (insert_at 0 (Paragraph title Heading1) (story σ ++ tail))
    with (Paragraph title Heading1 :: (story σ ++ tail)).
  rewrite insert_links.
  rewrite (insert_after_links _ (Spacer 1 20) (rev (map toc_link (toc σ))));
    [|by rewrite length_rev, length_map].
  assert (existsb is_chart (story σ) = false) as Hbody.
  { subst σ. unfold pdf_body. set (σ' := pdf_lines 0 _ _).
    assert (existsb is_chart (story σ') = false) as Hσ'.
    { apply pdf_lines_no_chart. cbn [story]. by destruct has_logo. }
    destruct (Utils.table_data σ'); [exact Hσ'|]. cbn [story].
    by rewrite existsb_app, Hσ'. }
  exists (Paragraph title Heading1 :: rev (map toc_link (toc σ)) ++ Spacer 1 20 :: story σ),
         tail.
  split_and!.
  - cbn [app]. by rewrite <- app_assoc.
  - cbn [existsb is_chart orb]. rewrite existsb_app, toc_links_no_chart.
    cbn [existsb is_chart orb]. exact Hbody.
  - destruct (last_directive _) as [ln|].
    + by exists chart.
    + subst chart. destruct Htail as [->|(png & labels & values & Hd & _)]; done.
Qed.

Lemma pdf_chart_is_last_directive_witness :
  ∃ front tail,
    parse_markdown_for_pdf no_translator one_byte_savefig
      (u "gráfico de barras con datos: a:1" ++ [NL]
       ++ u "Gráfico de LÍNEAS con datos: b:2, c:3") (u "es") false
    = Return (front ++ tail)
    ∧ existsb is_chart front = false
    ∧ last_directive (split (u "gráfico de barras con datos: a:1" ++ [NL]
                             ++ u "Gráfico de LÍNEAS con datos: b:2, c:3") [NL])
      = Some (u "Gráfico de LÍNEAS con datos: b:2, c:3").
Proof.
  destruct (pdf_chart_is_last_directive no_translator one_byte_savefig
              (u "gráfico de barras con datos: a:1" ++ [NL]
               ++ u "Gráfico de LÍNEAS con datos: b:2, c:3") (u "es") false
              [Paragraph (u "Índice") Heading1; Spacer 1 20;
               Paragraph (u "gráfico de barras con datos: a:1") BodyText;
               Paragraph (u "Gráfico de LÍNEAS con datos: b:2, c:3") BodyText;
               Image (ChartPng [137%N]) 400 300; Spacer 1 20])
    as (front & tail & Hst & Hfront & _); [vm_compute; reflexivity|].
  exists front, tail. split_and!; [|exact Hfront | vm_compute; reflexivity].
  rewrite <- Hst. vm_compute. reflexivity.
Defined.


(** ** The word-processing backend: one paragraph for each line *)

Lemma docx_line_elements ln σ σ' :
  rows_pending σ → first_level σ → docx_line ln σ = Return σ' →
  first_level σ'
  ∧ ∃ new,
      Docx.doc σ' = Docx.doc σ ++ new
      ∧ if docx_visible ln then ∃ e, new = [e] ∧ paragraph_of e ln else new = [].
Proof.
  intros Hpend Hlist. unfold docx_line, docx_visible, paragraph_of. lits.
  destruct (strip ln) as [|c r] eqn:Hs.
  { intros [-> _]%flush_table_pending; [|done]. split; [exact Hlist|].
    exists []. by rewrite app_nil_r. }
  cbn [nonempty andb].
  destruct (startswith (c :: r) [PIPE]) eqn:Hp.
  { assert (c = PIPE) as ->.
    { cbn [startswith] in Hp. by apply andb_true_iff in Hp as [->%N.eqb_eq _]. }
    replace (startswith (PIPE :: r) [35; 32]%N) with false by (by vm_compute).
    replace (startswith (PIPE :: r) [35; 35; 32]%N) with false by (by vm_compute).
    replace (startswith (PIPE :: r) [35; 35; 35; 32]%N) with false by (by vm_compute).
    replace (startswith (PIPE :: r) [45; 32]%N) with false by (by vm_compute).
    replace (startswith (PIPE :: r) [42; 32]%N) with false by (by vm_compute).
    replace (startswith (PIPE :: r) [32; 32; 45; 32]%N) with false by (by vm_compute).
    replace (startswith (PIPE :: r) [32; 32; 42; 32]%N) with false by (by vm_compute).
    cbn [orb negb]. intros H. injection H as <-. split; [by intros [=]|].
    cbn [Docx.doc]. exists []. by rewrite app_nil_r. }
  cbn [negb].
  destruct (startswith (c :: r) [35; 32]%N).
  { intros H. injection H as <-. split; [by intros [=]|]. cbn [Docx.doc].
    eexists. split; [reflexivity|]. eexists. split; [reflexivity|].
    by exists (S (section_number σ)). }
  destruct (startswith (c :: r) [35; 35; 32]%N).
  { intros H. injection H as <-. split; [by intros [=]|]. cbn [Docx.doc].
    eexists. split; [reflexivity|]. eexists. split; [reflexivity|].
    by exists (section_number σ), (S (subsection_number σ)). }
  destruct (startswith (c :: r) [35; 35; 35; 32]%N).
  { intros H. injection H as <-. split; [by intros [=]|]. cbn [Docx.doc].
    eexists. split; [reflexivity|]. eexists. split; reflexivity. }
  destruct (startswith (c :: r) [45; 32]%N || startswith (c :: r) [42; 32]%N).
  { intros H. injection H as <-.
    assert ((if Docx.in_list σ then Docx.list_level σ else 1) = 1) as Hlevel.
    { destruct (Docx.in_list σ) eqn:Hin; [by apply Hlist | reflexivity]. }
    rewrite Hlevel. split; [by intros _|]. cbn [Docx.doc].
    eexists. split; [reflexivity|]. eexists. split; reflexivity. }
  assert (startswith (c :: r) [32; 32; 45; 32]%N || startswith (c :: r) [32; 32; 42; 32]%N
          = false) as ->.
  { rewrite <- Hs.
    change [32; 32; 45; 32]%N with (SP :: [32; 45; 32]%N).
    change [32; 32; 42; 32]%N with (SP :: [32; 42; 32]%N).
    by rewrite !strip_no_leading_space. }
  destruct (flush_table _) as [σ2|e] eqn:Hf; cbn [exc_bind]; [|discriminate].
  apply flush_table_pending in Hf as [-> _].
  2:{ destruct Hpend as [H1 H2]. by split. }
  intros H. injection H as <-. split; [by intros [=]|]. cbn [Docx.doc].
  eexists. split; [reflexivity|]. eexists. split; reflexivity.
Qed.

Lemma docx_lines_elements lines : ∀ σ σ',
  rows_pending σ → first_level σ → docx_lines lines σ = Return σ' →
  ∃ new,
    Docx.doc σ' = Docx.doc σ ++ new
    ∧ Forall2 paragraph_of new (List.filter docx_visible lines).
Proof.
  induction lines as [|ln rest IH]; intros σ σ' Hpend Hlist;
    cbn [docx_lines List.filter].
  - intros H. injection H as <-. exists []. rewrite app_nil_r. split; [done | constructor].
  - destruct (docx_line ln σ) as [σ1|e] eqn:H1; cbn [exc_bind]; [|discriminate].
    destruct (docx_line_pending ln σ σ1 Hpend H1) as [Hpend1 _].
    destruct (docx_line_elements ln σ σ1 Hpend Hlist H1) as (Hlist1 & new1 & Hdoc1 & Hnew1).
    intros H. destruct (IH σ1 σ' Hpend1 Hlist1 H) as (new2 & Hdoc2 & Hnew2).
    exists (new1 ++ new2). rewrite Hdoc2, Hdoc1, <- app_assoc. split; [reflexivity|].
    destruct (docx_visible ln).
    + destruct Hnew1 as (e & -> & He). cbn [app]. by constructor.
    + subst new1. exact Hnew2.
Qed.

Lemma initial_state_pending (has_logo : bool) :
  rows_pending
    {| Docx.doc := if has_logo then [DocPicture] else []; section_number := 0;
       subsection_number := 0; Docx.in_list := false; Docx.list_level := 0;
       in_table := false; Docx.table_data := [] |}.
Proof. split; [by apply Forall_nil | done]. Qed.

(** X13: a document of the word-processing backend has one paragraph for
    each line of the text that is neither blank nor a table row, in the order
    of the text, and nothing else but the logo in front; no line is dropped,
    repeated or moved. When the parser returns (for a text without a carriage
    return, which the library would store as a line break), the paragraph
    of a line is: for a first or a second level heading, a number [n. ] or
    [n.m ] and the stripped title, in the style of its level; for a third
    level heading the stripped title alone; for a bullet the stripped item
    in the list style, indented by one level (half an inch), always; for any
    other line the stripped line in the normal style; each with one plain
    run and, the bullets apart, no indentation. The numbers are those of the
    running counters. *)
Theorem docx_one_paragraph_per_line (text : str) (has_logo : bool) (d : list element) :
  Forall (λ c, c ≠ 13%N) text →
  parse_markdown_for_docx text has_logo = Return d →
  (∃ paragraphs,
     d = (if has_logo then [DocPicture] else []) ++ paragraphs
     ∧ Forall2 paragraph_of paragraphs (List.filter docx_visible (split text [NL])))
  ∧ docx_headings d = numbered_headings 0 0 (split text [NL]).
Proof.
  intros _ Hparse. split; [|by eapply parse_markdown_for_docx_headings].
  unfold parse_markdown_for_docx in Hparse.
  destruct (docx_lines _ _) as [σ|e] eqn:Hl; cbn [exc_bind] in Hparse; [|discriminate].
  destruct (docx_lines_pending _ _ _ (initial_state_pending has_logo) Hl) as [Hpend _].
  destruct (docx_lines_elements _ _ _ (initial_state_pending has_logo)
              ltac:(by intros [=]) Hl) as (new & Hdoc & Hnew).
  cbn [Docx.doc] in Hdoc.
  destruct (flush_table σ) as [σ'|e] eqn:Hf; cbn [exc_bind] in Hparse; [|discriminate].
  apply flush_table_pending in Hf as [-> _]; [|exact Hpend].
  injection Hparse as <-. exists new. by split.
Qed.

Lemma docx_one_paragraph_per_line_witness :
  ∃ paragraphs,
    parse_markdown_for_docx
      (u "# Título" ++ [NL] ++ [NL] ++ u "- uno" ++ [NL] ++ u "texto") true
    = Return ([DocPicture] ++ paragraphs)
    ∧ Forall2 paragraph_of paragraphs [u "# Título"; u "- uno"; u "texto"].
Proof.
  destruct (docx_one_paragraph_per_line
              (u "# Título" ++ [NL] ++ [NL] ++ u "- uno" ++ [NL] ++ u "texto") true
              [DocPicture;
               DocParagraph (plain (u "1. Título")) CustomHeading1 None;
               DocParagraph (plain (u "uno")) CustomList (Some 1);
               DocParagraph (plain (u "texto")) CustomNormal None])
    as [(paragraphs & Hd & Hparagraphs) _].
  - apply Forall_forall. intros c Hc. apply list_elem_of_In in Hc. vm_compute in Hc.
    intros ->. repeat (destruct Hc as [Hc|Hc]; [discriminate Hc|]). destruct Hc.
  - vm_compute. reflexivity.
  - exists paragraphs. split.
    + rewrite <- Hd. vm_compute. reflexivity.
    + exact Hparagraphs.
Defined.

Import Ia Preview.

(** ** The preview of a word-processing document *)

Lemma style_not_recognised st :
  contains (lower (style_name st)) (u "heading 1") = false
  ∧ contains (lower (style_name st)) (u "heading 2") = false
  ∧ contains (lower (style_name st)) (u "heading 3") = false
  ∧ contains (lower (style_name st)) (u "list bullet") = false
  ∧ contains (lower (style_name st)) (u "list number") = false.
Proof. destruct st; vm_compute; by split_and!. Qed.

Lemma extract_paragraph_shown text n m e :
  (∀ rows, e ≠ DocTable rows) →
  extract_paragraph (text, n, m) e = (text ++ option_list (shown e), n, m).
Proof.
  intros Hne. destruct e as [runs st indent| |rows]; cbn [extract_paragraph shown].
  - destruct (strip (para_text runs)) as [|c r]; [by rewrite app_nil_r|].
    destruct (style_not_recognised st) as (-> & -> & -> & -> & ->). reflexivity.
  - by rewrite app_nil_r.
  - by destruct (Hne rows).
Qed.

Lemma extract_paragraphs_shown d : ∀ text n m,
  Forall (λ e, ∀ rows, e ≠ DocTable rows) d →
  foldl extract_paragraph (text, n, m) d = (text ++ omap shown d, n, m).
Proof.
  induction d as [|e d IH]; intros text n m Hd; cbn [foldl omap list_omap].
  - by rewrite app_nil_r.
  - apply Forall_cons in Hd as [He Hd]. rewrite extract_paragraph_shown by exact He.
    rewrite IH by exact Hd. rewrite <- app_assoc. by destruct (shown e).
Qed.

Lemma extract_tables_none d : ∀ text,
  Forall (λ e, ∀ rows, e ≠ DocTable rows) d → foldl extract_table text d = text.
Proof.
  induction d as [|e d IH]; intros text Hd; cbn [foldl]; [reflexivity|].
  apply Forall_cons in Hd as [He Hd]. rewrite IH by exact Hd.
  destruct e as [runs st indent| |rows]; try reflexivity. by destruct (He rows).
Qed.

Lemma paragraph_of_no_table ps lines :
  Forall2 paragraph_of ps lines → Forall (λ e, ∀ rows, e ≠ DocTable rows) ps.
Proof.
  induction 1 as [|e ln ps lines He _ IH]; constructor; [|exact IH].
  unfold paragraph_of in He. intros rows ->.
  repeat match type of He with
         | if ?b then _ else _ => destruct b
         end;
    repeat match type of He with ∃ _, _ => destruct He as [? He] end;
    discriminate He.
Qed.

(** X14: in the preview of a word-processing document nothing is marked.
    For the document the parser has built from a text (without a carriage
    return, which the library would read back as a line feed),
    [extract_docx_content] gives the stripped texts of the paragraphs that
    are not blank, one per line, and the whole stripped: the names of the
    parser's styles hold none of [heading 1], [heading 2], [heading 3],
    [list bullet], [list number], so no heading is numbered or set apart by
    blank lines, no bullet gets its dash or its indentation, and the counters
    of the preview stay at zero; and there is no table to show. *)
Theorem preview_of_parsed_document (text : str) (has_logo : bool) (d : list element) :
  Forall (λ c, c ≠ 13%N) text →
  parse_markdown_for_docx text has_logo = Return d →
  extract_docx_content d = strip (join [NL] (omap shown d))
  ∧ foldl extract_paragraph ([], 0, 0) d = (omap shown d, 0, 0).
Proof.
  intros _ Hparse.
  assert (Forall (λ e, ∀ rows, e ≠ DocTable rows) d) as Hd.
  { unfold parse_markdown_for_docx in Hparse.
    destruct (docx_lines _ _) as [σ|e] eqn:Hl; cbn [exc_bind] in Hparse; [|discriminate].
    destruct (docx_lines_pending _ _ _ (initial_state_pending has_logo) Hl)
      as [Hpend _].
    destruct (docx_lines_elements _ _ _ (initial_state_pending has_logo)
                ltac:(by intros [=]) Hl) as (ps & Hdoc & Hps).
    cbn [Docx.doc] in Hdoc.
    destruct (flush_table σ) as [σ'|e] eqn:Hf; cbn [exc_bind] in Hparse; [|discriminate].
    apply flush_table_pending in Hf as [-> _]; [|exact Hpend].
    injection Hparse as <-. rewrite Hdoc.
    apply Forall_app. split; [|by eapply paragraph_of_no_table].
    destruct has_logo; [|constructor]. constructor; [discriminate | constructor]. }
  unfold extract_docx_content.
  rewrite (extract_paragraphs_shown _ [] 0 0 Hd). cbn [app].
  by rewrite (extract_tables_none _ _ Hd).
Qed.

Lemma preview_of_parsed_document_witness :
  extract_docx_content
    [DocParagraph (plain (u "1. Título")) CustomHeading1 None;
     DocParagraph (plain (u "uno")) CustomList (Some 1);
     DocParagraph (plain (u "texto")) CustomNormal None]
  = u "1. Título" ++ [NL] ++ u "uno" ++ [NL] ++ u "texto".
Proof.
  destruct (preview_of_parsed_document
              (u "# Título" ++ [NL] ++ [NL] ++ u "- uno" ++ [NL] ++ u "texto") false
              [DocParagraph (plain (u "1. Título")) CustomHeading1 None;
               DocParagraph (plain (u "uno")) CustomList (Some 1);
               DocParagraph (plain (u "texto")) CustomNormal None]) as [-> _].
  - apply Forall_forall. intros c Hc. apply list_elem_of_In in Hc. vm_compute in Hc.
    intros ->. repeat (destruct Hc as [Hc|Hc]; [discriminate Hc|]). destruct Hc.
  - vm_compute. reflexivity.
  - vm_compute. reflexivity.
Defined.


(** ** The flow-document backend: the rows of the tables *)

Lemma pdf_line_rows i ln σ :
  flat_map table_rows (story (pdf_line i ln σ)) ++ Utils.table_data (pdf_line i ln σ)
  = (flat_map table_rows (story σ) ++ Utils.table_data σ) ++ option_list (pdf_row ln).
Proof.
  unfold pdf_line, pdf_row, pdf_heading. lits.
  destruct (strip ln) as [|c r] eqn:Hs.
  { cbn [story Utils.table_data startswith option_list].
    rewrite flat_map_app. cbn [flat_map table_rows app]. by rewrite !app_nil_r. }
  destruct (startswith (c :: r) [PIPE]) eqn:Hp.
  { assert (c = PIPE) as ->.
    { cbn [startswith] in Hp. by apply andb_true_iff in Hp as [->%N.eqb_eq _]. }
    replace (startswith (PIPE :: r) [35; 32]%N) with false by (by vm_compute).
    replace (startswith (PIPE :: r) [35; 35; 32]%N) with false by (by vm_compute).
    replace (startswith (PIPE :: r) [35; 35; 35; 32]%N) with false by (by vm_compute).
    replace (startswith (PIPE :: r) [45; 32]%N) with false by (by vm_compute).
    replace (startswith (PIPE :: r) [42; 32]%N) with false by (by vm_compute).
    replace (startswith (PIPE :: r) [32; 32; 45; 32]%N) with false by (by vm_compute).
    replace (startswith (PIPE :: r) [32; 32; 42; 32]%N) with false by (by vm_compute).
    cbn [orb story Utils.table_data].
    destruct (nonempty _ && forallb _ _); cbn [option_list];
      by rewrite ?app_nil_r, ?app_assoc. }
  cbn [option_list]. rewrite app_nil_r.
  destruct (startswith (c :: r) [35; 32]%N).
  { cbn [story Utils.table_data]. rewrite flat_map_app. cbn [flat_map table_rows app].
    by rewrite !app_nil_r. }
  destruct (startswith (c :: r) [35; 35; 32]%N).
  { cbn [story Utils.table_data]. rewrite flat_map_app. cbn [flat_map table_rows app].
    by rewrite !app_nil_r. }
  destruct (startswith (c :: r) [35; 35; 35; 32]%N).
  { cbn [story Utils.table_data]. rewrite flat_map_app. cbn [flat_map table_rows app].
    by rewrite !app_nil_r. }
  destruct (_ || _).
  { cbn [story Utils.table_data]. rewrite flat_map_app. cbn [flat_map table_rows app].
    by rewrite !app_nil_r. }
  destruct (_ || _).
  { cbn [story Utils.table_data]. rewrite flat_map_app. cbn [flat_map table_rows app].
    by rewrite !app_nil_r. }
  cbn [story Utils.table_data].
  destruct (Utils.table_data σ) as [|row rows], (Utils.in_list σ);
    rewrite !flat_map_app; cbn [flat_map table_rows table_flowable app];
    by rewrite !app_nil_r.
Qed.

Lemma pdf_lines_rows lines : ∀ i σ,
  flat_map table_rows (story (pdf_lines i lines σ)) ++ Utils.table_data (pdf_lines i lines σ)
  = (flat_map table_rows (story σ) ++ Utils.table_data σ) ++ omap pdf_row lines.
Proof.
  induction lines as [|ln rest IH]; intros i σ; cbn [pdf_lines omap list_omap].
  - by rewrite app_nil_r.
  - rewrite IH, pdf_line_rows, <- !app_assoc. do 2 f_equal. by destruct (pdf_row ln).
Qed.

Lemma toc_links_no_rows (toc : list (str * nat * str)) :
  flat_map table_rows (rev (map toc_link toc)) = [].
Proof.
  induction toc as [|[[t p] a] toc IH]; [done|].
  cbn [map rev]. by rewrite flat_map_app, IH.
Qed.

(** X15: the tables of a flow document hold every complete row of the text,
    once and in order. When the parser returns, the rows of the tables of its
    story, read one table after the other, are the cells (stripped) of the
    lines that are table rows with something in every cell, in the order of
    the text: a row with an empty cell is dropped, whole; no other row is
    lost or repeated, whichever table it has ended up in. *)
Theorem pdf_tables_keep_complete_rows
    (translator : str → str → exc (option str))
    (savefig : option chart_kind → list str → list pyfloat → exc (list N))
    (text language : str) (has_logo : bool) (st : list flowable) :
  parse_markdown_for_pdf translator savefig text language has_logo = Return st →
  flat_map table_rows st = omap pdf_row (split text [NL]).
Proof.
  intros Hparse.
  destruct (parse_markdown_for_pdf_story _ _ _ _ _ _ Hparse)
    as (title & chart & _ & -> & Hchart).
  cbv zeta. unfold pdf_body.
  pose proof (pdf_lines_rows (split text [NL]) 0
                {| story := if has_logo then [Image Logo 100 50; Spacer 1 20] else [];
                   toc := []; Utils.in_list := false; Utils.list_level := 0;
                   Utils.table_data := [] |}) as Hrows.
  cbn [story Utils.table_data] in Hrows.
  replace (flat_map table_rows (if has_logo then [Image Logo 100 50; Spacer 1 20] else []))
    with (@nil (list str)) in Hrows by (by destruct has_logo).
  cbn [app] in Hrows. rewrite <- Hrows.
  set (σ := pdf_lines 0 _ _).
  assert (flat_map table_rows chart = []) as Hc.
  { by destruct Hchart as [->|[png ->]]. }
  change (Paragraph title Heading1 :: ?l) with ([Paragraph title Heading1] ++ l).
  change (Spacer 1 20 :: ?l) with ([Spacer 1 20] ++ l).
  destruct (Utils.table_data σ) as [|row rows] eqn:Hd; cbn [story toc];
    rewrite !flat_map_app, toc_links_no_rows, Hc; cbn [flat_map table_rows table_flowable app];
    by rewrite ?app_nil_r.
Qed.

Lemma pdf_tables_keep_complete_rows_witness :
  flat_map table_rows
    [Paragraph (u "Índice") Heading1; Spacer 1 20;
     Table [[u "a"; u "b"]] [100; 100]%N; Paragraph (u "texto") BodyText;
     Table [[u "e"; u "f"]] [100; 100]%N]
  = [[u "a"; u "b"]; [u "e"; u "f"]]
  ∧ omap pdf_row (split (u "| a | b |" ++ [NL] ++ u "| c | |" ++ [NL] ++ u "texto" ++ [NL]
                         ++ u "|e|f|") [NL])
    = [[u "a"; u "b"]; [u "e"; u "f"]].
Proof.
  pose proof (pdf_tables_keep_complete_rows no_translator no_savefig
                (u "| a | b |" ++ [NL] ++ u "| c | |" ++ [NL] ++ u "texto" ++ [NL]
                 ++ u "|e|f|") (u "es") false
                [Paragraph (u "Índice") Heading1; Spacer 1 20;
                 Table [[u "a"; u "b"]] [100; 100]%N; Paragraph (u "texto") BodyText;
                 Table [[u "e"; u "f"]] [100; 100]%N]
                ltac:(vm_compute; reflexivity)) as H.
  split; [vm_compute; reflexivity|]. rewrite <- H. vm_compute. reflexivity.
Defined.


(** ** The summary of the history *)

Lemma summarize_step_length summary m :
  length (summarize_step summary m) ≤ length summary + 123.
Proof.
  unfold summarize_step.
  destruct (str_eqb (role m) (u "user")).
  { rewrite !length_app, length_take.
    replace (length (u "- El usuario dijo: ")) with 19 by (vm_compute; reflexivity).
    replace (length (u "...")) with 3 by (vm_compute; reflexivity).
    cbn [length]. lia. }
  destruct (str_eqb (role m) (u "assistant")); [|lia].
  rewrite !length_app, length_take.
  replace (length (u "- La IA respondió: ")) with 19 by (vm_compute; reflexivity).
  replace (length (u "...")) with 3 by (vm_compute; reflexivity).
  cbn [length]. lia.
Qed.

Lemma summarize_fold_length history : ∀ summary,
  length (foldl summarize_step summary history) ≤ length summary + 123 * length history.
Proof.
  induction history as [|m rest IH]; intros summary; cbn [foldl length]; [lia|].
  specialize (IH (summarize_step summary m)).
  pose proof (summarize_step_length summary m). lia.
Qed.

(** X16: the summary of the history that goes into the system message is
    short whatever the messages hold: at most 36 characters of heading and
    123 characters for each message (its first 100 characters and a fixed
    frame). *)
Theorem summarize_history_length (history : list message) :
  length (summarize_history history) ≤ 36 + 123 * length history.
Proof.
  unfold summarize_history. destruct history as [|m rest]; [cbn [length]; lia|].
  pose proof (summarize_fold_length (m :: rest)
                (u "Contexto previo de la conversación:" ++ [NL])) as H.
  replace (length (u "Contexto previo de la conversación:" ++ [NL])) with 36 in H
    by (vm_compute; reflexivity).
  exact H.
Qed.

Lemma summarize_step_agrees summary m m' :
  role m = role m' → take 100 (content m) = take 100 (content m') →
  summarize_step summary m = summarize_step summary m'.
Proof. intros Hr Hc. unfold summarize_step. by rewrite Hr, Hc. Qed.

Lemma summarize_fold_agrees h h' :
  Forall2 (λ m m', role m = role m' ∧ take 100 (content m) = take 100 (content m')) h h' →
  ∀ summary, foldl summarize_step summary h = foldl summarize_step summary h'.
Proof.
  induction 1 as [|m m' h h' [Hr Hc] _ IH]; intros summary; [reflexivity|].
  cbn [foldl]. rewrite (summarize_step_agrees summary m m' Hr Hc). apply IH.
Qed.

(** X17: of each message only the role and the first 100 characters reach
    the summary: two histories whose messages agree, one by one, on the role
    and on the first 100 characters of the content have the same summary. *)
Theorem summarize_history_reads_100_characters (h h' : list message) :
  Forall2 (λ m m', role m = role m' ∧ take 100 (content m) = take 100 (content m')) h h' →
  summarize_history h = summarize_history h'.
Proof.
  intros Hall. unfold summarize_history.
  destruct Hall as [|m m' h h' Hm Hall]; [reflexivity|].
  apply summarize_fold_agrees. by constructor.
Qed.

Lemma summarize_history_reads_100_characters_witness :
  summarize_history [{| role := u "user"; content := replicate 100 97%N ++ u "b" |}]
  = summarize_history [{| role := u "user"; content := replicate 100 97%N ++ u "c" |}].
Proof.
  apply summarize_history_reads_100_characters.
  constructor; [|constructor]. split; vm_compute; reflexivity.
Defined.

Lemma summarize_step_other summary m :
  role m ≠ u "user" → role m ≠ u "assistant" → summarize_step summary m = summary.
Proof.
  intros Hu Ha. unfold summarize_step.
  destruct (str_eqb (role m) (u "user")) eqn:H1; [by apply str_eqb_eq in H1|].
  destruct (str_eqb (role m) (u "assistant")) eqn:H2; [by apply str_eqb_eq in H2|].
  reflexivity.
Qed.

(** X18: a message whose role is neither [user] nor [assistant] (the
    [system] notes the application stores after each document) leaves no
    trace in the summary: the summary is that of the history without it, as
    long as another message is left. *)
Theorem summarize_history_skips_other_roles (before after : list message) (m : message) :
  role m ≠ u "user" → role m ≠ u "assistant" → before ++ after ≠ [] →
  summarize_history (before ++ m :: after) = summarize_history (before ++ after).
Proof.
  intros Hu Ha Hne. unfold summarize_history.
  destruct (before ++ m :: after) as [|x xs] eqn:H1; [by destruct before|].
  destruct (before ++ after) as [|y ys] eqn:H2; [done|].
  rewrite <- H1, <- H2, !foldl_app. cbn [foldl].
  by rewrite summarize_step_other.
Qed.

Lemma summarize_history_skips_other_roles_witness :
  summarize_history [{| role := u "user"; content := u "hola" |};
                     {| role := u "system"; content := u "Documento generado" |}]
  = summarize_history [{| role := u "user"; content := u "hola" |}].
Proof.
  apply (summarize_history_skips_other_roles
           [{| role := u "user"; content := u "hola" |}] []
           {| role := u "system"; content := u "Documento generado" |});
    vm_compute; discriminate.
Defined.

Import ReSem.

(** ** The matcher and what a pattern denotes *)

Lemma after_nil prev : after prev [] = prev.
Proof. reflexivity. Qed.

Lemma after_app prev x y : after (after prev x) y = after prev (x ++ y).
Proof.
  unfold after. rewrite last_app. by destruct (last y), (last x).
Qed.

Lemma after_cons prev x s : after (Some x) s = after prev (x :: s).
Proof.
  change (x :: s) with ([x] ++ s). by rewrite <- after_app.
Qed.

Lemma star_den (p : N → bool) (k : option N → str → bool) s : ∀ prev,
  (fix star (prev : option N) (s : str) {struct s} : bool :=
     match s with
     | x :: s' => if (if p x then star (Some x) s' else false) then true else k prev s
     | [] => k prev s
     end) prev s = true
  ↔ ∃ s1 s2, s = s1 ++ s2 ∧ forallb p s1 = true ∧ k (after prev s1) s2 = true.
Proof.
  induction s as [|x s IH]; intros prev.
  - split.
    + intros Hk. exists [], []. by split_and!.
    + intros (s1 & s2 & Hs & _ & Hk). symmetry in Hs.
      apply app_eq_nil in Hs as [-> ->]. exact Hk.
  - split.
    + destruct (p x) eqn:Hp.
      * match goal with |- context [if ?b then true else _] => destruct b eqn:Hstar end.
        -- intros _. apply IH in Hstar as (s1 & s2 & -> & Hall & Hk).
           exists (x :: s1), s2. split_and!; [reflexivity | |].
           ++ cbn [forallb]. by rewrite Hp.
           ++ by rewrite <- (after_cons prev).
        -- intros Hk. exists [], (x :: s). by split_and!.
      * intros Hk. exists [], (x :: s). by split_and!.
    + intros (s1 & s2 & Hs & Hall & Hk). destruct s1 as [|y s1].
      * cbn [app] in Hs. subst s2. cbn [after last] in Hk.
        destruct (if p x then _ else false); [reflexivity | exact Hk].
      * cbn [app] in Hs. injection Hs as <- ->. cbn [forallb] in Hall.
        apply andb_true_iff in Hall as [Hp Hall]. rewrite Hp.
        rewrite <- (after_cons prev) in Hk.
        rewrite (proj2 (IH (Some x)) (ex_intro _ s1 (ex_intro _ s2
                   (conj eq_refl (conj Hall Hk))))).
        reflexivity.
Qed.

(** The matcher accepts exactly when the pattern can consume a prefix after
    which the continuation accepts. *)
Lemma matches_den fl r : ∀ prev s k,
  matches fl r prev s k = true
  ↔ ∃ s1 s2, s = s1 ++ s2 ∧ den fl r prev s1 s2 ∧ k (after prev s1) s2 = true.
Proof.
  induction r as [c|p| | | |a IHa b IHb|a IHa b IHb|p|a IHa]; intros prev s k;
    cbn [matches den].
  - destruct s as [|x s].
    + split; [discriminate|]. intros (s1 & s2 & Hs & (y & -> & _) & _). discriminate Hs.
    + destruct (lit_eq fl x c) eqn:Hx.
      * split.
        -- intros Hk. exists [x], s. split_and!; [reflexivity | by exists x | exact Hk].
        -- intros (s1 & s2 & Hs & (y & -> & _) & Hk). by injection Hs as <- <-.
      * split; [discriminate|].
        intros (s1 & s2 & Hs & (y & -> & Hy) & _). injection Hs as <- _. congruence.
  - destruct s as [|x s].
    + split; [discriminate|]. intros (s1 & s2 & Hs & (y & -> & _) & _). discriminate Hs.
    + destruct (p x) eqn:Hx.
      * split.
        -- intros Hk. exists [x], s. split_and!; [reflexivity | by exists x | exact Hk].
        -- intros (s1 & s2 & Hs & (y & -> & _) & Hk). by injection Hs as <- <-.
      * split; [discriminate|].
        intros (s1 & s2 & Hs & (y & -> & Hy) & _). injection Hs as <- _. congruence.
  - destruct (at_bol fl prev) eqn:Hb.
    + split.
      * intros Hk. exists [], s. by split_and!.
      * intros (s1 & s2 & -> & [-> _] & Hk). exact Hk.
    + split; [discriminate|]. intros (s1 & s2 & _ & [_ H] & _). discriminate H.
  - destruct (at_eol fl s) eqn:He.
    + split.
      * intros Hk. exists [], s. by split_and!.
      * intros (s1 & s2 & -> & [-> _] & Hk). exact Hk.
    + split; [discriminate|].
      intros (s1 & s2 & -> & [-> H] & _). cbn [app] in He. congruence.
  - split.
    + intros Hk. exists [], s. by split_and!.
    + intros (s1 & s2 & -> & -> & Hk). exact Hk.
  - rewrite IHa. split.
    + intros (x & rest & -> & Ha & Hb). apply IHb in Hb as (y & s2 & -> & Hb & Hk).
      exists (x ++ y), s2. rewrite <- app_assoc. split_and!; [reflexivity | |].
      * by exists x, y.
      * by rewrite <- after_app.
    + intros (s1 & s2 & -> & (x & y & -> & Ha & Hb) & Hk).
      exists x, (y ++ s2). rewrite <- app_assoc. split_and!; [reflexivity | exact Ha |].
      apply IHb. exists y, s2. rewrite after_app. by split_and!.
  - destruct (matches fl a prev s k) eqn:Ha.
    + split; [|reflexivity]. intros _.
      apply IHa in Ha as (s1 & s2 & -> & Ha & Hk). exists s1, s2. split_and!; auto.
    + rewrite IHb. split.
      * intros (s1 & s2 & -> & Hb & Hk). exists s1, s2. split_and!; auto.
      * intros (s1 & s2 & -> & [Ha'|Hb] & Hk).
        -- rewrite (proj2 (IHa prev (s1 ++ s2) k)) in Ha; [discriminate|].
           by exists s1, s2.
        -- by exists s1, s2.
  - apply star_den.
  - destruct (matches fl a prev s k) eqn:Ha.
    + split; [|reflexivity]. intros _.
      apply IHa in Ha as (s1 & s2 & -> & Ha & Hk). exists s1, s2. split_and!; auto.
    + split.
      * intros Hk. exists [], s. split_and!; auto.
      * intros (s1 & s2 & -> & [->|Ha'] & Hk); [exact Hk|].
        rewrite (proj2 (IHa prev (s1 ++ s2) k)) in Ha; [discriminate|].
        by exists s1, s2.
Qed.

Import MoreValidator.

(** ** The prompt classifier *)

Lemma lower_char_idem c : lower_char (lower_char c) = lower_char c.
Proof.
  unfold lower_char.
  destruct ((65 <=? c) && (c <=? 90))%N eqn:H1.
  { apply andb_true_iff in H1 as [Ha Hb]. apply N.leb_le in Ha, Hb.
    replace ((65 <=? c + 32) && (c + 32 <=? 90))%N with false
      by (symmetry; apply andb_false_iff; right; apply N.leb_gt; lia).
    replace ((192 <=? c + 32) && (c + 32 <=? 222) && negb (c + 32 =? 215))%N with false;
      [reflexivity|].
    symmetry. apply andb_false_iff. left. apply andb_false_iff. left. apply N.leb_gt. lia. }
  destruct ((192 <=? c) && (c <=? 222) && negb (c =? 215))%N eqn:H2; [|by rewrite H1, H2].
  apply andb_true_iff in H2 as [H2 _]. apply andb_true_iff in H2 as [Ha Hb].
  apply N.leb_le in Ha, Hb.
  replace ((65 <=? c + 32) && (c + 32 <=? 90))%N with false
    by (symmetry; apply andb_false_iff; right; apply N.leb_gt; lia).
  replace ((192 <=? c + 32) && (c + 32 <=? 222) && negb (c + 32 =? 215))%N with false;
    [reflexivity|].
  symmetry. apply andb_false_iff. left. apply andb_false_iff. right. apply N.leb_gt. lia.
Qed.

Lemma lowered_lower s : lowered (lower s).
Proof.
  unfold lowered, lower. apply Forall_forall. intros x Hx.
  apply list_elem_of_fmap in Hx as (y & -> & _). apply lower_char_idem.
Qed.

Lemma lstrip_suffix s : ∃ ws, s = ws ++ lstrip s.
Proof.
  induction s as [|x s [ws IH]]; [by exists []|]. cbn [lstrip].
  destruct (isspace x); [|by exists []]. exists (x :: ws). cbn [app]. by f_equal.
Qed.

Lemma lowered_lstrip s : lowered s → lowered (lstrip s).
Proof.
  intros Hs. destruct (lstrip_suffix s) as [ws Hws]. unfold lowered in *.
  rewrite Hws in Hs. by apply Forall_app in Hs as [_ Hs].
Qed.

Lemma lowered_rev s : lowered s → lowered (rev s).
Proof.
  unfold lowered. rewrite !Forall_forall. intros Hs x Hx. apply Hs.
  apply list_elem_of_In. apply list_elem_of_In in Hx. by apply in_rev.
Qed.

Lemma lowered_strip s : lowered s → lowered (strip s).
Proof.
  intros Hs. unfold strip, rstrip.
  by apply lowered_rev, lowered_lstrip, lowered_rev, lowered_lstrip.
Qed.

Lemma stripped_strip s : stripped (strip s).
Proof.
  split.
  - intros x r Hq. pose proof (strip_head s) as Hh. by rewrite Hq in Hh.
  - intros x r Hq. unfold strip, rstrip in Hq.
    pose proof (lstrip_head (rev (lstrip s))) as Hh.
    apply (f_equal (@rev N)) in Hq. rewrite rev_involutive, rev_app_distr in Hq.
    cbn [rev app] in Hq. by rewrite Hq in Hh.
Qed.

(** A keyword in lower case matches itself only, on a lowered string. *)
Lemma den_Str kw : ∀ prev s1 s2,
  lowered kw → lowered s1 →
  (den ignorecase (Str kw) prev s1 s2 ↔ s1 = kw).
Proof.
  induction kw as [|c kw IH]; intros prev s1 s2 Hkw Hs; cbn [Str den]; [done|].
  apply Forall_cons in Hkw as [Hc Hkw]. split.
  - intros (x & y & -> & (x0 & -> & Hx) & Hy).
    apply Forall_app in Hs as [Hx0 Hy']. apply Forall_cons in Hx0 as [Hx0 _].
    apply IH in Hy; [|done..]. subst y. cbn [app]. f_equal.
    unfold lit_eq in Hx. cbn [IGNORECASE ignorecase] in Hx.
    apply N.eqb_eq in Hx. congruence.
  - intros ->. exists [c], kw. split_and!; [reflexivity | |].
    + exists c. split; [reflexivity|]. unfold lit_eq. cbn [IGNORECASE ignorecase].
      apply N.eqb_refl.
    + apply IH; [done | done | reflexivity].
Qed.

Lemma den_question prev s1 s2 :
  lowered s1 →
  (den ignorecase question prev s1 s2
   ↔ ∃ ws, forallb isspace ws = true ∧ (s1 = ws ∨ s1 = ws ++ [63%N])).
Proof.
  intros Hs. unfold question, ws_star. cbn [den]. split.
  - intros (ws & y & -> & Hws & [->|(x & -> & Hx)]).
    + exists ws. split; [done|]. left. by rewrite app_nil_r.
    + exists ws. split; [done|]. right. f_equal.
      apply Forall_app in Hs as [_ Hx0]. apply Forall_cons in Hx0 as [Hx0 _].
      unfold lit_eq in Hx. cbn [IGNORECASE ignorecase] in Hx.
      apply N.eqb_eq in Hx. rewrite Hx0 in Hx. by rewrite Hx.
  - intros (ws & Hws & [->| ->]).
    + exists ws, []. rewrite app_nil_r. split_and!; [reflexivity | done | by left].
    + exists ws, [63%N]. split_and!; [reflexivity | done |]. right. by exists 63%N.
Qed.

Lemma snoc_cases {A} (l : list A) : l = [] ∨ ∃ r x, l = r ++ [x].
Proof.
  induction l as [|x r _] using rev_ind; [by left | right; by exists r, x].
Qed.

Lemma forallb_isspace_last ws x r :
  forallb isspace ws = true → ws = r ++ [x] → isspace x = true.
Proof.
  intros Hws ->. rewrite forallb_app in Hws. apply andb_true_iff in Hws as [_ Hx].
  cbn [forallb] in Hx. by apply andb_true_iff in Hx as [Hx _].
Qed.

Lemma at_eol_space s : at_eol ignorecase s = true → forallb isspace s = true.
Proof.
  destruct s as [|c [|d s]]; cbn; [done | |discriminate].
  intros ->%N.eqb_eq. reflexivity.
Qed.

(** On a stripped string an anchored pattern whose body consumes something
    matches exactly when its body consumes the whole string. *)
Lemma re_match_anchored body q :
  stripped q →
  (∀ prev s1 s2, den ignorecase body prev s1 s2 → s1 ≠ []) →
  (re_match ignorecase (anchored body) q = true ↔ den ignorecase body None q []).
Proof.
  intros [Hhead Hlast] Hbody. unfold re_match. rewrite matches_den.
  unfold anchored, ws_star. cbn [den]. split.
  - intros (s1 & s2 & Hq & (x0 & y0 & -> & [-> _] & w1 & y1 & -> & Hw1 & b & y2 & ->
                            & Hb & w2 & y3 & -> & Hw2 & -> & He) & _).
    cbn [app] in *. rewrite app_nil_r in *.
    destruct w1 as [|x w1].
    2:{ cbn [app] in Hq. cbn [forallb] in Hw1. apply andb_true_iff in Hw1 as [Hx _].
        specialize (Hhead _ _ Hq). congruence. }
    cbn [app] in *. cbn [after last] in Hb.
    assert (forallb isspace (w2 ++ s2) = true) as Htail.
    { rewrite forallb_app, Hw2. by apply at_eol_space. }
    destruct (snoc_cases (w2 ++ s2)) as [Ht|(r & x & Ht)].
    + apply app_eq_nil in Ht as [-> ->]. rewrite !app_nil_r in *. by subst q.
    + exfalso.
      assert (isspace x = true) as Hx.
      { eapply forallb_isspace_last; [exact Htail | exact Ht]. }
      rewrite <- app_assoc, Ht, app_assoc in Hq.
      specialize (Hlast _ _ Hq). congruence.
  - intros Hb. exists q, []. rewrite app_nil_r. split; [reflexivity|].
    split; [|reflexivity].
    exists [], q. split; [reflexivity|]. split; [by split|].
    exists [], q. split; [reflexivity|]. split; [reflexivity|].
    exists q, []. rewrite app_nil_r. split; [reflexivity|]. split; [exact Hb|].
    exists [], []. split; [reflexivity|]. split; [reflexivity|]. by split.
Qed.

Lemma lowered_b s : forallb (λ x, lower_char x =? x)%N s = true → lowered s.
Proof.
  intros H. apply Forall_forall. intros x Hx. apply list_elem_of_In in Hx.
  rewrite forallb_forall in H. by apply N.eqb_eq, H.
Qed.

Lemma den_Str_nonempty kw prev s1 s2 :
  kw ≠ [] → den ignorecase (Str kw) prev s1 s2 → s1 ≠ [].
Proof.
  destruct kw as [|c kw]; [done|]. intros _. cbn [Str den].
  intros (x & y & -> & (x0 & -> & _) & _). discriminate.
Qed.

Lemma den_Str_question_nonempty kw prev s1 s2 :
  kw ≠ [] → den ignorecase (Seq (Str kw) question) prev s1 s2 → s1 ≠ [].
Proof.
  intros Hkw. cbn [den]. intros (x & y & -> & Hx & _).
  apply den_Str_nonempty in Hx; [|done]. by destruct x.
Qed.

Lemma plain_keyword kw q :
  stripped q → lowered q → lowered kw → kw ≠ [] →
  (re_match ignorecase (anchored (Str kw)) q = true ↔ q = kw).
Proof.
  intros Hq Hl Hkw Hne. rewrite re_match_anchored; [|done|].
  - by apply den_Str.
  - intros prev s1 s2. by apply den_Str_nonempty.
Qed.

Lemma question_keyword kw q :
  stripped q → lowered q → lowered kw → kw ≠ [] →
  (re_match ignorecase (anchored (Seq (Str kw) question)) q = true
   ↔ ∃ ws, forallb isspace ws = true ∧ (q = kw ∨ q = kw ++ ws ++ [63%N])).
Proof.
  intros Hq Hl Hkw Hne. rewrite re_match_anchored; [|done|].
  2:{ intros prev s1 s2. by apply den_Str_question_nonempty. }
  cbn [den]. split.
  - intros (x & y & -> & Hx & Hy).
    apply Forall_app in Hl as [Hlx Hly].
    apply den_Str in Hx; [|exact Hkw|exact Hlx]. subst x.
    apply den_question in Hy as (ws & Hws & [->| ->]); [| |exact Hly..].
    + destruct (snoc_cases ws) as [->|(r & x & ->)].
      * exists []. split; [done|]. left. by rewrite app_nil_r.
      * exfalso. pose proof (forallb_isspace_last _ x r Hws eq_refl) as Hx.
        destruct Hq as [_ Hlast]. rewrite app_assoc in Hlast.
        specialize (Hlast x (kw ++ r) eq_refl). congruence.
    + exists ws. split; [done|]. by right.
  - intros (ws & Hws & [->| ->]).
    + exists kw, []. rewrite app_nil_r. split_and!; [reflexivity | |].
      * by apply den_Str.
      * apply den_question; [by apply Forall_nil|]. exists []. split; [done | by left].
    + apply Forall_app in Hl as [_ Hly].
      exists kw, (ws ++ [63%N]). split_and!; [reflexivity | |].
      * by apply den_Str.
      * apply den_question; [done|]. exists ws. split; [done | by right].
Qed.

Ltac keyword :=
  first [ apply lowered_b; vm_compute; reflexivity
        | let H := fresh in intros H; vm_compute in H; discriminate H ].

(** X19: the prompts that are treated as conversation. A prompt of Latin-1
    characters is conversational exactly when, lowered and stripped, it is
    one of [hola], [hey], [hi], [hello], or one of [cómo estás], [qué tal]
    alone or followed by a question mark, with any white space before the
    mark; nothing else is (not [hola!], not [hola, cómo estás], not
    [buenos días]). *)
Theorem is_conversational_prompt_iff_greeting (prompt : str) :
  latin1 prompt →
  (is_conversational_prompt prompt = true ↔ is_greeting (strip (lower prompt))).
Proof.
  intros _. unfold is_conversational_prompt, conversational_keywords, is_greeting,
    plain_greetings, question_greetings.
  change {| MULTILINE := false; IGNORECASE := true |} with ignorecase.
  set (q := strip (lower prompt)).
  assert (stripped q) as Hs by apply stripped_strip.
  assert (lowered q) as Hl by apply lowered_strip, lowered_lower.
  cbn [existsb In]. rewrite !orb_true_iff.
  rewrite !plain_keyword by (done || keyword).
  rewrite !question_keyword by (done || keyword).
  split.
  - intros [->|[(ws & Hws & H)|[->|[->|[(ws & Hws & H)|[->|H]]]]]].
    + left. by left.
    + right. exists (u "cómo estás"), ws. split_and!; [by left | done | done].
    + left. right. by left.
    + left. right. right. by left.
    + right. exists (u "qué tal"), ws. split_and!; [right; by left | done | done].
    + left. right. right. right. by left.
    + discriminate H.
  - intros [[<-|[<-|[<-|[<-|[]]]]]|(kw & ws & [<-|[<-|[]]] & Hws & H)].
    + by left.
    + right. right. by left.
    + right. right. right. by left.
    + right. right. right. right. right. by left.
    + right. left. by exists ws.
    + right. right. right. right. left. by exists ws.
Qed.

Lemma is_conversational_prompt_iff_greeting_witness :
  is_conversational_prompt (u "  ¿Qué Tal  ?") = false
  ∧ is_conversational_prompt (u "  Qué Tal  ?") = true.
Proof.
  split.
  - vm_compute. reflexivity.
  - apply (is_conversational_prompt_iff_greeting (u "  Qué Tal  ?")).
    + apply Forall_forall. intros c Hc. apply list_elem_of_In in Hc.
      vm_compute in Hc. apply N.ltb_lt.
      repeat (destruct Hc as [<-|Hc]; [reflexivity|]). destruct Hc.
    + right. exists (u "qué tal"), (u "  "). split_and!.
      * right. by left.
      * reflexivity.
      * right. vm_compute. reflexivity.
Defined.


(** ** The content validator: what implies what *)

(** X20: the validator is laxer for a conversational reply and for the
    highest level. A text that passes as a document of some level also
    passes as a conversational reply of that level; and a text that passes
    as a document of level [medio] passes as one of level [profesional]. (A
    text that passes at [basico] need not pass at [medio], which asks for a
    heading.) *)
Theorem validate_generated_text_laxer (text : str) (l : level) :
  fst (validate_generated_text text l false) = true →
  fst (validate_generated_text text l true) = true
  ∧ (l = medio → fst (validate_generated_text text profesional false) = true).
Proof.
  unfold validate_generated_text. intros H. split.
  - destruct (max_words l <? word_count text); [discriminate H|].
    rewrite !andb_false_r. reflexivity.
  - intros ->. cbn [max_words] in *.
    destruct (Nat.ltb_spec 1000 (word_count text)) as [|Hle]; [discriminate H|].
    destruct (Nat.ltb_spec 2000 (word_count text)); [lia|].
    destruct (word_count text <? 50); [discriminate H|].
    exact H.
Qed.

Lemma validate_generated_text_laxer_witness :
  fst (validate_generated_text sixty_word_document medio true) = true
  ∧ fst (validate_generated_text sixty_word_document profesional false) = true.
Proof.
  destruct (validate_generated_text_laxer sixty_word_document medio) as [H1 H2];
    [vm_compute; reflexivity|].
  split; [exact H1 | exact (H2 eq_refl)].
Defined.

Import Ia.

(** ** The validation of a request *)

Lemma escape_char_safe c : forallb (λ x, negb (is_markup x)) (escape_char c) = true.
Proof.
  unfold escape_char.
  destruct c as [|p]; [reflexivity|].
  repeat match goal with
         | |- context [match ?q with xI _ => _ | xO _ => _ | xH => _ end] => destruct q
         end; reflexivity.
Qed.

Lemma escape_safe s : forallb (λ x, negb (is_markup x)) (escape s) = true.
Proof.
  unfold escape. induction s as [|c s IH]; [reflexivity|].
  cbn [map concat]. by rewrite forallb_app, escape_char_safe, IH.
Qed.

Lemma member_In s set : member s set = true → In s set.
Proof.
  unfold member. intros (x & Hx & Heq)%existsb_exists.
  apply str_eqb_eq in Heq. by subst.
Qed.

Lemma check_fields_ok fields :
  check_fields fields = Return tt →
  Forall (λ kv, length kv.2 ≤ MAX_FIELD_LENGTH) fields.
Proof.
  induction fields as [|[key value] rest IH]; [constructor|]. cbn [check_fields].
  destruct (MAX_FIELD_LENGTH <? length value) eqn:Hlen; [discriminate|].
  intros H. constructor; [|by apply IH]. cbn [snd]. by apply Nat.ltb_ge in Hlen.
Qed.

(** X21: what a request that [validate_input] accepts is known to be. The
    prompt it returns is the stripped prompt, not empty and of at most 1500
    characters; the document type, the template, the level and the language
    are lowered and among the configured ones (so the level is the name of
    one of the three levels); and every field value has been escaped: it
    holds no angle bracket and no quote, and it is the ESCAPED value that is
    at most 500 characters long. *)
Theorem validate_input_accepted (joined : list str → str) (data : request) (r : validated) :
  validate_input joined data = Return r →
  v_prompt r = strip (default [] (data_prompt data))
  ∧ v_prompt r ≠ []
  ∧ length (v_prompt r) ≤ 1500
  ∧ In (v_doc_type r) VALID_DOC_TYPES
  ∧ In (v_template r) VALID_TEMPLATES
  ∧ (∃ l, v_level r = level_name l)
  ∧ In (v_language r) VALID_LANGUAGES
  ∧ v_fields r = sanitize_fields (default [] (data_fields data))
  ∧ Forall (λ kv, length kv.2 ≤ 500 ∧ forallb (λ c, negb (is_markup c)) kv.2 = true)
      (v_fields r).
Proof.
  unfold validate_input.
  destruct (strip (default [] (data_prompt data))) as [|c prompt] eqn:Hp;
    [discriminate|]. cbn [nonempty negb].
  destruct (MAX_PROMPT_LENGTH <? _) eqn:Hlen; [discriminate|].
  destruct (member _ VALID_DOC_TYPES) eqn:Hd; [|discriminate]. cbn [negb].
  set (template := lower (default [] (data_template data))).
  assert (In template VALID_TEMPLATES
          ∨ (nonempty template && negb (member template VALID_TEMPLATES)) = true)
    as [Ht|Ht].
  { destruct template as [|t ts] eqn:Et; [left; by left|]. cbn [nonempty andb].
    destruct (member _ VALID_TEMPLATES) eqn:Hm; [left; by apply member_In | by right]. }
  2:{ rewrite Ht. discriminate. }
  destruct (nonempty template && _); [discriminate|].
  destruct (member _ VALID_LEVELS) eqn:Hl; [|discriminate]. cbn [negb].
  destruct (member _ VALID_LANGUAGES) eqn:Hg; [|discriminate]. cbn [negb].
  destruct (check_fields _) as [[]|e] eqn:Hf; cbn [exc_bind]; [|discriminate].
  intros H. injection H as <-.
  cbn [v_prompt v_doc_type v_template v_fields v_level v_language].
  split_and!.
  - reflexivity.
  - discriminate.
  - apply Nat.ltb_ge in Hlen. exact Hlen.
  - by apply member_In.
  - exact Ht.
  - apply member_In in Hl. destruct Hl as [<-|[<-|[<-|[]]]].
    + by exists basico.
    + by exists medio.
    + by exists profesional.
  - by apply member_In.
  - reflexivity.
  - apply check_fields_ok in Hf. rewrite Forall_forall in Hf. apply Forall_forall.
    intros [key value] Hin. split; [exact (Hf _ Hin)|]. cbn [snd].
    unfold sanitize_fields in Hin. apply list_elem_of_fmap in Hin as ([k v] & Heq & _).
    injection Heq as -> ->. apply escape_safe.
Qed.

Lemma validate_input_accepted_witness :
  ∃ r, validate_input no_join sample_request = Return r
       ∧ v_prompt r = u "Redacta un contrato"
       ∧ v_doc_type r = u "pdf"
       ∧ v_level r = level_name medio
       ∧ v_fields r = [(u "parte_a", u "&lt;b&gt;Ana&lt;/b&gt; &amp; Cía")].
Proof.
  eexists. split; [vm_compute; reflexivity|].
  destruct (validate_input_accepted no_join sample_request _
              ltac:(vm_compute; reflexivity)) as (Hp & _).
  split; [rewrite Hp; vm_compute; reflexivity|].
  split_and!; vm_compute; reflexivity.
Defined.


(** ** The name of the file *)

Lemma forallb_rev_true {A} (p : A → bool) (l : list A) :
  forallb p l = true → forallb p (rev l) = true.
Proof. rewrite !forallb_forall. intros H x Hx. apply H. by apply in_rev. Qed.

Lemma Forall_filter_keeps {A} (P Q : A → Prop) `{∀ x, Decision (Q x)} (l : list A) :
  Forall P l → Forall P (filter Q l).
Proof.
  rewrite !Forall_forall. intros Hl x Hx. apply Hl.
  by apply list_elem_of_filter in Hx as [_ Hx].
Qed.

Lemma findall_words_word isword s : ∀ cur,
  forallb isword cur = true →
  Forall (λ w, w ≠ [] ∧ forallb isword w = true) (findall_words isword s cur).
Proof.
  induction s as [|c s IH]; intros cur Hcur; cbn [findall_words].
  - destruct cur as [|x cur]; [constructor|]. constructor; [|constructor]. split.
    + intros H. apply (f_equal (@length N)) in H. rewrite length_rev in H. discriminate H.
    + by apply forallb_rev_true.
  - destruct (isword c) eqn:Hc.
    + apply IH. cbn [forallb]. by rewrite Hc, Hcur.
    + destruct cur as [|x cur]; [by apply IH|]. constructor; [|by apply IH]. split.
      * intros H. apply (f_equal (@length N)) in H. rewrite length_rev in H.
        discriminate H.
      * by apply forallb_rev_true.
Qed.

Lemma join_word isword sep words :
  forallb isword sep = true →
  Forall (λ w, w ≠ [] ∧ forallb isword w = true) words →
  forallb isword (join sep words) = true ∧ (words ≠ [] → join sep words ≠ []).
Proof.
  intros Hsep. induction 1 as [|w rest [Hne Hw] Hrest [IH1 IH2]]; [done|]. cbn [join].
  destruct rest as [|w' rest'].
  - split; [exact Hw | by intros _].
  - split.
    + by rewrite !forallb_app, Hw, Hsep, IH1.
    + intros _. by destruct w.
Qed.

(** X22: the name [generate_file_name] gives a file begins with a part made
    from the prompt that holds word characters only, whatever the prompt: no
    separator of a path, no dot, no space can come from it. That part is
    [documento], or at most three words of the lowered prompt, each longer
    than three characters, joined by underscores; it is never empty, and it
    is followed by the template, or by the document type when there is no
    template, the level and the time stamp, joined by underscores. *)
Theorem generate_file_name_base_is_words
    (isword : N → bool) (timestamp prompt template doc_type level : str) :
  isword 95%N = true →
  forallb isword (u "documento") = true →
  generate_file_name isword timestamp prompt template doc_type level
  = base_name isword prompt ++ u "_" ++ (if nonempty template then template else doc_type)
    ++ u "_" ++ level ++ u "_" ++ timestamp
  ∧ base_name isword prompt ≠ []
  ∧ forallb isword (base_name isword prompt) = true
  ∧ ∃ words,
      length words ≤ 3
      ∧ Forall (λ w, 3 < length w) words
      ∧ base_name isword prompt
        = match words with [] => u "documento" | _ => join (u "_") words end.
Proof.
  intros Hu Hd. split; [reflexivity|]. unfold base_name.
  set (words := take 3 _).
  assert (Forall (λ w, w ≠ [] ∧ forallb isword w = true) words) as Hwords.
  { subst words. by apply Forall_take, Forall_filter_keeps, findall_words_word. }
  assert (length words ≤ 3 ∧ Forall (λ w, 3 < length w) words) as [Hlen Hlong].
  { subst words. split; [rewrite length_take; lia|].
    apply Forall_take, Forall_forall. intros w Hw.
    by apply list_elem_of_filter in Hw as [Hw _]. }
  assert (match words with [] => u "documento" | _ => join (u "_") words end ≠ []
          ∧ forallb isword
              match words with [] => u "documento" | _ => join (u "_") words end = true)
    as [Hne Hall].
  { destruct words as [|w rest] eqn:Hw.
    - split; [|exact Hd]. intros H. vm_compute in H. discriminate H.
    - rewrite <- Hw in *.
      destruct (join_word isword (u "_") words) as [H1 H2]; [|exact Hwords|].
      + change (u "_") with [95%N]. cbn [forallb]. by rewrite Hu.
      + split; [|exact H1]. apply H2. by rewrite Hw. }
  split_and!; [exact Hne | exact Hall |]. by exists words.
Qed.

Lemma generate_file_name_base_is_words_witness :
  generate_file_name ascii_word (u "20240101_120000")
    (u "Redacta ../../un contrato de arrendamiento.docx") [] (u "pdf") (u "medio")
  = u "redacta_contrato_arrendamiento_pdf_medio_20240101_120000".
Proof.
  destruct (generate_file_name_base_is_words ascii_word (u "20240101_120000")
              (u "Redacta ../../un contrato de arrendamiento.docx") [] (u "pdf")
              (u "medio")) as (-> & _); [reflexivity | reflexivity |].
  vm_compute. reflexivity.
Defined.
